(** * Aura: workflow engine, checkpoint store and ticket lifecycle

  A shallow embedding of the agent core of the Aura repository:
  - [src/audit/audit.ts]              (module [Audit])
  - [src/tickets/tickets.ts]          (module [Tickets])
  - [src/agent/agent.checkpointer.ts] (modules [Checkpointer], [CheckpointerList])
  - [src/agent/agent.graph.ts]        (module [Graph])
  - [src/agent/agent.ts]              (module [Agent])

  Asynchronous functions are embedded in a state-and-exception monad over
  an explicit [World]; the reasoning engine, the tool set, the wall clock
  and the UUID source are oracles collected in the class [Env]. *)

From Stdlib Require Import ZArith List String Ascii Bool Lia Sorted.
From stdpp Require Import base option list gmap strings pretty.

Set Warnings "-register-all".

Local Open Scope Z_scope.
Local Open Scope string_scope.

(** ** JavaScript values and helpers *)

(** ISO-8601 timestamps produced by [new Date().toISOString()] are compared
  by the database as text, which for this fixed-width format agrees with
  chronological order; they are embedded as natural numbers. *)
Abbreviation Timestamp := nat (only parsing).

(** The result of [JSON.parse]. Numbers keep their lexeme. *)
Inductive json : Type :=
| JNull
| JBool (b : bool)
| JNum (lexeme : string)
| JStr (s : string)
| JArr (items : list json)
| JObj (members : list (string * json)).

(** A JavaScript value read off a parsed document: [None] is [undefined]. *)
Abbreviation JsVal := (option json) (only parsing).

(** [String.prototype.includes]. *)
Fixpoint includes (s needle : string) : bool :=
String.prefix needle s ||
match s with
| EmptyString => false
| String _ rest => includes rest needle
end.

(** ** Database schemas ([src/database/database.schemas.ts]) *)

Inductive TicketStatus :=
| st_draft | st_pending_approval | st_approved | st_in_progress
| st_awaiting_input | st_paused | st_completed | st_failed | st_cancelled.

Inductive TicketPriority := pr_low | pr_medium | pr_high | pr_critical.

Record TokenUsage := mkTokenUsage {
inputTokens : Z;
outputTokens : Z;
totalTokens : Z;
}.

Inductive ApprovalType := ap_plan | ap_action | ap_resource.

Record PendingApproval := mkPendingApproval {
pa_type : ApprovalType;
pa_description : string;
pa_details : JsVal;
pa_requestedAt : Timestamp;
}.

Record PendingQuestion := mkPendingQuestion {
pq_question : string;
pq_options : option (list string);
pq_askedAt : Timestamp;
}.

Record CommitInfo := mkCommitInfo {
sha : string;
message : string;
timestamp : Timestamp;
}.

Inductive AgentPhase :=
| ph_planning | ph_executing | ph_reviewing | ph_waiting | ph_completed.

Inductive PlanStepStatus :=
| step_pending | step_in_progress | step_completed | step_failed | step_skipped.

(** [title] and [description] are typed [string] in the source, but the
  planning node fills them from an unchecked cast of parsed JSON, so at run
  time they hold whatever the document held. *)
Record PlanStep := mkPlanStep {
step_id : string;
step_index : nat;
step_title : JsVal;
step_description : JsVal;
step_status : PlanStepStatus;
startedAt : option Timestamp;
completedAt : option Timestamp;
output : option string;
step_error : option string;
retryCount : Z;
maxRetries : Z;
}.

Record StructuredPlan := mkStructuredPlan {
version : Z;
summary : JsVal;
steps : list PlanStep;
generatedAt : Timestamp;
approvedAt : option Timestamp;
approvedBy : option string;
}.

(** [Partial<PlanStep>]: every field may be absent. *)
Record PlanStepUpdate := mkPlanStepUpdate {
u_id : option string;
u_index : option nat;
u_title : option JsVal;
u_description : option JsVal;
u_status : option PlanStepStatus;
u_startedAt : option (option Timestamp);
u_completedAt : option (option Timestamp);
u_output : option (option string);
u_error : option (option string);
u_retryCount : option Z;
u_maxRetries : option Z;
}.

Definition noStepUpdate : PlanStepUpdate :=
mkPlanStepUpdate None None None None None None None None None None None.

Global Instance TicketStatus_eq_dec : EqDecision TicketStatus.
Proof. solve_decision. Defined.
Global Instance PlanStepStatus_eq_dec : EqDecision PlanStepStatus.
Proof. solve_decision. Defined.
Global Instance AgentPhase_eq_dec : EqDecision AgentPhase.
Proof. solve_decision. Defined.

(** The ticket as the service hands it out ([rowToTicket]); the JSON text
  columns of [TicketRow] are kept in parsed form. *)
Record Ticket := mkTicket {
ticket_id : string;
title : string;
description : string;
status : TicketStatus;
priority : TicketPriority;
createdAt : Timestamp;
updatedAt : Timestamp;
resolvedAt : option Timestamp;
structuredPlan : option StructuredPlan;
currentTurn : Z;
maxTurns : Z;
tokenUsage : TokenUsage;
pendingApproval : option PendingApproval;
pendingQuestion : option PendingQuestion;
workingBranch : option string;
commits : list CommitInfo;
}.

(** ** Agent schemas ([src/agent/agent.schemas.ts]) and LangChain messages *)

Inductive HumanInputType := hi_approval | hi_answer.

Record HumanInput := mkHumanInput {
hi_type : HumanInputType;
approved : option bool;
answer : option string;
}.

Inductive WaitingFor := wf_approval | wf_answer.

(** Message content is a string or a list of content blocks; of the latter
  only the number of blocks is kept. *)
Inductive Content :=
| CText (s : string)
| CBlocks (n : nat).

(** Arguments of a tool call, kept in serialised form. *)
Abbreviation Args := string (only parsing).

Record ToolCall := mkToolCall {
tc_name : string;
tc_args : Args;
tc_id : option string;
}.

Record UsageMetadata := mkUsageMetadata {
input_tokens : option Z;
output_tokens : option Z;
}.

Record AIMessage := mkAIMessage {
ai_content : Content;
tool_calls : option (list ToolCall);
usage_metadata : option UsageMetadata;
}.

Inductive BaseMessage :=
| SystemMessage (text : string)
| HumanMessage (text : string)
| AIMsg (m : AIMessage)
| ToolMessage (text : string) (tool_call_id : string).

Definition msg_content (m : BaseMessage) : Content :=
match m with
| SystemMessage s | HumanMessage s | ToolMessage s _ => CText s
| AIMsg a => ai_content a
end.

(** [content.toString()]: an array of blocks prints as its elements joined
  by commas, each block being a plain object. *)
Definition content_toString (c : Content) : string :=
match c with
| CText s => s
| CBlocks n => String.concat "," (repeat "[object Object]" n)
end.

(** [GraphState], the state of [AgentStateAnnotation]. *)
Record GraphState := mkGraphState {
ticketId : string;
ticketTitle : string;
ticketDescription : string;
messages : list BaseMessage;
gs_structuredPlan : option StructuredPlan;
currentStepIndex : nat;
phase : AgentPhase;
gs_tokenUsage : TokenUsage;
waitingFor : option WaitingFor;
humanInput : option HumanInput;
planApprovalRequired : bool;
error : option string;
}.

(** [Partial<GraphState>]: what a node returns and what [invoke] is given.
  An absent key is [None]; a key present with value [null] is [Some None]. *)
Record GraphUpdate := mkGraphUpdate {
up_ticketId : option string;
up_ticketTitle : option string;
up_ticketDescription : option string;
up_messages : option (list BaseMessage);
up_structuredPlan : option (option StructuredPlan);
up_currentStepIndex : option nat;
up_phase : option AgentPhase;
up_tokenUsage : option TokenUsage;
up_waitingFor : option (option WaitingFor);
up_humanInput : option (option HumanInput);
up_planApprovalRequired : option bool;
up_error : option (option string);
}.

Definition emptyUpdate : GraphUpdate :=
mkGraphUpdate None None None None None None None None None None None None.


(** Builders for [GraphUpdate]: [with_f v u] is [{ ...u, f: v }]. *)
Definition with_ticketId (v : string) (u : GraphUpdate) : GraphUpdate :=
mkGraphUpdate (Some v) (up_ticketTitle u) (up_ticketDescription u) (up_messages u) (up_structuredPlan u) (up_currentStepIndex u) (up_phase u) (up_tokenUsage u) (up_waitingFor u) (up_humanInput u) (up_planApprovalRequired u) (up_error u).
Definition with_ticketTitle (v : string) (u : GraphUpdate) : GraphUpdate :=
mkGraphUpdate (up_ticketId u) (Some v) (up_ticketDescription u) (up_messages u) (up_structuredPlan u) (up_currentStepIndex u) (up_phase u) (up_tokenUsage u) (up_waitingFor u) (up_humanInput u) (up_planApprovalRequired u) (up_error u).
Definition with_ticketDescription (v : string) (u : GraphUpdate) : GraphUpdate :=
mkGraphUpdate (up_ticketId u) (up_ticketTitle u) (Some v) (up_messages u) (up_structuredPlan u) (up_currentStepIndex u) (up_phase u) (up_tokenUsage u) (up_waitingFor u) (up_humanInput u) (up_planApprovalRequired u) (up_error u).
Definition with_messages (v : list BaseMessage) (u : GraphUpdate) : GraphUpdate :=
mkGraphUpdate (up_ticketId u) (up_ticketTitle u) (up_ticketDescription u) (Some v) (up_structuredPlan u) (up_currentStepIndex u) (up_phase u) (up_tokenUsage u) (up_waitingFor u) (up_humanInput u) (up_planApprovalRequired u) (up_error u).
Definition with_structuredPlan (v : option StructuredPlan) (u : GraphUpdate) : GraphUpdate :=
mkGraphUpdate (up_ticketId u) (up_ticketTitle u) (up_ticketDescription u) (up_messages u) (Some v) (up_currentStepIndex u) (up_phase u) (up_tokenUsage u) (up_waitingFor u) (up_humanInput u) (up_planApprovalRequired u) (up_error u).
Definition with_currentStepIndex (v : nat) (u : GraphUpdate) : GraphUpdate :=
mkGraphUpdate (up_ticketId u) (up_ticketTitle u) (up_ticketDescription u) (up_messages u) (up_structuredPlan u) (Some v) (up_phase u) (up_tokenUsage u) (up_waitingFor u) (up_humanInput u) (up_planApprovalRequired u) (up_error u).
Definition with_phase (v : AgentPhase) (u : GraphUpdate) : GraphUpdate :=
mkGraphUpdate (up_ticketId u) (up_ticketTitle u) (up_ticketDescription u) (up_messages u) (up_structuredPlan u) (up_currentStepIndex u) (Some v) (up_tokenUsage u) (up_waitingFor u) (up_humanInput u) (up_planApprovalRequired u) (up_error u).
Definition with_tokenUsage (v : TokenUsage) (u : GraphUpdate) : GraphUpdate :=
mkGraphUpdate (up_ticketId u) (up_ticketTitle u) (up_ticketDescription u) (up_messages u) (up_structuredPlan u) (up_currentStepIndex u) (up_phase u) (Some v) (up_waitingFor u) (up_humanInput u) (up_planApprovalRequired u) (up_error u).
Definition with_waitingFor (v : option WaitingFor) (u : GraphUpdate) : GraphUpdate :=
mkGraphUpdate (up_ticketId u) (up_ticketTitle u) (up_ticketDescription u) (up_messages u) (up_structuredPlan u) (up_currentStepIndex u) (up_phase u) (up_tokenUsage u) (Some v) (up_humanInput u) (up_planApprovalRequired u) (up_error u).
Definition with_humanInput (v : option HumanInput) (u : GraphUpdate) : GraphUpdate :=
mkGraphUpdate (up_ticketId u) (up_ticketTitle u) (up_ticketDescription u) (up_messages u) (up_structuredPlan u) (up_currentStepIndex u) (up_phase u) (up_tokenUsage u) (up_waitingFor u) (Some v) (up_planApprovalRequired u) (up_error u).
Definition with_planApprovalRequired (v : bool) (u : GraphUpdate) : GraphUpdate :=
mkGraphUpdate (up_ticketId u) (up_ticketTitle u) (up_ticketDescription u) (up_messages u) (up_structuredPlan u) (up_currentStepIndex u) (up_phase u) (up_tokenUsage u) (up_waitingFor u) (up_humanInput u) (Some v) (up_error u).
Definition with_error (v : option string) (u : GraphUpdate) : GraphUpdate :=
mkGraphUpdate (up_ticketId u) (up_ticketTitle u) (up_ticketDescription u) (up_messages u) (up_structuredPlan u) (up_currentStepIndex u) (up_phase u) (up_tokenUsage u) (up_waitingFor u) (up_humanInput u) (up_planApprovalRequired u) (Some v).

(** ** Errors ([tickets.errors.ts], [agent.errors.ts]) and runtime exceptions *)

Inductive Exn :=
| TicketNotFoundError (id : string)
| InvalidStatusTransitionError (from to : TicketStatus)
| NoPendingApprovalError (id : string)
| NoPendingQuestionError (id : string)
| NoPlanError (id : string)
| MaxTurnsExceededError (turns : Z)
| AgentNotRunningError (id : string)
| SyntaxError
| TypeError
| GraphRecursionError
| Error (msg : string).

Inductive Result (A : Type) :=
| Ok (a : A)
| Throw (e : Exn).
Arguments Ok {A} a.
Arguments Throw {A} e.

(** ** The world the services act on *)

(** One recorded call of the reasoning engine: whether tools were bound, and
  the messages sent. *)
Record LLMCall := mkLLMCall {
withTools : bool;
sent : list BaseMessage;
}.

(** LangGraph's [Checkpoint]: its id and the channel values it snapshots. *)
Record Checkpoint := mkCheckpoint {
cp_id : string;
channel_values : GraphState;
}.

(** [CheckpointMetadata] and the value of a pending write, in serialised form. *)
Abbreviation CheckpointMetadata := string (only parsing).

(** A stored pending write: [[taskId, channel, value]]. *)
Record StoredWrite := mkStoredWrite {
sw_taskId : string;
sw_channel : string;
sw_value : string;
}.

(** A row of table [agent_states] (migration 002); its primary key is
  [(ticket_id, checkpoint_id)]. The JSON text columns are kept parsed. *)
Record CheckpointRow := mkCheckpointRow {
row_ticket_id : string;
row_checkpoint_id : string;
parent_checkpoint_id : option string;
row_state : Checkpoint;
row_metadata : option CheckpointMetadata;
pending_writes : option (list StoredWrite);
created_at : Timestamp;
updated_at : option Timestamp;
}.

(** The nodes of the agent graph. *)
Inductive Node := n_planning | n_execute | n_review | n_wait.

Record World := mkWorld {
tickets : gmap string Ticket;          (* table [tickets] *)
agent_states : list CheckpointRow;     (* table [agent_states] *)
clockReads : nat;                      (* number of [new Date()] so far *)
uuidReads : nat;                       (* number of [crypto.randomUUID()] so far *)
llmCalls : list LLMCall;               (* log of reasoning-engine calls *)
toolCalls : list (string * Args);      (* log of tool invocations *)
nodeRuns : list Node;                  (* log of graph nodes run *)
}.

Definition M (A : Type) : Type := World → Result A * World.

Definition ret {A} (a : A) : M A := fun w => (Ok a, w).
Definition throw {A} (e : Exn) : M A := fun w => (Throw e, w).
Definition bind {A B} (m : M A) (k : A → M B) : M B :=
fun w => match m w with
         | (Ok a, w') => k a w'
         | (Throw e, w') => (Throw e, w')
         end.
(** [try { m } catch (e) { h e }] *)
Definition try_catch {A} (m : M A) (h : Exn → M A) : M A :=
fun w => match m w with
         | (Ok a, w') => (Ok a, w')
         | (Throw e, w') => h e w'
         end.
Definition get_world : M World := fun w => (Ok w, w).
Definition modify (f : World → World) : M unit := fun w => (Ok tt, f w).

Declare Scope m_scope.
Delimit Scope m_scope with M.
Bind Scope m_scope with M.
Notation "'let*' x := m 'in' k" := (bind m (fun x => k))
(at level 10, x name, m at level 100, k at level 200) : m_scope.
Notation "'let*' '_' := m 'in' k" := (bind m (fun _ => k))
(at level 10, m at level 100, k at level 200) : m_scope.
Local Open Scope m_scope.

(** A tool: its name and what invoking it does. [inl msg] is a thrown error
  with that message, [inr s] the (stringified) result. A tool may act on
  the world, as the human-interaction tools do on the ticket. *)
Record Tool := mkTool {
tool_name : string;
tool_invoke : Args → World → (string + string) * World;
}.

(** What the code takes from its environment. The oracles are indexed by the
  number of earlier reads, so that successive reads may differ. *)
Class Env := mkEnv {
clock : nat → Timestamp;
randomUUID : nat → string;
llm_invoke : nat → list BaseMessage → Result AIMessage;
llmWithTools_invoke : nat → list BaseMessage → Result AIMessage;
tools : list Tool;
recursionLimit : nat;
ensureWorktree : string → Result unit;
cfg_planApprovalRequired : bool;
}.

(** Record updates. *)
Definition set_title (v : string) (x : Ticket) : Ticket :=
mkTicket (ticket_id x) v (description x) (status x) (priority x) (createdAt x) (updatedAt x) (resolvedAt x) (structuredPlan x) (currentTurn x) (maxTurns x) (tokenUsage x) (pendingApproval x) (pendingQuestion x) (workingBranch x) (commits x).
Definition set_description (v : string) (x : Ticket) : Ticket :=
mkTicket (ticket_id x) (title x) v (status x) (priority x) (createdAt x) (updatedAt x) (resolvedAt x) (structuredPlan x) (currentTurn x) (maxTurns x) (tokenUsage x) (pendingApproval x) (pendingQuestion x) (workingBranch x) (commits x).
Definition set_status (v : TicketStatus) (x : Ticket) : Ticket :=
mkTicket (ticket_id x) (title x) (description x) v (priority x) (createdAt x) (updatedAt x) (resolvedAt x) (structuredPlan x) (currentTurn x) (maxTurns x) (tokenUsage x) (pendingApproval x) (pendingQuestion x) (workingBranch x) (commits x).
Definition set_priority (v : TicketPriority) (x : Ticket) : Ticket :=
mkTicket (ticket_id x) (title x) (description x) (status x) v (createdAt x) (updatedAt x) (resolvedAt x) (structuredPlan x) (currentTurn x) (maxTurns x) (tokenUsage x) (pendingApproval x) (pendingQuestion x) (workingBranch x) (commits x).
Definition set_updatedAt (v : Timestamp) (x : Ticket) : Ticket :=
mkTicket (ticket_id x) (title x) (description x) (status x) (priority x) (createdAt x) v (resolvedAt x) (structuredPlan x) (currentTurn x) (maxTurns x) (tokenUsage x) (pendingApproval x) (pendingQuestion x) (workingBranch x) (commits x).
Definition set_resolvedAt (v : option Timestamp) (x : Ticket) : Ticket :=
mkTicket (ticket_id x) (title x) (description x) (status x) (priority x) (createdAt x) (updatedAt x) v (structuredPlan x) (currentTurn x) (maxTurns x) (tokenUsage x) (pendingApproval x) (pendingQuestion x) (workingBranch x) (commits x).
Definition set_structuredPlan (v : option StructuredPlan) (x : Ticket) : Ticket :=
mkTicket (ticket_id x) (title x) (description x) (status x) (priority x) (createdAt x) (updatedAt x) (resolvedAt x) v (currentTurn x) (maxTurns x) (tokenUsage x) (pendingApproval x) (pendingQuestion x) (workingBranch x) (commits x).
Definition set_currentTurn (v : Z) (x : Ticket) : Ticket :=
mkTicket (ticket_id x) (title x) (description x) (status x) (priority x) (createdAt x) (updatedAt x) (resolvedAt x) (structuredPlan x) v (maxTurns x) (tokenUsage x) (pendingApproval x) (pendingQuestion x) (workingBranch x) (commits x).
Definition set_maxTurns (v : Z) (x : Ticket) : Ticket :=
mkTicket (ticket_id x) (title x) (description x) (status x) (priority x) (createdAt x) (updatedAt x) (resolvedAt x) (structuredPlan x) (currentTurn x) v (tokenUsage x) (pendingApproval x) (pendingQuestion x) (workingBranch x) (commits x).
Definition set_tokenUsage (v : TokenUsage) (x : Ticket) : Ticket :=
mkTicket (ticket_id x) (title x) (description x) (status x) (priority x) (createdAt x) (updatedAt x) (resolvedAt x) (structuredPlan x) (currentTurn x) (maxTurns x) v (pendingApproval x) (pendingQuestion x) (workingBranch x) (commits x).
Definition set_pendingApproval (v : option PendingApproval) (x : Ticket) : Ticket :=
mkTicket (ticket_id x) (title x) (description x) (status x) (priority x) (createdAt x) (updatedAt x) (resolvedAt x) (structuredPlan x) (currentTurn x) (maxTurns x) (tokenUsage x) v (pendingQuestion x) (workingBranch x) (commits x).
Definition set_pendingQuestion (v : option PendingQuestion) (x : Ticket) : Ticket :=
mkTicket (ticket_id x) (title x) (description x) (status x) (priority x) (createdAt x) (updatedAt x) (resolvedAt x) (structuredPlan x) (currentTurn x) (maxTurns x) (tokenUsage x) (pendingApproval x) v (workingBranch x) (commits x).
Definition set_workingBranch (v : option string) (x : Ticket) : Ticket :=
mkTicket (ticket_id x) (title x) (description x) (status x) (priority x) (createdAt x) (updatedAt x) (resolvedAt x) (structuredPlan x) (currentTurn x) (maxTurns x) (tokenUsage x) (pendingApproval x) (pendingQuestion x) v (commits x).
Definition set_commits (v : list CommitInfo) (x : Ticket) : Ticket :=
mkTicket (ticket_id x) (title x) (description x) (status x) (priority x) (createdAt x) (updatedAt x) (resolvedAt x) (structuredPlan x) (currentTurn x) (maxTurns x) (tokenUsage x) (pendingApproval x) (pendingQuestion x) (workingBranch x) v.
Definition set_tickets (v : gmap string Ticket) (x : World) : World :=
mkWorld v (agent_states x) (clockReads x) (uuidReads x) (llmCalls x) (toolCalls x) (nodeRuns x).
Definition set_agent_states (v : list CheckpointRow) (x : World) : World :=
mkWorld (tickets x) v (clockReads x) (uuidReads x) (llmCalls x) (toolCalls x) (nodeRuns x).
Definition set_clockReads (v : nat) (x : World) : World :=
mkWorld (tickets x) (agent_states x) v (uuidReads x) (llmCalls x) (toolCalls x) (nodeRuns x).
Definition set_uuidReads (v : nat) (x : World) : World :=
mkWorld (tickets x) (agent_states x) (clockReads x) v (llmCalls x) (toolCalls x) (nodeRuns x).
Definition set_llmCalls (v : list LLMCall) (x : World) : World :=
mkWorld (tickets x) (agent_states x) (clockReads x) (uuidReads x) v (toolCalls x) (nodeRuns x).
Definition set_toolCalls (v : list (string * Args)) (x : World) : World :=
mkWorld (tickets x) (agent_states x) (clockReads x) (uuidReads x) (llmCalls x) v (nodeRuns x).
Definition set_nodeRuns (v : list Node) (x : World) : World :=
mkWorld (tickets x) (agent_states x) (clockReads x) (uuidReads x) (llmCalls x) (toolCalls x) v.

(** [new Date().toISOString()] *)
Definition now `{Env} : M Timestamp :=
fun w => (Ok (clock (clockReads w)), set_clockReads (S (clockReads w)) w).

(** [crypto.randomUUID()] *)
Definition newUUID `{Env} : M string :=
fun w => (Ok (randomUUID (uuidReads w)), set_uuidReads (S (uuidReads w)) w).

(** ** Audit service ([src/audit/audit.ts])

  The audit log is a separate append-only table that no function here
  reads, and the world does not hold it. What the model keeps of an insert
  into it is its foreign key: [audit_logs.ticket_id] references
  [tickets.id] (migration 001), so the database refuses an entry for a
  ticket that is not stored. *)
Module Audit.
Section Service.
Context `{Env}.

(** [AuditService.log]: the time and a fresh id are read, then the row is
    inserted. *)
Definition log (ticketId : string) : M unit :=
  let* _ := now in
  let* _ := newUUID in
  let* w := get_world in
  if bool_decide (is_Some (tickets w !! ticketId))
  then ret tt
  else throw (Error "FOREIGN KEY constraint failed").

(** [#audit] of a service: [if (this.#auditService) await
    this.#auditService.log(...)]. *)
Definition audit (auditService : bool) (ticketId : string) : M unit :=
  if auditService then log ticketId else ret tt.
End Service.
End Audit.

(** ** Ticket service ([src/tickets/tickets.ts])

  The service is modelled without an audit service set, with one
  exception: [delete] logs for the ticket it has just removed, and there
  the audit service is a parameter. Every other operation logs for a ticket
  it has just read or written, for which the insert goes through. *)
Module Tickets.
Section Service.
Context `{Env}.

Definition VALID_TRANSITIONS (s : TicketStatus) : list TicketStatus :=
  match s with
  | st_draft => [st_pending_approval; st_cancelled]
  | st_pending_approval => [st_approved; st_draft; st_cancelled]
  | st_approved => [st_in_progress; st_cancelled]
  | st_in_progress =>
      [st_awaiting_input; st_paused; st_completed; st_failed; st_cancelled]
  | st_awaiting_input => [st_in_progress; st_paused; st_cancelled]
  | st_paused => [st_in_progress; st_cancelled]
  | st_completed => []
  | st_failed => [st_draft]
  | st_cancelled => [st_draft]
  end.

(** [Array.prototype.includes] on statuses. *)
Definition status_includes (l : list TicketStatus) (x : TicketStatus) : bool :=
  bool_decide (x ∈ l).

Definition get (id : string) : M Ticket :=
  fun w => match tickets w !! id with
           | Some t => (Ok t, w)
           | None => (Throw (TicketNotFoundError id), w)
           end.

(** [db('tickets').where('id', id).update(updates)] *)
Definition update_where_id (id : string) (updates : Ticket → Ticket) : M unit :=
  modify (fun w => set_tickets (alter updates id (tickets w)) w).

(** [UpdateTicketInput]: the fields [update] may change. *)
Record UpdateTicketInput := mkUpdateTicketInput {
  in_title : option string;
  in_description : option string;
  in_priority : option TicketPriority;
  in_maxTurns : option Z;
}.

Definition update (id : string) (input : UpdateTicketInput) : M Ticket :=
  let* existing := get id in
  let* t := now in
  let* _ := update_where_id id (fun r =>
    let r := set_updatedAt t r in
    let r := match in_title input with Some v => set_title v r | None => r end in
    let r := match in_description input with
             | Some v => set_description v r
             | None => r
             end in
    let r := match in_priority input with Some v => set_priority v r | None => r end in
    match in_maxTurns input with Some v => set_maxTurns v r | None => r end) in
  get id.

Definition is_resolved (s : TicketStatus) : bool :=
  match s with
  | st_completed | st_failed | st_cancelled => true
  | _ => false
  end.

Definition transitionStatus (id : string) (newStatus : TicketStatus) : M Ticket :=
  let* ticket := get id in
  if negb (status_includes (VALID_TRANSITIONS (status ticket)) newStatus)
  then throw (InvalidStatusTransitionError (status ticket) newStatus)
  else
    let* updated_at := now in
    let* resolved_at :=
      (if is_resolved newStatus
       then (let* t := now in ret (Some t))
       else ret None) in
    let* _ := update_where_id id (fun t =>
      let t := set_updatedAt updated_at (set_status newStatus t) in
      match resolved_at with
      | Some r => set_resolvedAt (Some r) t
      | None => t
      end) in
    get id.

Definition approvePlan (id : string) (by_ : string) : M Ticket :=
  let* ticket := get id in
  match structuredPlan ticket with
  | None => throw (NoPlanError id)
  | Some plan =>
      let* t := now in
      let approvedPlan :=
        mkStructuredPlan (version plan) (summary plan) (steps plan)
                         (generatedAt plan) (Some t) (Some by_) in
      let* _ := update_where_id id (fun r =>
        set_updatedAt t (set_status st_approved
          (set_structuredPlan (Some approvedPlan) r))) in
      get id
  end.

Definition requestApproval (id : string) (approval : PendingApproval) : M Ticket :=
  let* _ := get id in
  let* t := now in
  let* _ := update_where_id id (fun r =>
    set_updatedAt t (set_status st_awaiting_input
      (set_pendingApproval (Some approval) r))) in
  get id.

Definition grantApproval (id : string) : M Ticket :=
  let* ticket := get id in
  match pendingApproval ticket with
  | None => throw (NoPendingApprovalError id)
  | Some _ =>
      let* t := now in
      let* _ := update_where_id id (fun r =>
        set_updatedAt t (set_status st_in_progress (set_pendingApproval None r))) in
      get id
  end.

Definition denyApproval (id : string) : M Ticket :=
  let* ticket := get id in
  match pendingApproval ticket with
  | None => throw (NoPendingApprovalError id)
  | Some _ =>
      let* t := now in
      let* _ := update_where_id id (fun r =>
        set_updatedAt t (set_status st_in_progress (set_pendingApproval None r))) in
      get id
  end.

Definition askQuestion (id : string) (question : PendingQuestion) : M Ticket :=
  let* _ := get id in
  let* t := now in
  let* _ := update_where_id id (fun r =>
    set_updatedAt t (set_status st_awaiting_input
      (set_pendingQuestion (Some question) r))) in
  get id.

Definition answerQuestion (id : string) (answer : string) : M Ticket :=
  let* ticket := get id in
  match pendingQuestion ticket with
  | None => throw (NoPendingQuestionError id)
  | Some _ =>
      let* t := now in
      let* _ := update_where_id id (fun r =>
        set_updatedAt t (set_status st_in_progress (set_pendingQuestion None r))) in
      get id
  end.

Definition addUsage (a b : TokenUsage) : TokenUsage :=
  mkTokenUsage (inputTokens a + inputTokens b)
               (outputTokens a + outputTokens b)
               (totalTokens a + totalTokens b).

Definition incrementTurn (id : string) (usage : option TokenUsage) : M Ticket :=
  let* ticket := get id in
  let newTokenUsage :=
    match usage with
    | Some u => addUsage (tokenUsage ticket) u
    | None => tokenUsage ticket
    end in
  let* t := now in
  let* _ := update_where_id id (fun r =>
    set_updatedAt t (set_tokenUsage newTokenUsage
      (set_currentTurn (currentTurn ticket + 1) r))) in
  get id.

Definition addCommit (id : string) (commit : CommitInfo) : M Ticket :=
  let* ticket := get id in
  let* t := now in
  let* _ := update_where_id id (fun r =>
    set_updatedAt t (set_commits (commits ticket ++ [commit])%list r)) in
  get id.

Definition setWorkingBranch (id : string) (branch : string) : M Ticket :=
  let* _ := get id in
  let* t := now in
  let* _ := update_where_id id (fun r =>
    set_updatedAt t (set_workingBranch (Some branch) r)) in
  get id.

Definition setStructuredPlan (id : string) (plan : StructuredPlan) : M Ticket :=
  let* _ := get id in
  let* t := now in
  let* _ := update_where_id id (fun r =>
    set_updatedAt t (set_structuredPlan (Some plan) r)) in
  get id.

(** [{ ...step, ...update }] *)
Definition mergeStep (step : PlanStep) (u : PlanStepUpdate) : PlanStep :=
  mkPlanStep
    (default (step_id step) (u_id u))
    (default (step_index step) (u_index u))
    (default (step_title step) (u_title u))
    (default (step_description step) (u_description u))
    (default (step_status step) (u_status u))
    (default (startedAt step) (u_startedAt u))
    (default (completedAt step) (u_completedAt u))
    (default (output step) (u_output u))
    (default (step_error step) (u_error u))
    (default (retryCount step) (u_retryCount u))
    (default (maxRetries step) (u_maxRetries u)).

(** [steps.map((step, idx) => idx === stepIndex ? {...step, ...update} : step)];
    [stepIndex] is any number the caller passes. *)
Definition updateSteps (l : list PlanStep) (stepIndex : Z) (u : PlanStepUpdate)
  : list PlanStep :=
  imap (fun idx step =>
          if bool_decide (Z.of_nat idx = stepIndex) then mergeStep step u else step) l.

Definition set_steps (l : list PlanStep) (p : StructuredPlan) : StructuredPlan :=
  mkStructuredPlan (version p) (summary p) l (generatedAt p) (approvedAt p)
                   (approvedBy p).

Definition updatePlanStep (id : string) (stepIndex : Z) (u : PlanStepUpdate)
  : M Ticket :=
  let* ticket := get id in
  match structuredPlan ticket with
  | None => throw (NoPlanError id)
  | Some plan =>
      let updatedPlan := set_steps (updateSteps (steps plan) stepIndex u) plan in
      let* t := now in
      let* _ := update_where_id id (fun r =>
        set_updatedAt t (set_structuredPlan (Some updatedPlan) r)) in
      get id
  end.

Definition getCurrentStep (id : string) : M (option PlanStep) :=
  let* ticket := get id in
  match structuredPlan ticket with
  | None => ret None
  | Some plan =>
      ret (List.find (fun step => bool_decide (step_status step = step_in_progress))
                     (steps plan))
  end.

(** [CreateTicketInput] *)
Record CreateTicketInput := mkCreateTicketInput {
  new_title : string;
  new_description : string;
  new_priority : option TicketPriority;
  new_maxTurns : option Z;
}.

(** [create]; [defaultMaxTurns] is the argument of the constructor. The
    column [id] is the primary key of the table, so the insert of an [id]
    that is stored already fails; the error is the database driver's. *)
Definition create (defaultMaxTurns : Z) (input : CreateTicketInput) : M Ticket :=
  let* t := now in
  let* id := newUUID in
  let row :=
    mkTicket id (new_title input) (new_description input) st_draft
             (default pr_medium (new_priority input)) t t None None 0
             (default defaultMaxTurns (new_maxTurns input))
             (mkTokenUsage 0 0 0) None None None [] in
  let* w := get_world in
  match tickets w !! id with
  | Some _ => throw (Error "insert into tickets: the id is stored already")
  | None =>
      let* _ := modify (fun w => set_tickets (<[id := row]> (tickets w)) w) in
      ret row
  end.

(** [delete]: the rows of [audit_logs] of the ticket (a table the world
    does not hold), the rows of [agent_states] of the ticket, the ticket,
    and then an audit entry for the ticket that is gone. [auditService]
    tells whether an audit service is set, as [main.ts] and the standalone
    client do. *)
Definition delete (auditService : bool) (id : string) : M unit :=
  let* existing := get id in
  let* _ := modify (fun w => set_agent_states
    (filter (fun r => row_ticket_id r ≠ id) (agent_states w)) w) in
  let* _ := modify (fun w => set_tickets (base.delete id (tickets w)) w) in
  Audit.audit auditService id.
End Service.
End Tickets.

(** ** Checkpoint store ([src/agent/agent.checkpointer.ts]) *)
Module Checkpointer.
Section Store.
Context `{Env}.

(** [config.configurable], reduced to the two keys the store reads. *)
Record RunnableConfig := mkConfig {
  thread_id : option string;
  checkpoint_id : option string;
}.

Record CheckpointTuple := mkTuple {
  t_config : RunnableConfig;
  t_checkpoint : Checkpoint;
  t_metadata : option CheckpointMetadata;
  t_parentConfig : option RunnableConfig;
  t_pendingWrites : option (list StoredWrite);
}.

(** Truthiness of a [string | undefined]: the empty string is falsy. *)
Definition truthy (o : option string) : bool :=
  match o with
  | Some s => negb (String.eqb s EmptyString)
  | None => false
  end.

Definition has_key (tid cid : string) (r : CheckpointRow) : bool :=
  String.eqb (row_ticket_id r) tid && String.eqb (row_checkpoint_id r) cid.

(** [orderBy('created_at', 'desc').first()]: a row with the greatest
    [created_at]. SQL leaves the order among equal keys open; here the
    earliest stored of them is taken. *)
Fixpoint newest (rows : list CheckpointRow) : option CheckpointRow :=
  match rows with
  | [] => None
  | r :: rest =>
      match newest rest with
      | Some r' => if (created_at r <? created_at r')%nat then Some r' else Some r
      | None => Some r
      end
  end.

(** The [state] column holds the [JSON.stringify] text of the checkpoint
    and the tuple carries its [JSON.parse]; the model keeps the checkpoint
    itself in the row and hands it out as stored. The two agree on the
    checkpoints that survive JSON ([survives_json] below). *)
Definition getTuple (config : RunnableConfig) : M (option CheckpointTuple) :=
  match thread_id config with
  | Some threadId =>
      if negb (truthy (Some threadId)) then ret None else
      let* w := get_world in
      let query := filter (fun r => row_ticket_id r = threadId) (agent_states w) in
      let query :=
        match checkpoint_id config with
        | Some checkpointId =>
            if truthy (Some checkpointId)
            then filter (fun r => row_checkpoint_id r = checkpointId) query
            else query
        | None => query
        end in
      match newest query with
      | None => ret None
      | Some row =>
          let checkpoint := row_state row in
          let configWithId := mkConfig (Some threadId) (Some (cp_id checkpoint)) in
          let parentConfig :=
            if truthy (parent_checkpoint_id row)
            then Some (mkConfig (Some threadId) (parent_checkpoint_id row))
            else None in
          ret (Some (mkTuple configWithId checkpoint (row_metadata row)
                             parentConfig (pending_writes row)))
      end
  | None => ret None
  end.

(** [.insert(row).onConflict(['ticket_id', 'checkpoint_id']).merge(m)]:
    a row with the same key is merged in place, otherwise the new row is
    stored. *)
Fixpoint insert_onConflict_merge (new : CheckpointRow)
    (merge : CheckpointRow → CheckpointRow) (rows : list CheckpointRow)
  : list CheckpointRow :=
  match rows with
  | [] => [new]
  | r :: rest =>
      if has_key (row_ticket_id new) (row_checkpoint_id new) r
      then merge r :: rest
      else r :: insert_onConflict_merge new merge rest
  end.

(** The row [put] inserts, and what it merges into a row that is there. *)
Definition new_row (threadId : string) (parentCheckpointId : option string)
    (checkpoint : Checkpoint) (metadata : CheckpointMetadata) (t : Timestamp)
  : CheckpointRow :=
  mkCheckpointRow threadId (cp_id checkpoint) parentCheckpointId checkpoint
                  (Some metadata) None t None.

Definition merge_row (checkpoint : Checkpoint) (metadata : CheckpointMetadata)
    (t : Timestamp) (r : CheckpointRow) : CheckpointRow :=
  mkCheckpointRow (row_ticket_id r) (row_checkpoint_id r) (parent_checkpoint_id r)
                  checkpoint (Some metadata) (pending_writes r) (created_at r)
                  (Some t).

(** [agent_states.ticket_id] references [tickets.id] (migration 002, with
    [ON DELETE CASCADE]): the database refuses a row whose ticket is not
    stored, and the error leaves [put]. A row of a thread without a ticket
    cannot be in the table, so no case is made of an upsert onto one. *)
Definition put (config : RunnableConfig) (checkpoint : Checkpoint)
    (metadata : CheckpointMetadata) : M RunnableConfig :=
  if negb (truthy (thread_id config))
  then throw (Error "thread_id is required in config.configurable")
  else
    let threadId := default EmptyString (thread_id config) in
    let parentCheckpointId := checkpoint_id config in
    let* t := now in
    let* w := get_world in
    if bool_decide (is_Some (tickets w !! threadId))
    then
      let* _ := modify (fun w => set_agent_states
        (insert_onConflict_merge
           (new_row threadId parentCheckpointId checkpoint metadata t)
           (merge_row checkpoint metadata t)
           (agent_states w)) w) in
      ret (mkConfig (Some threadId) (Some (cp_id checkpoint)))
    else throw (Error "FOREIGN KEY constraint failed").

(** A [PendingWrite] is a pair [[channel, value]]. *)
Definition putWrites (config : RunnableConfig) (writes : list (string * string))
    (taskId : string) : M unit :=
  if negb (truthy (thread_id config)) || negb (truthy (checkpoint_id config))
  then throw (Error "thread_id and checkpoint_id are required in config.configurable")
  else
    let threadId := default EmptyString (thread_id config) in
    let checkpointId := default EmptyString (checkpoint_id config) in
    let* w := get_world in
    match List.find (has_key threadId checkpointId) (agent_states w) with
    | None => throw (Error ("Checkpoint not found: " ++ checkpointId))
    | Some existingRow =>
        let existingWrites := default [] (pending_writes existingRow) in
        let newWrites := map (fun w => mkStoredWrite taskId (fst w) (snd w)) writes in
        let allWrites := (existingWrites ++ newWrites)%list in
        let* t := now in
        modify (fun w => set_agent_states
          (map (fun r =>
                  if has_key threadId checkpointId r
                  then mkCheckpointRow (row_ticket_id r) (row_checkpoint_id r)
                         (parent_checkpoint_id r) (row_state r) (row_metadata r)
                         (Some allWrites) (created_at r) (Some t)
                  else r)
               (agent_states w)) w)
    end.

Definition deleteThread (threadId : string) : M unit :=
  modify (fun w => set_agent_states
    (filter (fun r => row_ticket_id r ≠ threadId) (agent_states w)) w).
End Store.
End Checkpointer.

(** [DatabaseCheckpointer.list], in a module of its own since its name is
    that of the list type. *)
Module CheckpointerList.
Import Checkpointer.

(** [CheckpointListOptions], reduced to the keys the store reads: [limit],
    a count, and [before.configurable.checkpoint_id]. *)
Record ListOptions := mkListOptions {
  opt_limit : option nat;
  opt_before : option string;
}.

(** [orderBy('created_at', 'desc')]: SQL leaves the order among equal keys
    open; as in [newest], rows with equal keys keep the order in which they
    are stored. *)
Fixpoint insert_desc (r : CheckpointRow) (l : list CheckpointRow)
  : list CheckpointRow :=
  match l with
  | [] => [r]
  | x :: rest =>
      if (created_at r <? created_at x)%nat
      then x :: insert_desc r rest
      else r :: l
  end.

Definition sort_desc (l : list CheckpointRow) : list CheckpointRow :=
  foldr insert_desc [] l.

(** The tuples the generator yields, in order. [options] is optional and
    so are its keys; a [limit] of 0 is falsy and limits nothing. *)
Definition list (config : RunnableConfig) (options : option ListOptions)
  : M (Datatypes.list CheckpointTuple) :=
  match thread_id config with
  | Some threadId =>
      if negb (truthy (Some threadId)) then ret [] else
      let* w := get_world in
      let query := filter (fun r => row_ticket_id r = threadId) (agent_states w) in
      let limit :=
        match options with
        | Some o =>
            match opt_limit o with
            | Some n => if (n =? 0)%nat then None else Some n
            | None => None
            end
        | None => None
        end in
      let query :=
        match options with
        | Some o =>
            match opt_before o with
            | Some beforeId =>
                if truthy (Some beforeId) then
                  match List.find (has_key threadId beforeId) (agent_states w) with
                  | Some beforeRow =>
                      filter (fun r => (created_at r < created_at beforeRow)%nat)
                             query
                  | None => query
                  end
                else query
            | None => query
            end
        | None => query
        end in
      let rows :=
        match limit with
        | Some n => take n (sort_desc query)
        | None => sort_desc query
        end in
      ret (map (fun row =>
                  let checkpoint := row_state row in
                  mkTuple (mkConfig (Some threadId) (Some (cp_id checkpoint)))
                          checkpoint (row_metadata row)
                          (if truthy (parent_checkpoint_id row)
                           then Some (mkConfig (Some threadId)
                                               (parent_checkpoint_id row))
                           else None)
                          (pending_writes row))
               rows)
  | None => ret []
  end.
End CheckpointerList.

(** ** [JSON.parse] and the plan-extraction pattern *)
Module Json.
Local Open Scope char_scope.

Definition is_ws (c : ascii) : bool :=
  match c with
  | " " | "009" | "010" | "013" => true
  | _ => false
  end.

Fixpoint skip_ws (s : string) : string :=
  match s with
  | String c rest => if is_ws c then skip_ws rest else s
  | EmptyString => s
  end.

Definition is_digit (c : ascii) : bool :=
  (48 <=? nat_of_ascii c)%nat && (nat_of_ascii c <=? 57)%nat.

Definition hex_val (c : ascii) : option nat :=
  let n := nat_of_ascii c in
  if is_digit c then Some (n - 48)%nat
  else if (97 <=? n)%nat && (n <=? 102)%nat then Some (n - 87)%nat
  else if (65 <=? n)%nat && (n <=? 70)%nat then Some (n - 55)%nat
  else None.

(** A UTF-16 code unit from a [\uXXXX] escape, written out in UTF-8. *)
Definition utf8 (n : nat) : string :=
  if (n <? 128)%nat then String (ascii_of_nat n) EmptyString
  else if (n <? 2048)%nat then
    String (ascii_of_nat (192 + n / 64))
      (String (ascii_of_nat (128 + n mod 64)) EmptyString)
  else
    String (ascii_of_nat (224 + n / 4096))
      (String (ascii_of_nat (128 + (n / 64) mod 64))
         (String (ascii_of_nat (128 + n mod 64)) EmptyString)).

(** The characters of a string literal after its opening quote. *)
Fixpoint parse_chars (s : string) : option (string * string) :=
  match s with
  | EmptyString => None
  | String "034" rest => Some (EmptyString, rest)
  | String "\" (String e rest) =>
      let simple (c : ascii) :=
        match parse_chars rest with
        | Some (body, r) => Some (String c body, r)
        | None => None
        end in
      match e with
      | "034" => simple "034"
      | "\" => simple "\"
      | "/" => simple "/"
      | "b" => simple "008"
      | "f" => simple "012"
      | "n" => simple "010"
      | "r" => simple "013"
      | "t" => simple "009"
      | "u" =>
          match rest with
          | String h1 (String h2 (String h3 (String h4 rest'))) =>
              match hex_val h1, hex_val h2, hex_val h3, hex_val h4,
                    parse_chars rest' with
              | Some a, Some b, Some c, Some d, Some (body, r) =>
                  Some (String.append (utf8 (((a * 16 + b) * 16 + c) * 16 + d)) body, r)
              | _, _, _, _, _ => None
              end
          | _ => None
          end
      | _ => None
      end
  | String c rest =>
      if (nat_of_ascii c <? 32)%nat then None
      else match parse_chars rest with
           | Some (body, r) => Some (String c body, r)
           | None => None
           end
  end.

Fixpoint take_digits (s : string) : string * string :=
  match s with
  | String c rest =>
      if is_digit c
      then let '(d, r) := take_digits rest in (String c d, r)
      else (EmptyString, s)
  | EmptyString => (EmptyString, s)
  end.

(** A JSON number: optional minus, integer part without leading zeros,
    optional fraction, optional exponent. The lexeme is returned. *)
Definition parse_number (s : string) : option (string * string) :=
  let '(sign, s1) :=
    match s with
    | String "-" r => (String "-" EmptyString, r)
    | _ => (EmptyString, s)
    end in
  let int_part :=
    match s1 with
    | String "0" r => Some (String "0" EmptyString, r)
    | _ => match take_digits s1 with
           | (EmptyString, _) => None
           | (d, r) => Some (d, r)
           end
    end in
  match int_part with
  | None => None
  | Some (i, s2) =>
      let frac :=
        match s2 with
        | String "." r =>
            match take_digits r with
            | (EmptyString, _) => None
            | (d, r') => Some (String "." d, r')
            end
        | _ => Some (EmptyString, s2)
        end in
      match frac with
      | None => None
      | Some (f, s3) =>
          let exp :=
            match s3 with
            | String e r =>
                if Ascii.eqb e "e" || Ascii.eqb e "E" then
                  let '(sg, r1) :=
                    match r with
                    | String "+" r' => (String "+" EmptyString, r')
                    | String "-" r' => (String "-" EmptyString, r')
                    | _ => (EmptyString, r)
                    end in
                  match take_digits r1 with
                  | (EmptyString, _) => None
                  | (d, r2) => Some (String e (String.append sg d), r2)
                  end
                else Some (EmptyString, s3)
            | EmptyString => Some (EmptyString, s3)
            end in
          match exp with
          | None => None
          | Some (x, s4) =>
              Some (String.append sign (String.append i (String.append f x)), s4)
          end
      end
  end.

Definition expect (lit : string) (v : json) (s : string) : option (json * string) :=
  if String.prefix lit s
  then Some (v, String.substring (String.length lit)
                                 (String.length s - String.length lit) s)
  else None.

Fixpoint parse_value (fuel : nat) (s : string) : option (json * string) :=
  match fuel with
  | O => None
  | S f =>
      match skip_ws s with
      | String "{" rest =>
          match skip_ws rest with
          | String "}" rest' => Some (JObj [], rest')
          | _ => match parse_members f rest with
                 | Some (ms, r) => Some (JObj ms, r)
                 | None => None
                 end
          end
      | String "[" rest =>
          match skip_ws rest with
          | String "]" rest' => Some (JArr [], rest')
          | _ => match parse_elements f rest with
                 | Some (vs, r) => Some (JArr vs, r)
                 | None => None
                 end
          end
      | String "034" rest =>
          match parse_chars rest with
          | Some (str, r) => Some (JStr str, r)
          | None => None
          end
      | String "t" _ as s' => expect "true" (JBool true) s'
      | String "f" _ as s' => expect "false" (JBool false) s'
      | String "n" _ as s' => expect "null" JNull s'
      | s' => match parse_number s' with
              | Some (lexeme, r) => Some (JNum lexeme, r)
              | None => None
              end
      end
  end
with parse_members (fuel : nat) (s : string)
  : option (list (string * json) * string) :=
  match fuel with
  | O => None
  | S f =>
      match skip_ws s with
      | String "034" rest =>
          match parse_chars rest with
          | Some (key, r1) =>
              match skip_ws r1 with
              | String ":" r2 =>
                  match parse_value f r2 with
                  | Some (v, r3) =>
                      match skip_ws r3 with
                      | String "," r4 =>
                          match parse_members f r4 with
                          | Some (ms, r) => Some ((key, v) :: ms, r)
                          | None => None
                          end
                      | String "}" r4 => Some ([(key, v)], r4)
                      | _ => None
                      end
                  | None => None
                  end
              | _ => None
              end
          | None => None
          end
      | _ => None
      end
  end
with parse_elements (fuel : nat) (s : string) : option (list json * string) :=
  match fuel with
  | O => None
  | S f =>
      match parse_value f s with
      | Some (v, r1) =>
          match skip_ws r1 with
          | String "," r2 =>
              match parse_elements f r2 with
              | Some (vs, r) => Some (v :: vs, r)
              | None => None
              end
          | String "]" r2 => Some ([v], r2)
          | _ => None
          end
      | None => None
      end
  end.

(** [JSON.parse(text)]; [None] stands for the thrown [SyntaxError]. Every
    recursive call consumes a character, so the fuel given suffices. *)
Definition JSON_parse (text : string) : option json :=
  match parse_value (2 * String.length text + 2) text with
  | Some (v, rest) =>
      match skip_ws rest with
      | EmptyString => Some v
      | _ => None
      end
  | None => None
  end.

(** Reading property [key] of a value: [null] has no properties (a
    [TypeError]); an object yields its last member of that name; none of
    the keys read by the planner exists on other values. *)
Fixpoint lookup_last (key : string) (ms : list (string * json)) : JsVal :=
  match ms with
  | [] => None
  | (k, v) :: rest =>
      match lookup_last key rest with
      | Some v' => Some v'
      | None => if String.eqb k key then Some v else None
      end
  end.

Definition get_prop (v : json) (key : string) : Result JsVal :=
  match v with
  | JNull => Throw TypeError
  | JObj ms => Ok (lookup_last key ms)
  | _ => Ok None
  end.

(** [text.match(/\{[\s\S]*\}/)]: from the first opening brace to the last
    closing brace after it. *)
Fixpoint from_first_open (s : string) : option string :=
  match s with
  | EmptyString => None
  | String "{" _ => Some s
  | String _ rest => from_first_open rest
  end.

Fixpoint upto_last_close (s : string) : option string :=
  match s with
  | EmptyString => None
  | String c rest =>
      match upto_last_close rest with
      | Some p => Some (String c p)
      | None => if Ascii.eqb c "}" then Some (String c EmptyString) else None
      end
  end.

Definition jsonMatch (text : string) : option string :=
  match from_first_open text with
  | Some (String open rest) =>
      match upto_last_close rest with
      | Some p => Some (String open p)
      | None => None
      end
  | _ => None
  end.
End Json.

Definition dq : string := String "034"%char EmptyString.


(** ** The agent graph ([src/agent/agent.graph.ts]) *)
Module Graph.
Section Nodes.
Context `{Env}.

Definition SYSTEM_PROMPT : string := "You are Aura, an autonomous AI agent that helps with software engineering tasks.

You work on tickets that describe changes to be made to a codebase. Your job is to:
1. Understand the ticket requirements
2. Create a plan to implement the changes
3. Execute the plan using the available tools
4. Verify your changes work correctly

Available tools allow you to:
- Read, write, and delete files in the git worktree
- Check git status and create commits
- Run validation checks on files
- Ask questions or request approval from the user

Guidelines:
- Always read files before modifying them to understand the existing code
- Make small, incremental changes and verify each step
- Write clear commit messages explaining what changed
- Request approval for destructive operations
- Ask clarifying questions if requirements are unclear

When creating a plan, break it down into clear, actionable steps.
When executing, work through steps one at a time, verifying each before moving on.".

(** How a template literal prints a value. A number prints as its lexeme,
    which is what JavaScript prints for integers written canonically. *)
Fixpoint json_toString (v : json) : string :=
  match v with
  | JNull => "null"
  | JBool true => "true"
  | JBool false => "false"
  | JNum lexeme => lexeme
  | JStr s => s
  | JArr items =>
      String.concat ","
        (map (fun i => match i with JNull => EmptyString | _ => json_toString i end) items)
  | JObj _ => "[object Object]"
  end.

Definition js_toString (v : JsVal) : string :=
  match v with
  | Some j => json_toString j
  | None => "undefined"
  end.

Definition planPrompt (state : GraphState) : string :=
  "You are working on ticket: " ++ dq
    ++ ticketTitle state
    ++ dq ++ "

Description:
"
    ++ ticketDescription state
    ++ "

Create a detailed plan to accomplish this task. You MUST respond with valid JSON in this exact format:
{
  " ++ dq ++ "summary" ++ dq ++ ": " ++ dq ++ "Brief summary of the approach" ++ dq ++ ",
  " ++ dq ++ "steps" ++ dq ++ ": [
    {
      " ++ dq ++ "title" ++ dq ++ ": " ++ dq ++ "Short title for step 1" ++ dq ++ ",
      " ++ dq ++ "description" ++ dq ++ ": " ++ dq ++ "Detailed description of what this step accomplishes" ++ dq ++ "
    },
    {
      " ++ dq ++ "title" ++ dq ++ ": " ++ dq ++ "Short title for step 2" ++ dq ++ ",
      " ++ dq ++ "description" ++ dq ++ ": " ++ dq ++ "Detailed description of what this step accomplishes" ++ dq ++ "
    }
  ]
}

Requirements:
- Each step should be specific and actionable
- Steps should be in logical order
- Provide 3-10 steps depending on task complexity
- Respond ONLY with the JSON, no other text".

Definition executePrompt (state : GraphState) (plan : StructuredPlan)
    (currentStep : PlanStep) : string :=
  let completedSteps :=
    String.concat "
"
      (map (fun s => pretty (step_index s + 1)%nat ++ ". " ++ js_toString (step_title s)
                     ++ ": " ++ default "Done" (output s))
           (filter (fun s => step_status s = step_completed) (steps plan))) in
  let planSummary :=
    String.concat "
"
      (map (fun s => pretty (step_index s + 1)%nat ++ ". " ++ js_toString (step_title s))
           (steps plan)) in
  "Continue executing the plan. You are on Step "
    ++ pretty (currentStepIndex state + 1)%nat
    ++ " of "
    ++ pretty (length (steps plan))
    ++ ".

Current step: "
    ++ js_toString (step_title currentStep)
    ++ "
"
    ++ js_toString (step_description currentStep)
    ++ "

Full plan:
"
    ++ planSummary
    ++ "

"
    ++ (if negb (String.eqb completedSteps EmptyString) then "Completed steps:
" ++ completedSteps else EmptyString)
    ++ "

Execute the current step using the available tools. After completing the step, briefly describe what you did.".

Definition reviewPrompt (plan : StructuredPlan) : string :=
  let completedSteps :=
    String.concat "
"
      (map (fun s => pretty (step_index s + 1)%nat ++ ". " ++ js_toString (step_title s)
                     ++ ": " ++ default "Done" (output s))
           (steps plan)) in
  "All steps have been completed. Review the work done:

Plan Summary: "
    ++ js_toString (summary plan)
    ++ "

Completed steps:
"
    ++ completedSteps
    ++ "

Verify that the task has been completed successfully. If everything looks good, respond with " ++ dq ++ "TASK_COMPLETE" ++ dq ++ ".
If there are issues or more work needed, explain what needs to be done.".

(** The channel reducers: [messages] concatenates, [tokenUsage] adds,
    every other channel takes the update. *)
Definition applyUpdate (s : GraphState) (u : GraphUpdate) : GraphState :=
  mkGraphState
    (default (ticketId s) (up_ticketId u))
    (default (ticketTitle s) (up_ticketTitle u))
    (default (ticketDescription s) (up_ticketDescription u))
    (match up_messages u with
     | Some update => (messages s ++ update)%list
     | None => messages s
     end)
    (default (gs_structuredPlan s) (up_structuredPlan u))
    (default (currentStepIndex s) (up_currentStepIndex u))
    (default (phase s) (up_phase u))
    (match up_tokenUsage u with
     | Some update => Tickets.addUsage (gs_tokenUsage s) update
     | None => gs_tokenUsage s
     end)
    (default (waitingFor s) (up_waitingFor u))
    (default (humanInput s) (up_humanInput u))
    (default (planApprovalRequired s) (up_planApprovalRequired u))
    (default (error s) (up_error u)).

(** The channel defaults. The three ticket channels have none and start
    out undefined; they are written as empty strings. *)
Definition defaultState : GraphState :=
  mkGraphState EmptyString EmptyString EmptyString [] None 0%nat ph_planning
               (mkTokenUsage 0 0 0) None None true None.

Definition extractTokenUsage (response : AIMessage) : TokenUsage :=
  match usage_metadata response with
  | None => mkTokenUsage 0 0 0
  | Some usage =>
      mkTokenUsage (default 0 (input_tokens usage))
                   (default 0 (output_tokens usage))
                   (default 0 (input_tokens usage) + default 0 (output_tokens usage))
  end.

(** [llm.invoke(messages)] and [llmWithTools.invoke(messages)], recorded. *)
Definition invoke_llm (bound : bool) (msgs : list BaseMessage) : M AIMessage :=
  fun w =>
    ((if bound then llmWithTools_invoke else llm_invoke) (length (llmCalls w)) msgs,
     set_llmCalls (llmCalls w ++ [mkLLMCall bound msgs])%list w).

(** [typeof response.content === 'string' ? response.content : fallback] *)
Definition content_or (fallback : string) (response : AIMessage) : string :=
  match ai_content response with
  | CText s => s
  | CBlocks _ => fallback
  end.

(** [parsed.steps.map((step, index) => ({ id: crypto.randomUUID(), ... }))] *)
Fixpoint buildSteps (index : nat) (items : list json) : M (list PlanStep) :=
  match items with
  | [] => ret []
  | step :: rest =>
      let* id := newUUID in
      match Json.get_prop step "title", Json.get_prop step "description" with
      | Ok title, Ok description =>
          let* tl := buildSteps (S index) rest in
          ret (mkPlanStep id index title description step_pending
                          None None None None 0 3 :: tl)
      | _, _ => throw TypeError
      end
  end.

Definition createPlanNode (ticketService : bool) (state : GraphState)
  : M GraphUpdate :=
  let messages := [SystemMessage SYSTEM_PROMPT; HumanMessage (planPrompt state)] in
  let* response := invoke_llm false messages in
  let tokenUsage := extractTokenUsage response in
  let planContent := content_or EmptyString response in
  match Json.jsonMatch planContent with
  | None =>
      ret (with_messages [HumanMessage (planPrompt state); AIMsg response]
          (with_error (Some "Failed to parse plan: No valid JSON found in response")
          (with_phase ph_completed
          (with_tokenUsage tokenUsage emptyUpdate))))
  | Some matched =>
      match Json.JSON_parse matched with
      | None => throw SyntaxError
      | Some parsed =>
          let* t := now in
          match Json.get_prop parsed "steps" with
          | Ok (Some (JArr items)) =>
              let* steps := buildSteps 0 items in
              match Json.get_prop parsed "summary" with
              | Ok summary =>
                  let structuredPlan :=
                    mkStructuredPlan 1 summary steps t None None in
                  let* _ :=
                    (if ticketService
                     then let* _ := Tickets.setStructuredPlan (ticketId state)
                                                              structuredPlan in ret tt
                     else ret tt) in
                  ret (with_messages [HumanMessage (planPrompt state); AIMsg response]
                      (with_structuredPlan (Some structuredPlan)
                      (with_currentStepIndex 0%nat
                      (with_phase (if planApprovalRequired state
                                   then ph_waiting else ph_executing)
                      (with_waitingFor (if planApprovalRequired state
                                        then Some wf_approval else None)
                      (with_tokenUsage tokenUsage emptyUpdate))))))
              | Throw e => throw e
              end
          | _ => throw TypeError
          end
      end
  end.

Definition find_tool (name : string) : option Tool :=
  List.find (fun t => String.eqb (tool_name t) name) tools.

(** [tool.invoke(args)] inside [try]/[catch], recorded. The three logs of
    the world are instrumentation of this model that a tool cannot write,
    so they are carried over from before the call. *)
Definition invoke_tool (tool : Tool) (args : Args) : M (string + string) :=
  fun w =>
    let '(r, w') := tool_invoke tool args w in
    (Ok r,
     set_toolCalls (toolCalls w ++ [(tool_name tool, args)])%list
       (set_llmCalls (llmCalls w) (set_nodeRuns (nodeRuns w) w'))).

(** The [ToolMessage] pushed for one outcome of a tool. *)
Definition toolMessage (toolCall : ToolCall) (r : string + string) : BaseMessage :=
  ToolMessage (match r with
               | inr result => result
               | inl msg => "Error: " ++ msg
               end)
              (default EmptyString (tc_id toolCall)).

(** [for (const toolCall of response.tool_calls) { ... }]: the messages
    pushed, in order. A call naming no known tool pushes nothing. *)
Fixpoint runToolCalls (calls : list ToolCall) : M (list BaseMessage) :=
  match calls with
  | [] => ret []
  | toolCall :: rest =>
      let* pushed :=
        match find_tool (tc_name toolCall) with
        | Some tool =>
            let* r := invoke_tool tool (tc_args toolCall) in
            ret [toolMessage toolCall r]
        | None => ret []
        end in
      let* more := runToolCalls rest in
      ret (pushed ++ more)%list
  end.

Definition stepUpdate_in_progress (t : Timestamp) : PlanStepUpdate :=
  mkPlanStepUpdate None None None None (Some step_in_progress) (Some (Some t))
                   None None None None None.

Definition stepUpdate_completed (t : Timestamp) (stepOutput : string)
  : PlanStepUpdate :=
  mkPlanStepUpdate None None None None (Some step_completed) None
                   (Some (Some t)) (Some (Some stepOutput)) None None None.

(** The execution prompt, pushed unless the last message already holds one. *)
Definition freshPrompt (state : GraphState) (plan : StructuredPlan)
    (currentStep : PlanStep) : list BaseMessage :=
  let lastContent :=
    match last (messages state) with
    | Some lastMessage => content_toString (msg_content lastMessage)
    | None => EmptyString
    end in
  if bool_decide (length (messages state) = 0%nat)
     || negb (includes lastContent "Continue executing")
  then [HumanMessage (executePrompt state plan currentStep)]
  else [].

(** The messages the execute node sends. *)
Definition executeMessages (state : GraphState) (plan : StructuredPlan)
    (currentStep : PlanStep) : list BaseMessage :=
  (SystemMessage SYSTEM_PROMPT :: messages state
     ++ freshPrompt state plan currentStep)%list.

(** The tool calls that name a tool of the tool set. *)
Definition known_calls (calls : list ToolCall) : list ToolCall :=
  filter (fun c => is_Some (find_tool (tc_name c))) calls.

(** [m] is the message the tool loop pushes for call [c]: the outcome of
    invoking the tool that [c] names, in some world. *)
Definition pushed_for (c : ToolCall) (m : BaseMessage) : Prop :=
  ∃ tool w0,
    find_tool (tc_name c) = Some tool
    ∧ m = toolMessage c (fst (tool_invoke tool (tc_args c) w0)).

(** [tool_run calls w pushed w']: what the tool loop does on [calls] from
    the world [w], read off [tool.invoke] itself. The calls are taken in
    the order given; a call that names a tool of the tool set invokes it on
    the world the calls before it have left, and pushes one message with its
    result or its caught error; a call that names none is passed over. Each
    invocation is logged; a tool cannot write the logs of the world. *)
Inductive tool_run : list ToolCall → World → list BaseMessage → World → Prop :=
| tool_run_nil (w : World) : tool_run [] w [] w
| tool_run_known (c : ToolCall) (rest : list ToolCall) (tool : Tool)
    (r : string + string) (w w1 w' : World) (pushed : list BaseMessage) :
    find_tool (tc_name c) = Some tool →
    tool_invoke tool (tc_args c) w = (r, w1) →
    tool_run rest
      (set_toolCalls (toolCalls w ++ [(tool_name tool, tc_args c)])%list
         (set_llmCalls (llmCalls w) (set_nodeRuns (nodeRuns w) w1)))
      pushed w' →
    tool_run (c :: rest) w (toolMessage c r :: pushed) w'
| tool_run_unknown (c : ToolCall) (rest : list ToolCall) (w w' : World)
    (pushed : list BaseMessage) :
    find_tool (tc_name c) = None →
    tool_run rest w pushed w' →
    tool_run (c :: rest) w pushed w'.

(** The world in which the execute node starts its tool loop, for a ticket
    [t] stored with plan [dbPlan]: the stored step at the current index
    marked [in_progress] when the step of the state is pending, and the call
    of the reasoning engine logged. *)
Definition before_tools (state : GraphState) (plan : StructuredPlan)
    (currentStep : PlanStep) (t : Ticket) (dbPlan : StructuredPlan)
    (w : World) : World :=
  let w1 :=
    if bool_decide (step_status currentStep = step_pending)
    then
      let plan' :=
        Tickets.set_steps (Tickets.updateSteps (steps dbPlan)
                     (Z.of_nat (currentStepIndex state))
                     (stepUpdate_in_progress (clock (clockReads w)))) dbPlan in
      let t' := set_updatedAt (clock (S (clockReads w)))
                  (set_structuredPlan (Some plan') t) in
      set_tickets (<[ticketId state := t']> (tickets w))
                  (set_clockReads (S (S (clockReads w))) w)
    else w in
  set_llmCalls
    (llmCalls w1 ++ [mkLLMCall true (executeMessages state plan currentStep)])%list
    w1.

Definition createExecuteNode (ticketService : bool) (state : GraphState)
  : M GraphUpdate :=
  match gs_structuredPlan state with
  | None =>
      ret (with_error (Some "No structured plan available")
          (with_phase ph_completed emptyUpdate))
  | Some plan =>
      match steps plan !! currentStepIndex state with
      | None =>
          ret (with_error (Some ("Invalid step index: "
                                 ++ pretty (currentStepIndex state)))
              (with_phase ph_completed emptyUpdate))
      | Some currentStep =>
          let newMessages := freshPrompt state plan currentStep in
          let* _ :=
            (if ticketService
                && bool_decide (step_status currentStep = step_pending)
             then let* t := now in
                  let* _ := Tickets.updatePlanStep (ticketId state)
                              (Z.of_nat (currentStepIndex state))
                              (stepUpdate_in_progress t) in ret tt
             else ret tt) in
          let allMessages :=
            (SystemMessage SYSTEM_PROMPT :: messages state ++ newMessages)%list in
          let* response := invoke_llm true allMessages in
          let tokenUsage := extractTokenUsage response in
          let newMessages := (newMessages ++ [AIMsg response])%list in
          match tool_calls response with
          | Some (toolCall :: rest) =>
              let* pushed := runToolCalls (toolCall :: rest) in
              ret (with_messages (newMessages ++ pushed)%list
                  (with_tokenUsage tokenUsage
                  (with_phase ph_executing emptyUpdate)))
          | _ =>
              let stepOutput := content_or "Step completed" response in
              let* _ :=
                (if ticketService
                 then let* t := now in
                      let* _ := Tickets.updatePlanStep (ticketId state)
                                  (Z.of_nat (currentStepIndex state))
                                  (stepUpdate_completed t stepOutput) in ret tt
                 else ret tt) in
              ret (with_messages newMessages
                  (with_currentStepIndex (currentStepIndex state + 1)%nat
                  (with_tokenUsage tokenUsage
                  (with_phase ph_reviewing emptyUpdate))))
          end
      end
  end.

(** The messages the planning node and the review node send. *)
Definition planMessages (state : GraphState) : list BaseMessage :=
  [SystemMessage SYSTEM_PROMPT; HumanMessage (planPrompt state)].

Definition reviewMessages (state : GraphState) (plan : StructuredPlan)
  : list BaseMessage :=
  (SystemMessage SYSTEM_PROMPT :: messages state
     ++ [HumanMessage (reviewPrompt plan)])%list.

Definition createReviewNode (state : GraphState) : M GraphUpdate :=
  match gs_structuredPlan state with
  | None =>
      ret (with_error (Some "No structured plan available for review")
          (with_phase ph_completed emptyUpdate))
  | Some plan =>
      let totalSteps := length (steps plan) in
      if bool_decide (totalSteps ≤ currentStepIndex state)%nat then
        let messages :=
          (SystemMessage SYSTEM_PROMPT :: messages state
             ++ [HumanMessage (reviewPrompt plan)])%list in
        let* response := invoke_llm false messages in
        let tokenUsage := extractTokenUsage response in
        let content := content_or EmptyString response in
        if includes content "TASK_COMPLETE" then
          ret (with_messages [HumanMessage (reviewPrompt plan); AIMsg response]
              (with_phase ph_completed
              (with_tokenUsage tokenUsage emptyUpdate)))
        else
          ret (with_messages [HumanMessage (reviewPrompt plan); AIMsg response]
              (with_phase ph_executing
              (with_tokenUsage tokenUsage emptyUpdate)))
      else
        ret (with_phase ph_executing emptyUpdate)
  end.

Definition createWaitNode (state : GraphState) : M GraphUpdate :=
  match humanInput state with
  | Some input =>
      match hi_type input with
      | hi_approval =>
          if default false (approved input) then
            ret (with_phase ph_executing
                (with_waitingFor None
                (with_humanInput None
                (with_messages
                   [HumanMessage "Plan approved. Proceeding with execution."]
                   emptyUpdate))))
          else
            ret (with_phase ph_completed
                (with_waitingFor None
                (with_humanInput None
                (with_error (Some "Plan was rejected by user") emptyUpdate))))
      | hi_answer =>
          ret (with_phase ph_executing
              (with_waitingFor None
              (with_humanInput None
              (with_messages
                 [HumanMessage ("User response: "
                                ++ default "undefined" (answer input))]
                 emptyUpdate))))
      end
  | None => ret emptyUpdate
  end.

(** Conditional edges. A route names the next node; [None] is [END]
    (the edge maps send ['end'] to [END] and every other name to the node
    of that name). *)
Definition routeAfterPlan (state : GraphState) : option Node :=
  if bool_decide (phase state = ph_completed) then None
  else if bool_decide (phase state = ph_waiting) then Some n_wait
  else Some n_execute.

Definition routeAfterExecute (state : GraphState) : option Node :=
  if bool_decide (phase state = ph_waiting) then Some n_wait
  else if bool_decide (phase state = ph_reviewing) then Some n_review
  else Some n_execute.

Definition routeAfterReview (state : GraphState) : option Node :=
  if bool_decide (phase state = ph_completed) then None
  else if bool_decide (phase state = ph_planning) then Some n_planning
  else Some n_execute.

Definition routeAfterWait (state : GraphState) : option Node :=
  if bool_decide (phase state = ph_completed) then None
  else if bool_decide (phase state = ph_executing) then Some n_execute
  else None.

Definition routeFromStart (state : GraphState) : Node :=
  match gs_structuredPlan state with
  | Some _ =>
      if bool_decide (phase state = ph_waiting) || bool_decide (is_Some (waitingFor state))
      then n_wait
      else if bool_decide (phase state = ph_executing)
              || bool_decide (phase state = ph_reviewing)
      then n_execute
      else n_planning
  | None => n_planning
  end.

(** The nodes of [createAgentGraph(llm, tools, ticketService?)];
    [ticketService] tells whether the optional service was passed. *)
Definition nodeFunction (ticketService : bool) (n : Node)
  : GraphState → M GraphUpdate :=
  match n with
  | n_planning => createPlanNode ticketService
  | n_execute => createExecuteNode ticketService
  | n_review => createReviewNode
  | n_wait => createWaitNode
  end.

Definition routeAfter (n : Node) : GraphState → option Node :=
  match n with
  | n_planning => routeAfterPlan
  | n_execute => routeAfterExecute
  | n_review => routeAfterReview
  | n_wait => routeAfterWait
  end.

(** *** The compiled graph

    [createAgentGraph(...).compile({ checkpointer })] is run by LangGraph,
    which is not part of the repository. Its contract as used here: an
    invocation on a thread starts from the latest checkpoint of the thread
    (or the channel defaults), applies the input through the reducers,
    enters at the [START] edge and runs one node per superstep; after
    every superstep the state is checkpointed under a fresh id whose
    parent is the previous checkpoint; more supersteps than the recursion
    limit raise [GraphRecursionError]. *)

Definition runNode (ticketService : bool) (n : Node) (state : GraphState)
  : M GraphUpdate :=
  let* _ := modify (fun w => set_nodeRuns (nodeRuns w ++ [n])%list w) in
  nodeFunction ticketService n state.

Definition saveCheckpoint (threadId : string) (parent : option string)
    (source : string) (state : GraphState) : M (option string) :=
  let* id := newUUID in
  let* config := Checkpointer.put (Checkpointer.mkConfig (Some threadId) parent)
                                  (mkCheckpoint id state) source in
  ret (Checkpointer.checkpoint_id config).

Fixpoint supersteps (ticketService : bool) (fuel : nat) (threadId : string)
    (parent : option string) (n : Node) (state : GraphState) : M GraphState :=
  match fuel with
  | O => throw GraphRecursionError
  | S fuel' =>
      let* update := runNode ticketService n state in
      let state' := applyUpdate state update in
      let* parent' := saveCheckpoint threadId parent "loop" state' in
      match routeAfter n state' with
      | None => ret state'
      | Some next => supersteps ticketService fuel' threadId parent' next state'
      end
  end.

(** [graph.invoke(input, { configurable: { thread_id } })] *)
Definition invoke (ticketService : bool) (input : GraphUpdate)
    (threadId : string) : M GraphState :=
  let* saved := Checkpointer.getTuple (Checkpointer.mkConfig (Some threadId) None) in
  let '(state0, parent) :=
    match saved with
    | Some tuple =>
        (channel_values (Checkpointer.t_checkpoint tuple),
         Checkpointer.checkpoint_id (Checkpointer.t_config tuple))
    | None => (defaultState, None)
    end in
  let state := applyUpdate state0 input in
  let* parent' := saveCheckpoint threadId parent "input" state in
  supersteps ticketService recursionLimit threadId parent'
             (routeFromStart state) state.

(** [graph.getState(config).values]; absent when the thread has no
    checkpoint. *)
Definition getState (threadId : string) : M (option GraphState) :=
  let* saved := Checkpointer.getTuple (Checkpointer.mkConfig (Some threadId) None) in
  ret (channel_values ∘ Checkpointer.t_checkpoint <$> saved).
End Nodes.
End Graph.

(** ** Agent service ([src/agent/agent.ts]) *)
Module Agent.
Section Service.
Context `{Env}.

(** [error] holds the exception whose message the source reports. *)
Record AgentRunResult := mkRunResult {
  r_ticketId : string;
  r_phase : AgentPhase;
  success : bool;
  r_error : option Exn;
  r_waitingFor : option WaitingFor;
}.

(** The graph of [#createGraph]: always built with the ticket service. *)
Definition graph_invoke (input : GraphUpdate) (threadId : string) : M GraphState :=
  Graph.invoke true input threadId.

Definition hasApprovedPlan (ticket : Ticket) : bool :=
  match structuredPlan ticket with
  | Some plan => bool_decide (is_Some (approvedAt plan))
  | None => false
  end.

(** The input [run] hands to the graph. *)
Definition initialState (ticketId : string) (ticket : Ticket) : GraphUpdate :=
  let base :=
    with_ticketId ticketId
      (with_ticketTitle (title ticket)
      (with_ticketDescription (description ticket)
      (with_planApprovalRequired cfg_planApprovalRequired emptyUpdate))) in
  if hasApprovedPlan ticket then
    with_structuredPlan (structuredPlan ticket)
      (with_phase ph_waiting
      (with_waitingFor (Some wf_approval)
      (with_humanInput (Some (mkHumanInput hi_approval (Some true) None)) base)))
  else base.

Definition failed_run (ticketId : string) (e : Exn) : AgentRunResult :=
  mkRunResult ticketId ph_completed false (Some e) None.

Definition run (ticketId : string) : M AgentRunResult :=
  let* ticket := Tickets.get ticketId in
  if bool_decide (maxTurns ticket ≤ currentTurn ticket)%Z
  then throw (MaxTurnsExceededError (maxTurns ticket))
  else
    match ensureWorktree ticketId with
    | Throw e => throw e
    | Ok _ =>
        let* _ :=
          (if bool_decide (status ticket = st_approved)
           then let* _ := Tickets.transitionStatus ticketId st_in_progress in ret tt
           else ret tt) in
        try_catch
          (let* result := graph_invoke (initialState ticketId ticket) ticketId in
           let* _ := Tickets.incrementTurn ticketId (Some (gs_tokenUsage result)) in
           let* _ :=
             (if bool_decide (phase result = ph_completed) then
                let* _ := Tickets.transitionStatus ticketId st_completed in ret tt
              else if bool_decide (phase result = ph_waiting) then
                match waitingFor result, gs_structuredPlan result with
                | Some wf_approval, Some plan =>
                    if bool_decide (approvedAt plan = None)
                    then let* _ := Tickets.transitionStatus ticketId
                                     st_pending_approval in ret tt
                    else let* _ := Tickets.transitionStatus ticketId
                                     st_awaiting_input in ret tt
                | _, _ =>
                    let* _ := Tickets.transitionStatus ticketId
                                st_awaiting_input in ret tt
                end
              else ret tt) in
           ret (mkRunResult ticketId (phase result)
                            (bool_decide (phase result = ph_completed))
                            None (waitingFor result)))
          (fun e => ret (failed_run ticketId e))
    end.

Definition resume (ticketId : string) (input : option HumanInput)
  : M AgentRunResult :=
  let* ticket := Tickets.get ticketId in
  if bool_decide (maxTurns ticket ≤ currentTurn ticket)%Z
  then throw (MaxTurnsExceededError (maxTurns ticket))
  else
    let* currentState := Graph.getState ticketId in
    match currentState with
    | None => throw (AgentNotRunningError ticketId)
    | Some _ =>
        let* _ :=
          match input with
          | Some i =>
              match hi_type i with
              | hi_approval =>
                  if default false (approved i)
                  then let* _ := Tickets.grantApproval ticketId in ret tt
                  else let* _ := Tickets.denyApproval ticketId in ret tt
              | hi_answer =>
                  match answer i with
                  | Some a =>
                      if negb (String.eqb a EmptyString)
                      then let* _ := Tickets.answerQuestion ticketId a in ret tt
                      else ret tt
                  | None => ret tt
                  end
              end
          | None => ret tt
          end in
        try_catch
          (let* result :=
             graph_invoke (match input with
                           | Some i => with_humanInput (Some i) emptyUpdate
                           | None => emptyUpdate
                           end) ticketId in
           let* _ := Tickets.incrementTurn ticketId (Some (gs_tokenUsage result)) in
           let* _ :=
             (if bool_decide (phase result = ph_completed) then
                let* _ := Tickets.transitionStatus ticketId st_completed in ret tt
              else if bool_decide (phase result = ph_waiting) then
                let* _ := Tickets.transitionStatus ticketId st_awaiting_input in ret tt
              else ret tt) in
           ret (mkRunResult ticketId (phase result)
                            (bool_decide (phase result = ph_completed))
                            None (waitingFor result)))
          (fun e => ret (failed_run ticketId e))
    end.

(** [cancel]: the audit entry is written after the [try], so an error of
    its insert leaves [cancel]. [auditService] tells whether the agent
    service was given an audit service. *)
Definition cancel (auditService : bool) (ticketId : string) : M unit :=
  let* _ := Checkpointer.deleteThread ticketId in
  let* _ :=
    try_catch
      (let* _ := Tickets.transitionStatus ticketId st_cancelled in ret tt)
      (fun _ => ret tt) in
  Audit.audit auditService ticketId.
End Service.
End Agent.

(** ** Definitions that follow the specification's words *)

(** The transition table as the specification words it. *)
Definition spec_allowed (from to : TicketStatus) : bool :=
match from, to with
| st_draft, (st_pending_approval | st_cancelled) => true
| st_pending_approval, (st_approved | st_draft | st_cancelled) => true
| st_approved, (st_in_progress | st_cancelled) => true
| st_in_progress,
  (st_awaiting_input | st_paused | st_completed | st_failed | st_cancelled) => true
| st_awaiting_input, (st_in_progress | st_paused | st_cancelled) => true
| st_paused, (st_in_progress | st_cancelled) => true
| st_completed, _ => false
| st_failed, st_draft => true
| st_cancelled, st_draft => true
| _, _ => false
end.

(** The step invariant of the data model: how many steps of a plan are
  [in_progress], and that there is at most one. *)
Definition count_in_progress (l : list PlanStep) : nat :=
length (filter (fun s => step_status s = step_in_progress) l).

Definition at_most_one_in_progress (l : list PlanStep) : Prop :=
(count_in_progress l ≤ 1)%nat.

(** Every [in_progress] step of the list sits at position [idx]. *)
Definition in_progress_only_at (idx : nat) (l : list PlanStep) : Prop :=
∀ j s, l !! j = Some s → step_status s = step_in_progress → j = idx.

(** The plan shape the specification requires of a planning response:
  strict JSON [{summary, steps: [{title, description}]}] with string
  fields. *)
Definition is_plan_shape (v : json) : bool :=
match v with
| JObj ms =>
    match Json.lookup_last "summary" ms, Json.lookup_last "steps" ms with
    | Some (JStr _), Some (JArr items) =>
        forallb (fun i =>
                   match i with
                   | JObj sm =>
                       match Json.lookup_last "title" sm,
                             Json.lookup_last "description" sm with
                       | Some (JStr _), Some (JStr _) => true
                       | _, _ => false
                       end
                   | _ => false
                   end) items
    | _, _ => false
    end
| _ => false
end.

Definition parses_as_plan (text : string) : bool :=
match Json.JSON_parse text with
| Some v => is_plan_shape v
| None => false
end.

(** ** Reasoning about monadic code *)

(** Every run of [m] relates the world before to the world after by [R],
    whether it returns or throws. *)
Definition preserves {A} (R : World → World → Prop) (m : M A) : Prop :=
  ∀ w, R w (snd (m w)).

(** Whatever [m] returns satisfies [Q]. *)
Definition returns {A} (Q : A → Prop) (m : M A) : Prop :=
  ∀ w a w', m w = (Ok a, w') → Q a.

(** The log of node runs is the same. *)
Definition same_nodeRuns (w w' : World) : Prop := nodeRuns w' = nodeRuns w.

(** The nodes run from [w] to [w'], in order. *)
Definition ran (trace : list Node) (w w' : World) : Prop :=
  nodeRuns w' = (nodeRuns w ++ trace)%list.

(** The shape of a run that resumes an approved plan: the wait node first,
    the execute node second, and the planning node nowhere. *)
Definition resumed_trace (trace : list Node) : Prop :=
  (n_planning ∉ trace)
  ∧ (∀ n, trace !! 0%nat = Some n → n = n_wait)
  ∧ (∀ n, trace !! 1%nat = Some n → n = n_execute).

(** From [w] to [w'], nodes ran in the shape of a resumed run. *)
Definition resumed (w w' : World) : Prop :=
  ∃ trace, ran trace w w' ∧ resumed_trace trace.

(** The state a resumption of an approved plan starts from. *)
Definition resuming (state : GraphState) : Prop :=
  phase state = ph_waiting
  ∧ humanInput state = Some (mkHumanInput hi_approval (Some true) None)
  ∧ is_Some (gs_structuredPlan state).

(** The primary key of a row of [agent_states], and the constraint that no
    two rows share it. *)
Definition row_key (r : CheckpointRow) : string * string :=
  (row_ticket_id r, row_checkpoint_id r).

Definition pk_unique (rows : list CheckpointRow) : Prop :=
  NoDup (row_key <$> rows).

(** ** Turn and token budgets *)

Definition usage_nonneg (u : TokenUsage) : Prop :=
  (0 ≤ inputTokens u ∧ 0 ≤ outputTokens u ∧ 0 ≤ totalTokens u)%Z.

Definition usage_le (a b : TokenUsage) : Prop :=
  (inputTokens a ≤ inputTokens b ∧ outputTokens a ≤ outputTokens b
   ∧ totalTokens a ≤ totalTokens b)%Z.

(** The reasoning engine never reports a negative token count. *)
Definition llm_usage_nonneg `{Env} : Prop :=
  ∀ n msgs response,
    llm_invoke n msgs = Ok response ∨ llmWithTools_invoke n msgs = Ok response →
    ∀ usage, usage_metadata response = Some usage →
             (∀ x, input_tokens usage = Some x → 0 ≤ x)%Z
             ∧ (∀ x, output_tokens usage = Some x → 0 ≤ x)%Z.

(** Every stored checkpoint holds a non-negative accumulated usage. *)
Definition checkpoints_nonneg (w : World) : Prop :=
  ∀ row, row ∈ agent_states w →
         usage_nonneg (gs_tokenUsage (channel_values (row_state row))).

(** The turn counter and token usage stored for a ticket. *)
Definition budget (id : string) (w : World) : option (Z * TokenUsage) :=
  (fun t => (currentTurn t, tokenUsage t)) <$> tickets w !! id.

(** From [w] to [w'] the budget of ticket [id] is untouched and the
    checkpoints stay non-negative. *)
Definition quiet (id : string) (w w' : World) : Prop :=
  budget id w' = budget id w
  ∧ (checkpoints_nonneg w → checkpoints_nonneg w').

(** The tools write neither a ticket's turn counter or token usage nor the
    checkpoint table (the tools of the repository ask questions, request
    approvals, and edit the work tree). *)
Definition tools_quiet `{Env} (id : string) : Prop :=
  ∀ tool, tool ∈ tools → ∀ args w, quiet id w (snd (tool_invoke tool args w)).

(** A call of the agent service on one ticket, and a sequence of them. *)
Inductive Call :=
  | call_run
  | call_resume (input : option HumanInput).

Definition exec_call `{Env} (id : string) (c : Call) (w : World) : World :=
  match c with
  | call_run => snd (Agent.run id w)
  | call_resume input => snd (Agent.resume id input w)
  end.

Definition exec_calls `{Env} (id : string) (calls : list Call) (w : World) : World :=
  fold_left (fun w c => exec_call id c w) calls w.

(** The budget of the ticket did not shrink from [w] to [w']. *)
Definition budget_le (id : string) (w w' : World) : Prop :=
  ∀ turn usage, budget id w = Some (turn, usage) →
    ∃ turn' usage', budget id w' = Some (turn', usage')
                    ∧ (turn ≤ turn')%Z ∧ usage_le usage usage'.

(** The usage an update adds, if any, is non-negative. *)
Definition update_nonneg (u : GraphUpdate) : Prop :=
  ∀ usage, up_tokenUsage u = Some usage → usage_nonneg usage.

Definition call_outcome `{Env} (id : string) (c : Call) (w : World)
  : Result Agent.AgentRunResult :=
  match c with
  | call_run => fst (Agent.run id w)
  | call_resume input => fst (Agent.resume id input w)
  end.

(** The writing operations of the ticket service on an existing ticket. *)
Inductive ServiceOp :=
  | op_update (input : Tickets.UpdateTicketInput)
  | op_transitionStatus (s : TicketStatus)
  | op_approvePlan (by_ : string)
  | op_requestApproval (a : PendingApproval)
  | op_grantApproval
  | op_denyApproval
  | op_askQuestion (q : PendingQuestion)
  | op_answerQuestion (a : string)
  | op_incrementTurn (usage : option TokenUsage)
  | op_addCommit (c : CommitInfo)
  | op_setWorkingBranch (b : string)
  | op_setStructuredPlan (p : StructuredPlan)
  | op_updatePlanStep (i : Z) (u : PlanStepUpdate).

Definition exec_op `{Env} (id : string) (op : ServiceOp) : M Ticket :=
  match op with
  | op_update input => Tickets.update id input
  | op_transitionStatus s => Tickets.transitionStatus id s
  | op_approvePlan by_ => Tickets.approvePlan id by_
  | op_requestApproval a => Tickets.requestApproval id a
  | op_grantApproval => Tickets.grantApproval id
  | op_denyApproval => Tickets.denyApproval id
  | op_askQuestion q => Tickets.askQuestion id q
  | op_answerQuestion a => Tickets.answerQuestion id a
  | op_incrementTurn usage => Tickets.incrementTurn id usage
  | op_addCommit c => Tickets.addCommit id c
  | op_setWorkingBranch b => Tickets.setWorkingBranch id b
  | op_setStructuredPlan p => Tickets.setStructuredPlan id p
  | op_updatePlanStep i u => Tickets.updatePlanStep id i u
  end.

(** The usage an operation adds, if it adds any, is non-negative. *)
Definition op_nonneg (op : ServiceOp) : Prop :=
  match op with
  | op_incrementTurn (Some usage) => usage_nonneg usage
  | _ => True
  end.

(** What a call leaves behind: the budget as it was, and then the call did
    not return a result free of error; or the turn counted once and a
    non-negative usage added. *)
Definition call_effect (id : string) (turn : Z) (usage : TokenUsage)
    (r : Result Agent.AgentRunResult) (w' : World) : Prop :=
  checkpoints_nonneg w'
  ∧ ((budget id w' = Some (turn, usage)
      ∧ ∀ res, r = Ok res → is_Some (Agent.r_error res))
     ∨ ∃ reported,
         usage_nonneg reported
         ∧ budget id w' = Some ((turn + 1)%Z, Tickets.addUsage usage reported)).

(** ** The stored plan during execution *)

(** In the stored plan of ticket [id], every [in_progress] step sits at
    position [idx]. *)
Definition plan_inv (id : string) (idx : nat) (w : World) : Prop :=
  ∀ t plan, tickets w !! id = Some t → structuredPlan t = Some plan →
            in_progress_only_at idx (steps plan).

(** The stored plan of ticket [id] has no [in_progress] step. *)
Definition none_in_progress (id : string) (w : World) : Prop :=
  ∀ t plan, tickets w !! id = Some t → structuredPlan t = Some plan →
            Forall (fun s => step_status s ≠ step_in_progress) (steps plan).

(** The stored plan of ticket [id] is the same in both worlds. *)
Definition same_plan (id : string) (w w' : World) : Prop :=
  (structuredPlan <$> tickets w' !! id) = (structuredPlan <$> tickets w !! id).

(** The tools do not write the plan of the ticket. *)
Definition tools_keep_plans `{Env} (id : string) : Prop :=
  ∀ tool, tool ∈ tools → ∀ args w, same_plan id w (snd (tool_invoke tool args w)).

(** From [w] to [w'] the stored plan of ticket [id] keeps its [in_progress]
    steps at position [idx]. *)
Definition keeps_plan_inv (id : string) (idx : nat) (w w' : World) : Prop :=
  plan_inv id idx w → plan_inv id idx w'.

(** ** Frames of the ticket service *)

(** From [w] to [w'] every ticket other than [id], and the checkpoint
    table, are as they were. *)
Definition only_ticket (id : string) (w w' : World) : Prop :=
  (∀ id', id' ≠ id → tickets w' !! id' = tickets w !! id')
  ∧ agent_states w' = agent_states w.

(** The operations that record work on a ticket, as opposed to those that
    move it through its life cycle. *)
Definition is_bookkeeping (op : ServiceOp) : bool :=
  match op with
  | op_update _ | op_incrementTurn _ | op_addCommit _ | op_setWorkingBranch _
  | op_setStructuredPlan _ | op_updatePlanStep _ _ => true
  | _ => false
  end.

(** The life-cycle fields of a ticket, and that those of ticket [id] are
    the same in two worlds. *)
Definition lifecycle (t : Ticket)
  : TicketStatus * option Timestamp * option PendingApproval * option PendingQuestion :=
  (status t, resolvedAt t, pendingApproval t, pendingQuestion t).

Definition same_lifecycle (id : string) (w w' : World) : Prop :=
  (lifecycle <$> tickets w' !! id) = (lifecycle <$> tickets w !! id).

(** A sequence of [addCommit] calls on one ticket. *)
Fixpoint addCommits `{Env} (id : string) (cs : list CommitInfo) : M unit :=
  match cs with
  | [] => ret tt
  | c :: rest => let* _ := Tickets.addCommit id c in addCommits id rest
  end.

(** The fields [update] may not change. *)
Definition fixed_fields (t : Ticket) :=
  (ticket_id t, status t, createdAt t, resolvedAt t, structuredPlan t,
   currentTurn t, tokenUsage t, pendingApproval t, pendingQuestion t,
   workingBranch t, commits t).

(** ** Values that survive the database *)

(** The database keeps a plan and a checkpoint as [JSON.stringify] text and
    reads them back with [JSON.parse]; the model keeps the values. The two
    agree on strings, booleans, [null], absent members, and arrays and
    objects of those. They differ on numbers taken from a response: a
    parsed number is a double, and [-0] is written [0], a lexeme beyond the
    range of doubles is written [null], while the model keeps the lexeme.
    They differ on messages as well: a message is an object of a class,
    written through its [toJSON] and read back as a plain object. *)
Fixpoint no_number (j : json) : bool :=
  match j with
  | JNum _ => false
  | JArr items => forallb no_number items
  | JObj members => forallb (fun m => no_number (snd m)) members
  | _ => true
  end.

Definition json_stable (v : option json) : Prop :=
  match v with
  | Some j => no_number j = true
  | None => True
  end.

(** The member [key] of a parsed value holds no number. *)
Definition stable_member (v : json) (key : string) : bool :=
  match Json.get_prop v key with
  | Ok (Some j) => no_number j
  | _ => true
  end.

(** Plans and checkpoints on which writing and reading back is the
    identity. *)
Definition plan_survives_json (p : StructuredPlan) : Prop :=
  json_stable (summary p)
  ∧ Forall (fun s => json_stable (step_title s) ∧ json_stable (step_description s))
           (steps p).

Definition survives_json (c : Checkpoint) : Prop :=
  messages (channel_values c) = []
  ∧ match gs_structuredPlan (channel_values c) with
    | Some p => plan_survives_json p
    | None => True
    end.

(** ** The shape of an invocation of the graph *)

(** The planning node at most once and first, the wait node at most once
    and before any other node but the planning node, then the execute and
    review nodes only. *)
Definition invocation_shape (trace : list Node) : Prop :=
  ∃ pre rest,
    trace = (pre ++ rest)%list
    ∧ (pre = [] ∨ pre = [n_planning] ∨ pre = [n_wait] ∨ pre = [n_planning; n_wait])
    ∧ Forall (fun n => n = n_execute ∨ n = n_review) rest.

(** From [w] to [w'] the reasoning engine was called at most [n] times. *)
Definition llm_grows (n : nat) (w w' : World) : Prop :=
  ∃ calls, llmCalls w' = (llmCalls w ++ calls)%list ∧ (length calls ≤ n)%nat.

(** The state has no step to execute: no plan, or a step index past the
    last step. *)
Definition no_current_step (state : GraphState) : Prop :=
  match gs_structuredPlan state with
  | None => True
  | Some plan => (length (steps plan) ≤ currentStepIndex state)%nat
  end.

(** ** Listing checkpoints *)

(** [a] is created no earlier than [b]. *)
Definition no_older (a b : CheckpointRow) : Prop :=
  (created_at b ≤ created_at a)%nat.

(** The tuple handed out for a row of thread [tid]. *)
Definition tuple_of (tid : string) (row : CheckpointRow) : Checkpointer.CheckpointTuple :=
  Checkpointer.mkTuple
    (Checkpointer.mkConfig (Some tid) (Some (cp_id (row_state row))))
    (row_state row) (row_metadata row)
    (if Checkpointer.truthy (parent_checkpoint_id row)
     then Some (Checkpointer.mkConfig (Some tid) (parent_checkpoint_id row))
     else None)
    (pending_writes row).

(** The rows a listing of thread [tid] may show: those of the thread, and
    when [before] names a stored checkpoint of the thread, only those
    created earlier than it. *)
Definition listable (w : World) (tid : string) (before : option string)
    (r : CheckpointRow) : Prop :=
  r ∈ agent_states w
  ∧ row_ticket_id r = tid
  ∧ ∀ c b, before = Some c → c ≠ EmptyString →
           List.find (Checkpointer.has_key tid c) (agent_states w) = Some b →
           (created_at r < created_at b)%nat.

(** ** A concrete environment and world, used to run the model *)
Module Sample.
Definition usage150 : UsageMetadata := mkUsageMetadata (Some 100) (Some 50).

(** The scripted reasoning engine of the graph tests: the n-th call, bound
    to tools or not, answers with the n-th response. *)
Definition mockLlm (responses : list string) (fallback : string)
    (calls : option (list ToolCall)) (n : nat) (_ : list BaseMessage)
  : Result AIMessage :=
  Ok (mkAIMessage (CText (nth n responses fallback)) calls (Some usage150)).

Definition echoTool : Tool :=
  mkTool "echo" (fun args w => (inr ("echo: " ++ args), w)).

Definition failingTool : Tool :=
  mkTool "fail" (fun args w => (inl "boom", w)).

Definition env (responses : list string) : Env :=
  mkEnv (fun n => n) (fun n => "uuid-" ++ pretty n)
        (mockLlm responses "TASK_COMPLETE" None)
        (mockLlm responses "Step completed successfully. TASK_COMPLETE" (Some []))
        [echoTool; failingTool] 25 (fun _ => Ok tt) true.

(** An engine whose tool-bound calls request the given tool calls. *)
Definition envCalls (responses : list string) (calls : list ToolCall) : Env :=
  mkEnv (fun n => n) (fun n => "uuid-" ++ pretty n)
        (mockLlm responses "TASK_COMPLETE" None)
        (mockLlm responses "Step completed successfully. TASK_COMPLETE" (Some calls))
        [echoTool; failingTool] 25 (fun _ => Ok tt) true.

Definition key (k : string) : string := dq ++ k ++ dq.

(** [{"summary":"Test plan","steps":[{"title":"Step 1","description":"Do step 1"}]}] *)
Definition planResponse : string :=
  "{" ++ key "summary" ++ ":" ++ key "Test plan" ++ ","
      ++ key "steps" ++ ":[{" ++ key "title" ++ ":" ++ key "Step 1" ++ ","
      ++ key "description" ++ ":" ++ key "Do step 1" ++ "}]}".

(** [{"summary":"s","steps":[{}]}] *)
Definition shapelessResponse : string :=
  "{" ++ key "summary" ++ ":" ++ key "s" ++ "," ++ key "steps" ++ ":[{}]}".

Definition step (i : nat) (st : PlanStepStatus) : PlanStep :=
  mkPlanStep ("step-" ++ pretty (i + 1)%nat) i
             (Some (JStr ("Step " ++ pretty (i + 1)%nat)))
             (Some (JStr "A step")) st None None None None 0 3.

Definition plan (l : list PlanStep) (approved : option nat) : StructuredPlan :=
  mkStructuredPlan 1 (Some (JStr "Test plan")) l 0%nat approved
                   (match approved with Some _ => Some "user" | None => None end).

Definition ticket (st : TicketStatus) (p : option StructuredPlan) : Ticket :=
  mkTicket "T-1" "Test Ticket" "Test description" st pr_medium 0%nat 0%nat None
           p 0 50 (mkTokenUsage 0 0 0) None None None [].

Definition world (t : Ticket) : World :=
  mkWorld {[ ticket_id t := t ]} [] 0 0 [] [] [].

Definition state (p : option StructuredPlan) (idx : nat) (ph : AgentPhase)
    (wf : option WaitingFor) (hi : option HumanInput) : GraphState :=
  mkGraphState "T-1" "Test Ticket" "Test description" [] p idx ph
               (mkTokenUsage 0 0 0) wf hi true None.
End Sample.

(** * Properties *)

(** ** The monad *)

Lemma bind_Ok {A B} (m : M A) (k : A → M B) (w w' : World) (a : A) :
  m w = (Ok a, w') → bind m k w = k a w'.
Proof. intros Hm. unfold bind. by rewrite Hm. Qed.

Lemma bind_Throw {A B} (m : M A) (k : A → M B) (w w' : World) (e : Exn) :
  m w = (Throw e, w') → bind m k w = (Throw e, w').
Proof. intros Hm. unfold bind. by rewrite Hm. Qed.

Lemma try_catch_Ok {A} (m : M A) (h : Exn → M A) (w w' : World) (a : A) :
  m w = (Ok a, w') → try_catch m h w = (Ok a, w').
Proof. intros Hm. unfold try_catch. by rewrite Hm. Qed.

Lemma try_catch_Throw {A} (m : M A) (h : Exn → M A) (w w' : World) (e : Exn) :
  m w = (Throw e, w') → try_catch m h w = h e w'.
Proof. intros Hm. unfold try_catch. by rewrite Hm. Qed.

Section Preserves.
Context (R : World → World → Prop) `{!PreOrder R}.

Lemma preserves_ret {A} (a : A) : preserves R (ret a).
Proof. intros w. reflexivity. Qed.

Lemma preserves_throw {A} (e : Exn) : preserves R (throw (A := A) e).
Proof. intros w. reflexivity. Qed.

Lemma preserves_get_world : preserves R get_world.
Proof. intros w. reflexivity. Qed.

Lemma preserves_bind {A B} (m : M A) (k : A → M B) :
  preserves R m → (∀ a, preserves R (k a)) → preserves R (bind m k).
Proof.
  intros Hm Hk w. unfold bind. specialize (Hm w).
  destruct (m w) as [[a|e] w1]; cbn in *; [|done].
  etrans; [exact Hm | apply Hk].
Qed.

Lemma preserves_try_catch {A} (m : M A) (h : Exn → M A) :
  preserves R m → (∀ e, preserves R (h e)) → preserves R (try_catch m h).
Proof.
  intros Hm Hh w. unfold try_catch. specialize (Hm w).
  destruct (m w) as [[a|e] w1]; cbn in *; [done|].
  etrans; [exact Hm | apply Hh].
Qed.

Lemma preserves_modify (f : World → World) :
  (∀ w, R w (f w)) → preserves R (modify f).
Proof. intros Hf w. apply Hf. Qed.
End Preserves.

Lemma returns_ret {A} (Q : A → Prop) (a : A) : Q a → returns Q (ret a).
Proof. intros Hq w a' w' [= <- _]. exact Hq. Qed.

Lemma returns_throw {A} (Q : A → Prop) (e : Exn) : returns Q (throw e).
Proof. intros w a w' [=]. Qed.

Lemma returns_bind_with {A B} (P : A → Prop) (Q : B → Prop) (m : M A)
    (k : A → M B) :
  returns P m → (∀ a, P a → returns Q (k a)) → returns Q (bind m k).
Proof.
  intros Hm Hk w b w'. unfold bind.
  destruct (m w) as [[a|e] w1] eqn:Hmw; [|done].
  apply Hk. by eapply Hm.
Qed.

Lemma returns_bind {A B} (Q : B → Prop) (m : M A) (k : A → M B) :
  (∀ a, returns Q (k a)) → returns Q (bind m k).
Proof.
  intros Hk w b w'. unfold bind.
  destruct (m w) as [[a|e] w1]; [apply Hk | done].
Qed.

(** Splits a goal [preserves R m] or [returns Q m] along the structure of
    [m], leaving the primitive operations. *)
Ltac monad_split1 :=
  match goal with
    | |- preserves _ (ret _) => apply preserves_ret; apply _
    | |- preserves _ (throw _) => apply preserves_throw; apply _
    | |- preserves _ get_world => apply preserves_get_world; apply _
    | |- returns _ (throw _) => apply returns_throw
    | |- preserves _ (bind _ _) => apply preserves_bind; [apply _ | | intros ?]
    | |- preserves _ (try_catch _ _) =>
        apply preserves_try_catch; [apply _ | | intros ?]
    | |- returns _ (bind _ _) => apply returns_bind; intros ?
    | |- preserves _ (match ?x with _ => _ end) => destruct x eqn:?
    | |- returns _ (match ?x with _ => _ end) => destruct x eqn:?
    | |- preserves _ (let _ := _ in _) => cbn zeta
    | |- returns _ (let _ := _ in _) => cbn zeta
    end.

Ltac monad_split := repeat monad_split1.

(** ** Sanity checks of the JSON model *)

Example JSON_parse_ok :
Json.JSON_parse ("{" ++ dq ++ "steps" ++ dq ++ ": [ {}, 1.5e3, null, "
                 ++ dq ++ "a\n" ++ dq ++ "] }")
= Some (JObj [("steps",
               JArr [JObj []; JNum "1.5e3"; JNull; JStr ("a" ++ String "010"%char EmptyString)])]).
Proof. vm_compute. reflexivity. Qed.

Example JSON_parse_rejects :
Json.JSON_parse "{oops}" = None ∧ Json.JSON_parse "{} x" = None ∧
Json.JSON_parse "[1,]" = None ∧ Json.JSON_parse "01" = None.
Proof. vm_compute. auto. Qed.

Example jsonMatch_examples :
Json.jsonMatch "Here: {a} and {b} done" = Some "{a} and {b}" ∧
Json.jsonMatch "} no {" = None ∧
Json.jsonMatch "This is not valid JSON" = None.
Proof. vm_compute. auto. Qed.

(** ** The graph tests of the repository, replayed on the model *)

(** "transitions to waiting phase when plan approval is required" *)
Example test_plan_then_wait :
let '(r, w) := @Graph.invoke (Sample.env [Sample.planResponse]) true
                 (Agent.initialState (H := Sample.env [Sample.planResponse])
                    "T-1" (Sample.ticket st_draft None)) "T-1"
                 (Sample.world (Sample.ticket st_draft None)) in
(phase <$> (match r with Ok s => Some s | Throw _ => None end),
 waitingFor <$> (match r with Ok s => Some s | Throw _ => None end),
 nodeRuns w)
= (Some ph_waiting, Some (Some wf_approval), [n_planning; n_wait]).
Proof. vm_compute. reflexivity. Qed.

(** ** Ticket lifecycle *)
Module TicketsSpec.
Import Tickets.
Section Proofs.
Context `{Env}.

Lemma status_includes_spec from to :
  status_includes (VALID_TRANSITIONS from) to = spec_allowed from to.
Proof. destruct from, to; reflexivity. Qed.

Lemma is_resolved_spec target :
  is_resolved target
  = bool_decide (target ∈ [st_completed; st_failed; st_cancelled]).
Proof. destruct target; reflexivity. Qed.

Lemma get_found (w : World) id t :
  tickets w !! id = Some t → get id w = (Ok t, w).
Proof. intros Hl. unfold get. by rewrite Hl. Qed.

Lemma get_missing (w : World) id :
  tickets w !! id = None → get id w = (Throw (TicketNotFoundError id), w).
Proof. intros Hl. unfold get. by rewrite Hl. Qed.

(** What [update_where_id] followed by [get] yields on a stored ticket. *)
Lemma update_then_get (w : World) id t (f : Ticket → Ticket) :
  tickets w !! id = Some t →
  bind (update_where_id id f) (fun _ => get id) w
  = (Ok (f t), set_tickets (<[id := f t]> (tickets w)) w).
Proof.
  intros Hl. unfold bind, update_where_id, modify, get. cbn.
  rewrite lookup_alter_eq, Hl. cbn. f_equal. f_equal.
  apply map_eq. intros j. destruct (decide (id = j)) as [->|Hne].
  - by rewrite lookup_alter_eq, lookup_insert_eq, Hl.
  - by rewrite lookup_alter_ne, lookup_insert_ne.
Qed.

(** C2. [transitionStatus id target] on a stored ticket succeeds exactly
    when [target] is in the transition table for the current status. On
    success the stored ticket has the new status, and [resolvedAt] is
    stamped with the time of the call when the new status is completed,
    failed or cancelled, and is left as it was otherwise. On a target
    outside the table, [InvalidStatusTransitionError] is thrown and the
    world, so the status and [resolvedAt], is unchanged. *)
Theorem transitionStatus_follows_table (w : World) (id : string) (t : Ticket)
    (target : TicketStatus) :
  tickets w !! id = Some t →
  (spec_allowed (status t) target = true →
     ∃ t' w',
       transitionStatus id target w = (Ok t', w')
       ∧ tickets w' !! id = Some t'
       ∧ status t' = target
       ∧ (target ∈ [st_completed; st_failed; st_cancelled] →
            resolvedAt t' = Some (clock (S (clockReads w))))
       ∧ (target ∉ [st_completed; st_failed; st_cancelled] →
            resolvedAt t' = resolvedAt t))
  ∧ (spec_allowed (status t) target = false →
       transitionStatus id target w
       = (Throw (InvalidStatusTransitionError (status t) target), w)).
Proof.
  intros Hl. split; intros Hallowed.
  - unfold transitionStatus.
    unfold bind at 1. rewrite (get_found _ _ _ Hl).
    rewrite status_includes_spec, Hallowed. cbn [negb].
    unfold bind at 1. unfold now at 1. cbn [fst snd].
    destruct (is_resolved target) eqn:Hres.
    + unfold bind at 1. unfold bind at 1. unfold now at 1.
      unfold ret at 1.
      rewrite (update_then_get _ id t) by exact Hl.
      eexists _, _. split; [reflexivity|]. cbn.
      rewrite lookup_insert_eq. split; [done|]. split; [done|].
      split; [done|]. intros Hn. exfalso. apply Hn.
      rewrite is_resolved_spec in Hres. by apply bool_decide_eq_true in Hres.
    + unfold bind at 1. unfold ret at 1.
      rewrite (update_then_get _ id t) by exact Hl.
      eexists _, _. split; [reflexivity|]. cbn.
      rewrite lookup_insert_eq. split; [done|]. split; [done|].
      split; [|done]. intros Hin. exfalso.
      rewrite is_resolved_spec in Hres. by apply bool_decide_eq_false in Hres.
  - unfold transitionStatus.
    unfold bind at 1. rewrite (get_found _ _ _ Hl).
    rewrite status_includes_spec, Hallowed. reflexivity.
Qed.

(** *** [updatePlanStep] *)

Lemma updateSteps_lookup l stepIndex u (i : nat) :
  updateSteps l stepIndex u !! i
  = (fun step => if bool_decide (Z.of_nat i = stepIndex)
                 then mergeStep step u else step) <$> l !! i.
Proof. unfold updateSteps. by rewrite list_lookup_imap. Qed.

Lemma updateSteps_length l stepIndex u :
  length (updateSteps l stepIndex u) = length l.
Proof. unfold updateSteps. by rewrite length_imap. Qed.

Lemma updateSteps_out_of_range l (stepIndex : Z) u :
  (stepIndex < 0 ∨ Z.of_nat (length l) ≤ stepIndex)%Z →
  updateSteps l stepIndex u = l.
Proof.
  intros Hout. apply list_eq. intros i. rewrite updateSteps_lookup.
  destruct (l !! i) as [s|] eqn:Hi; [|done]. cbn.
  apply lookup_lt_Some in Hi.
  rewrite bool_decide_eq_false_2; [done|]. lia.
Qed.

Lemma set_steps_same plan : set_steps (steps plan) plan = plan.
Proof. by destruct plan. Qed.

(** The outcome of [updatePlanStep] on a stored ticket with a plan. *)
Lemma updatePlanStep_ok (w : World) id t plan stepIndex u :
  tickets w !! id = Some t →
  structuredPlan t = Some plan →
  let plan' := set_steps (updateSteps (steps plan) stepIndex u) plan in
  let t' := set_updatedAt (clock (clockReads w))
              (set_structuredPlan (Some plan') t) in
  updatePlanStep id stepIndex u w
  = (Ok t', set_tickets (<[id := t']> (tickets w))
              (set_clockReads (S (clockReads w)) w)).
Proof.
  intros Hl Hp. cbn zeta. unfold updatePlanStep.
  unfold bind at 1. rewrite (get_found _ _ _ Hl), Hp.
  unfold bind at 1. unfold now at 1. cbn [fst snd].
  by rewrite (update_then_get _ id t) by exact Hl.
Qed.

(** The engine's way of writing a step: read the clock, then update. *)
Lemma stamp_then_update (w : World) id t plan stepIndex
    (mk : nat → PlanStepUpdate) :
  tickets w !! id = Some t →
  structuredPlan t = Some plan →
  let plan' := set_steps (updateSteps (steps plan) stepIndex
                            (mk (clock (clockReads w)))) plan in
  let t' := set_updatedAt (clock (S (clockReads w)))
              (set_structuredPlan (Some plan') t) in
  (let* tm := now in
   let* _ := updatePlanStep id stepIndex (mk tm) in ret tt) w
  = (Ok tt, set_tickets (<[id := t']> (tickets w))
              (set_clockReads (S (S (clockReads w))) w)).
Proof.
  intros Hl Hp. cbn zeta. unfold bind at 1. unfold now at 1. cbn [fst snd].
  erewrite bind_Ok; [reflexivity|].
  by rewrite (updatePlanStep_ok _ id t plan) by done.
Qed.

(** C10. On a ticket that has a plan, [updatePlanStep] with a step index
    outside the plan (negative, or at least the number of steps) returns
    normally and the stored plan is the plan as it was: no step changes
    and none is added. *)
Theorem updatePlanStep_out_of_range (w : World) (id : string) (t : Ticket)
    (plan : StructuredPlan) (stepIndex : Z) (u : PlanStepUpdate) :
  tickets w !! id = Some t →
  structuredPlan t = Some plan →
  (stepIndex < 0 ∨ Z.of_nat (length (steps plan)) ≤ stepIndex)%Z →
  ∃ t' w',
    updatePlanStep id stepIndex u w = (Ok t', w')
    ∧ tickets w' !! id = Some t'
    ∧ structuredPlan t' = Some plan.
Proof.
  intros Hl Hp Hout.
  rewrite (updatePlanStep_ok _ _ _ _ stepIndex u Hl Hp).
  eexists _, _. split; [reflexivity|]. cbn.
  rewrite lookup_insert_eq. split; [done|].
  by rewrite updateSteps_out_of_range, set_steps_same.
Qed.
End Proofs.

(** The theorems at a concrete ticket. *)
Lemma transitionStatus_follows_table_witness :
  let w := Sample.world (Sample.ticket st_in_progress None) in
  ∃ t' w',
    transitionStatus (H := Sample.env []) "T-1" st_failed w = (Ok t', w')
    ∧ status t' = st_failed ∧ resolvedAt t' = Some 1%nat.
Proof.
  intros w.
  destruct (transitionStatus_follows_table (H := Sample.env []) w "T-1"
              (Sample.ticket st_in_progress None) st_failed
              (lookup_singleton_eq _ _)) as [Hok _].
  destruct (Hok eq_refl) as (t' & w' & Hrun & _ & Hst & Hres & _).
  exists t', w'. split; [exact Hrun|]. split; [exact Hst|].
  apply Hres. apply list_elem_of_further, list_elem_of_here.
Defined.

Lemma updatePlanStep_out_of_range_witness :
  let p := Sample.plan [Sample.step 0 step_pending] None in
  let w := Sample.world (Sample.ticket st_in_progress (Some p)) in
  ∃ t' w',
    updatePlanStep (H := Sample.env []) "T-1" 1
      (Graph.stepUpdate_in_progress 7) w = (Ok t', w')
    ∧ structuredPlan t' = Some p.
Proof.
  intros p w.
  destruct (updatePlanStep_out_of_range (H := Sample.env []) w "T-1"
              (Sample.ticket st_in_progress (Some p)) p 1
              (Graph.stepUpdate_in_progress 7)
              (lookup_singleton_eq _ _) eq_refl)
    as (t' & w' & Hrun & _ & Hp).
  - right. cbn. lia.
  - exists t', w'. split; [exact Hrun | exact Hp].
Defined.
End TicketsSpec.

(** ** Workflow engine *)
Module GraphSpec.
Import Graph.
Section Proofs.
Context `{Env}.

Lemma applyUpdate_empty state : applyUpdate state emptyUpdate = state.
Proof. by destruct state. Qed.

(** C1. In phase [waiting] the wait node leaves the world as it is, so it
    calls neither the reasoning engine nor a tool nor a store. With an
    approval that is granted the new state has phase [executing] and
    [waitingFor] null; with an approval that is not granted it has phase
    [completed] and an error that mentions "rejected"; with an answer it
    has phase [executing], [waitingFor] null and the answer appended to
    the messages; without human input the state is unchanged, still
    [waiting], and [routeAfterWait] leaves the graph. *)
Theorem createWaitNode_spec (state : GraphState) (w : World) :
  phase state = ph_waiting →
  ∃ u,
    createWaitNode state w = (Ok u, w)
    ∧ let state' := applyUpdate state u in
      match humanInput state with
      | Some input =>
          match hi_type input with
          | hi_approval =>
              if default false (approved input)
              then phase state' = ph_executing ∧ waitingFor state' = None
              else phase state' = ph_completed
                   ∧ ∃ e, error state' = Some e ∧ includes e "rejected" = true
          | hi_answer =>
              phase state' = ph_executing
              ∧ waitingFor state' = None
              ∧ messages state'
                = (messages state
                     ++ [HumanMessage ("User response: "
                                       ++ default "undefined" (answer input))])%list
          end
      | None =>
          state' = state
          ∧ phase state' = ph_waiting
          ∧ routeAfterWait state' = None
      end.
Proof.
  intros Hph. unfold createWaitNode.
  destruct (humanInput state) as [input|] eqn:Hin.
  - destruct (hi_type input) eqn:Hty.
    + destruct (default false (approved input)) eqn:Happ;
        (eexists; split; [reflexivity|]); cbn.
      * done.
      * split; [done|]. eexists. split; [reflexivity|]. reflexivity.
    + eexists. split; [reflexivity|]. cbn. done.
  - exists emptyUpdate. split; [reflexivity|]. cbn zeta.
    rewrite applyUpdate_empty. split; [done|]. split; [done|].
    unfold routeAfterWait. by rewrite Hph.
Qed.

Lemma invoke_llm_ok (bound : bool) msgs (w : World) response :
  (if bound then llmWithTools_invoke else llm_invoke) (length (llmCalls w)) msgs
  = Ok response →
  invoke_llm bound msgs w
  = (Ok response, set_llmCalls (llmCalls w ++ [mkLLMCall bound msgs])%list w).
Proof. intros Hr. unfold invoke_llm. by rewrite Hr. Qed.

(** C7. With a plan in the state: when [currentStepIndex] is below the
    number of steps, the review node returns phase [executing] and leaves
    the world, hence the log of reasoning-engine calls, as it is.
    Otherwise it calls the reasoning engine exactly once, and for the
    response it gets the new phase is [completed] exactly when the
    response content is text containing TASK_COMPLETE, and [executing]
    for every other content. *)
Theorem createReviewNode_spec (state : GraphState) (plan : StructuredPlan)
    (w : World) :
  gs_structuredPlan state = Some plan →
  ((currentStepIndex state < length (steps plan))%nat →
     ∃ u, createReviewNode state w = (Ok u, w)
          ∧ phase (applyUpdate state u) = ph_executing)
  ∧ ((length (steps plan) ≤ currentStepIndex state)%nat →
     ∀ response,
       llm_invoke (length (llmCalls w)) (reviewMessages state plan) = Ok response →
       ∃ u w',
         createReviewNode state w = (Ok u, w')
         ∧ llmCalls w'
           = (llmCalls w ++ [mkLLMCall false (reviewMessages state plan)])%list
         ∧ (phase (applyUpdate state u) = ph_completed
            ↔ ∃ s, ai_content response = CText s
                   ∧ includes s "TASK_COMPLETE" = true)
         ∧ (phase (applyUpdate state u) = ph_completed
            ∨ phase (applyUpdate state u) = ph_executing)).
Proof.
  intros Hplan. unfold createReviewNode. rewrite Hplan. split.
  - intros Hlt. rewrite bool_decide_eq_false_2 by lia.
    eexists. split; [reflexivity|]. reflexivity.
  - intros Hge response Hresp. rewrite bool_decide_eq_true_2 by lia.
    unfold bind at 1.
    rewrite (invoke_llm_ok false _ w response) by exact Hresp.
    unfold content_or.
    destruct (ai_content response) as [s|n] eqn:Hc.
    + destruct (includes s "TASK_COMPLETE") eqn:Hinc;
        (eexists _, _; split; [reflexivity|]); cbn; (split; [done|]).
      * split; [|by left]. split; [|done]. intros _. by exists s.
      * split; [|by right]. split; [done|].
        intros (s' & [= <-] & Hs'). congruence.
    + eexists _, _. split; [reflexivity|]. cbn. split; [done|].
      split; [|by right]. split; [done|]. by intros (s' & [=] & _).
Qed.

(** *** The plan-extraction pattern *)

Lemma from_first_open_Some s s' :
  Json.from_first_open s = Some s' →
  ∃ a rest, s = a ++ s' ∧ s' = String "{"%char rest.
Proof.
  induction s as [|c s IH]; [done|]. cbn.
  destruct (Ascii.eqb c "{"%char) eqn:Hc.
  - apply Ascii.eqb_eq in Hc as ->. intros [= <-].
    by exists EmptyString, s.
  - assert (Json.from_first_open s = Some s' →
            ∃ a rest, String c s = a ++ s' ∧ s' = String "{"%char rest) as Hrec.
    { intros Hs. destruct (IH Hs) as (a & rest & -> & ->).
      by exists (String c a), rest. }
    destruct c as [[] [] [] [] [] [] [] []]; try exact Hrec.
    discriminate Hc.
Qed.

Lemma from_first_open_None s :
  Json.from_first_open s = None → ∀ a b, s ≠ a ++ String "{"%char b.
Proof.
  induction s as [|c s IH]; intros Hn a b Heq.
  - by destruct a.
  - destruct a as [|c' a]; cbn in Heq.
    + injection Heq as -> ->. discriminate Hn.
    + injection Heq as -> ->.
      apply (IH) with (a := a) (b := b); [|done].
      cbn in Hn. by destruct c' as [[] [] [] [] [] [] [] []].
Qed.

Lemma upto_last_close_None s :
  Json.upto_last_close s = None → ∀ a b, s ≠ a ++ String "}"%char b.
Proof.
  induction s as [|c s IH]; intros Hn a b Heq.
  - by destruct a.
  - cbn in Hn. destruct (Json.upto_last_close s) eqn:Hs; [done|].
    destruct a as [|c' a]; cbn in Heq.
    + injection Heq as -> ->. by rewrite Ascii.eqb_refl in Hn.
    + injection Heq as -> ->. by apply (IH eq_refl a b).
Qed.

Lemma upto_last_close_Some s p :
  Json.upto_last_close s = Some p →
  ∃ b c, s = b ++ String "}"%char c ∧ p = b ++ String "}"%char EmptyString.
Proof.
  revert p. induction s as [|ch s IH]; intros p; [done|]. cbn.
  destruct (Json.upto_last_close s) as [p'|] eqn:Hs.
  - intros [= <-]. destruct (IH p' eq_refl) as (b & c & -> & ->).
    by exists (String ch b), c.
  - destruct (Ascii.eqb ch "}"%char) eqn:Hc; [|done].
    apply Ascii.eqb_eq in Hc as ->. intros [= <-].
    by exists EmptyString, s.
Qed.

Lemma string_app_nil (s : string) : EmptyString ++ s = s.
Proof. reflexivity. Qed.

Lemma string_app_cons ch (a s : string) : String ch a ++ s = String ch (a ++ s).
Proof. reflexivity. Qed.

Lemma string_app_assoc (a b c : string) : (a ++ b) ++ c = a ++ (b ++ c).
Proof.
  induction a as [|ch a IH]; [reflexivity|].
  change (String ch ((a ++ b) ++ c) = String ch (a ++ (b ++ c))).
  by rewrite IH.
Qed.

(** The pattern finds nothing exactly in the texts that have no opening
    brace with a closing brace somewhere after it. *)
Lemma jsonMatch_None_iff text :
  Json.jsonMatch text = None
  ↔ ∀ a b c, text ≠ a ++ String "{"%char (b ++ String "}"%char c).
Proof.
  split.
  - intros Hnone a b c ->. revert Hnone.
    induction a as [|ch a IH].
    + unfold Json.jsonMatch. rewrite string_app_nil. cbn.
      destruct (Json.upto_last_close (b ++ String "}"%char c)) eqn:Hu; [done|].
      intros _. by apply (upto_last_close_None _ Hu b c).
    + intros Hnone. apply IH. revert Hnone. unfold Json.jsonMatch.
      rewrite string_app_cons. cbn.
      destruct (Ascii.eqb ch "{"%char) eqn:Hc.
      * apply Ascii.eqb_eq in Hc as ->. cbn.
        destruct (Json.upto_last_close (a ++ String "{"%char (b ++ String "}"%char c)))
          eqn:Hu; [done|].
        intros _. exfalso.
        apply (upto_last_close_None _ Hu (a ++ String "{"%char b) c).
        by rewrite string_app_assoc, string_app_cons.
      * by destruct ch as [[] [] [] [] [] [] [] []].
  - intros Hno. unfold Json.jsonMatch.
    destruct (Json.from_first_open text) as [s'|] eqn:Hf; [|done].
    destruct (from_first_open_Some _ _ Hf) as (a & rest & -> & ->).
    destruct (Json.upto_last_close rest) as [p|] eqn:Hu; [|done].
    destruct (upto_last_close_Some _ _ Hu) as (b & c & -> & _).
    by destruct (Hno a b c).
Qed.

(** C5 (as amended). When the planning response has no opening brace that
    is followed by a closing brace (in particular when it is not text),
    the planning node calls the reasoning engine exactly once and returns
    phase [completed] with the error "Failed to parse plan: No valid JSON
      found in response", which names both JSON and the parse failure. *)
Theorem createPlanNode_no_json (ticketService : bool) (state : GraphState)
    (w : World) (response : AIMessage) :
  llm_invoke (length (llmCalls w)) (planMessages state) = Ok response →
  (∀ s, ai_content response = CText s →
        ∀ a b c, s ≠ a ++ String "{"%char (b ++ String "}"%char c)) →
  ∃ u e,
    createPlanNode ticketService state w
    = (Ok u, set_llmCalls
               (llmCalls w ++ [mkLLMCall false (planMessages state)])%list w)
    ∧ phase (applyUpdate state u) = ph_completed
    ∧ error (applyUpdate state u) = Some e
    ∧ e = "Failed to parse plan: No valid JSON found in response"
    ∧ includes e "JSON" = true
    ∧ includes e "parse" = true.
Proof.
  intros Hresp Hno. unfold createPlanNode.
  unfold bind at 1. fold (planMessages state).
  rewrite (invoke_llm_ok false _ w response) by exact Hresp.
  assert (Json.jsonMatch (content_or EmptyString response) = None) as ->.
  { unfold content_or. destruct (ai_content response) as [s|n] eqn:Hc.
    - apply jsonMatch_None_iff. by apply Hno.
    - reflexivity. }
  eexists _, _. split; [reflexivity|]. cbn. done.
Qed.

(** *** The execute node *)

Lemma find_tool_name name tool : find_tool name = Some tool → tool_name tool = name.
Proof.
  unfold find_tool. intros Hf. apply find_some in Hf as [_ Heq].
  by apply String.eqb_eq in Heq.
Qed.

(** The tool loop never throws; it invokes exactly the calls that name a
    known tool, in the order given, and pushes one message for each. *)
Lemma runToolCalls_spec (calls : list ToolCall) (w : World) :
  ∃ pushed w',
    runToolCalls calls w = (Ok pushed, w')
    ∧ toolCalls w'
      = (toolCalls w ++ map (fun c => (tc_name c, tc_args c)) (known_calls calls))%list
    ∧ llmCalls w' = llmCalls w
    ∧ nodeRuns w' = nodeRuns w
    ∧ Forall2 pushed_for (known_calls calls) pushed.
Proof.
  revert w. induction calls as [|c calls IH]; intros w.
  - exists [], w. cbn. rewrite app_nil_r. repeat split; constructor.
  - cbn [runToolCalls]. unfold known_calls. rewrite filter_cons.
    destruct (find_tool (tc_name c)) as [tool|] eqn:Hfind.
    + rewrite decide_True by (by eexists).
      unfold bind at 1. unfold bind at 1. unfold invoke_tool at 1.
      destruct (tool_invoke tool (tc_args c) w) as [r w1] eqn:Hinv.
      unfold ret at 1.
      set (w0 := set_toolCalls _ _).
      destruct (IH w0) as (pushed & w' & Hrun & Hlog & Hllm & Hnodes & Hall).
      rewrite (bind_Ok _ _ _ _ _ Hrun). unfold ret.
      eexists _, _. split; [reflexivity|].
      rewrite Hlog, Hllm, Hnodes. subst w0. cbn.
      rewrite (find_tool_name _ _ Hfind), <- app_assoc. cbn.
      repeat split. constructor; [|exact Hall].
      exists tool, w. split; [done|]. by rewrite Hinv.
    + rewrite decide_False by (by intros [? ?]).
      unfold bind at 1. unfold ret at 1.
      destruct (IH w) as (pushed & w' & Hrun & Hlog & Hllm & Hnodes & Hall).
      rewrite (bind_Ok _ _ _ _ _ Hrun). unfold ret.
      by eexists _, _.
Qed.

(** The tool loop does what [tool_run] says. *)
Lemma runToolCalls_tool_run (calls : list ToolCall) :
  ∀ (w : World) pushed w',
    runToolCalls calls w = (Ok pushed, w') → tool_run calls w pushed w'.
Proof.
  induction calls as [|c calls IH]; intros w pushed w' Hrun.
  - cbn in Hrun. injection Hrun as <- <-. constructor.
  - cbn [runToolCalls] in Hrun.
    destruct (find_tool (tc_name c)) as [tool|] eqn:Hfind.
    + unfold bind at 1 in Hrun. unfold bind at 1 in Hrun.
      unfold invoke_tool at 1 in Hrun.
      destruct (tool_invoke tool (tc_args c) w) as [r w1] eqn:Hinv.
      unfold ret at 1 in Hrun.
      unfold bind at 1 in Hrun.
      match type of Hrun with
      | context [runToolCalls calls ?w0] =>
          destruct (runToolCalls calls w0) as [[more|e] w2] eqn:Hrest
      end; [|discriminate Hrun].
      unfold ret in Hrun. injection Hrun as <- <-.
      cbn [app]. eapply tool_run_known; [exact Hfind | exact Hinv |].
      by apply IH.
    + unfold bind at 1 in Hrun. unfold ret at 1 in Hrun.
      unfold bind at 1 in Hrun.
      destruct (runToolCalls calls w) as [[more|e] w2] eqn:Hrest;
        [|discriminate Hrun].
      unfold ret in Hrun. injection Hrun as <- <-.
      cbn [app]. apply tool_run_unknown; [exact Hfind|]. by apply IH.
Qed.

(** C6 (as amended). The execute node built with the ticket service, on a
    state whose current step exists, with the ticket and its plan stored,
    for the response the reasoning engine gives.
    - If the response requests tool calls, the node returns normally with
      phase [executing] and the step index unchanged; the calls that name a
      tool of the tool set are invoked in the order emitted, each on the
      world the calls before it have left (the first one on the world after
      the step was marked and the engine was called, [before_tools]), and
      for each of them one message, holding the result of that very
      invocation or "Error: " and the message of the error it threw, is
      appended after the response, in that order; calls that name no known
      tool are skipped without a message; the world the node leaves is the
      world the last invocation left ([tool_run]).
    - If the response requests no tool call, the node returns phase
      [reviewing] with the step index advanced by one and the response
      appended, and the stored step at the current index (when the stored
      plan has one) is [completed], with the response text (or "Step
      completed" when the content is not text) as output and the time of the
      write as [completedAt]. *)
Theorem createExecuteNode_spec (state : GraphState) (plan : StructuredPlan)
    (currentStep : PlanStep) (w : World) (t : Ticket) (dbPlan : StructuredPlan)
    (response : AIMessage) :
  gs_structuredPlan state = Some plan →
  steps plan !! currentStepIndex state = Some currentStep →
  tickets w !! ticketId state = Some t →
  structuredPlan t = Some dbPlan →
  llmWithTools_invoke (length (llmCalls w))
                      (executeMessages state plan currentStep) = Ok response →
  (∀ c cs, tool_calls response = Some (c :: cs) →
     ∃ u w' pushed,
       createExecuteNode true state w = (Ok u, w')
       ∧ phase (applyUpdate state u) = ph_executing
       ∧ currentStepIndex (applyUpdate state u) = currentStepIndex state
       ∧ messages (applyUpdate state u)
         = (messages state ++ freshPrompt state plan currentStep
              ++ [AIMsg response] ++ pushed)%list
       ∧ Forall2 pushed_for (known_calls (c :: cs)) pushed
       ∧ toolCalls w'
         = (toolCalls w
              ++ map (fun c => (tc_name c, tc_args c)) (known_calls (c :: cs)))%list
       ∧ tool_run (c :: cs) (before_tools state plan currentStep t dbPlan w)
                  pushed w')
  ∧ (tool_calls response = None ∨ tool_calls response = Some [] →
     ∃ u w' t' plan',
       createExecuteNode true state w = (Ok u, w')
       ∧ phase (applyUpdate state u) = ph_reviewing
       ∧ currentStepIndex (applyUpdate state u) = (currentStepIndex state + 1)%nat
       ∧ messages (applyUpdate state u)
         = (messages state ++ freshPrompt state plan currentStep
              ++ [AIMsg response])%list
       ∧ toolCalls w' = toolCalls w
       ∧ tickets w' !! ticketId state = Some t'
       ∧ structuredPlan t' = Some plan'
       ∧ length (steps plan') = length (steps dbPlan)
       ∧ ∀ s, steps plan' !! currentStepIndex state = Some s →
              step_status s = step_completed
              ∧ output s = Some (content_or "Step completed" response)
              ∧ ∃ tm, completedAt s = Some (clock tm)
                      ∧ (clockReads w ≤ tm < clockReads w')%nat).
Proof.
  intros Hplan Hstep Hl Hp Hresp.
  (* the world and the stored plan after the optional in-progress mark *)
  assert (∃ w1 t1 plan1,
            (if true && bool_decide (step_status currentStep = step_pending)
             then let* tm := now in
                  let* _ := Tickets.updatePlanStep (ticketId state)
                              (Z.of_nat (currentStepIndex state))
                              (stepUpdate_in_progress tm) in ret tt
             else ret tt) w = (Ok tt, w1)
            ∧ tickets w1 !! ticketId state = Some t1
            ∧ structuredPlan t1 = Some plan1
            ∧ length (steps plan1) = length (steps dbPlan)
            ∧ llmCalls w1 = llmCalls w ∧ toolCalls w1 = toolCalls w
            ∧ (clockReads w ≤ clockReads w1)%nat
            ∧ set_llmCalls
                (llmCalls w1
                   ++ [mkLLMCall true (executeMessages state plan currentStep)])%list
                w1
              = before_tools state plan currentStep t dbPlan w)
    as (w1 & t1 & plan1 & Hmark & Hl1 & Hp1 & Hlen1 & Hllm1 & Htool1 & Hclk1
        & Hbefore).
  { cbn [andb]. unfold before_tools. case_bool_decide.
    - rewrite (TicketsSpec.stamp_then_update w _ t dbPlan _ stepUpdate_in_progress Hl Hp).
      eexists _, _, _. split; [reflexivity|]. cbn.
      rewrite lookup_insert_eq. split; [reflexivity|]. split; [reflexivity|].
      cbn. rewrite TicketsSpec.updateSteps_length. repeat split; lia.
    - exists w, t, dbPlan. repeat split; done. }
  unfold createExecuteNode. rewrite Hplan, Hstep.
  rewrite (bind_Ok _ _ _ _ _ Hmark).
  fold (executeMessages state plan currentStep).
  assert (invoke_llm true (executeMessages state plan currentStep) w1
          = (Ok response,
             set_llmCalls (llmCalls w1
                ++ [mkLLMCall true (executeMessages state plan currentStep)])%list w1))
    as Hinv.
  { apply invoke_llm_ok. cbn. by rewrite Hllm1. }
  rewrite (bind_Ok _ _ _ _ _ Hinv). clear Hinv.
  split.
  - intros c cs Hcalls. rewrite Hcalls.
    match goal with
    | |- context [bind (runToolCalls (c :: cs)) _ ?w0] =>
        destruct (runToolCalls_spec (c :: cs) w0)
          as (pushed & w' & Hrun & Hlog & _ & _ & Hall)
    end.
    rewrite (bind_Ok _ _ _ _ _ Hrun). unfold ret.
    eexists _, _, pushed. split; [reflexivity|]. cbn.
    split; [done|]. split; [done|].
    split; [by rewrite <- !app_assoc|]. split; [exact Hall|].
    split; [rewrite Hlog; cbn; by rewrite Htool1|].
    rewrite <- Hbefore. by apply runToolCalls_tool_run.
  - intros Hnone.
    set (w2 := set_llmCalls _ w1).
    assert (tickets w2 !! ticketId state = Some t1) as Hl2 by exact Hl1.
    pose proof (TicketsSpec.stamp_then_update w2 _ t1 plan1
                  (Z.of_nat (currentStepIndex state))
                  (fun tm => stepUpdate_completed tm
                               (content_or "Step completed" response)) Hl2 Hp1)
      as Hdone.
    cbn zeta in Hdone.
    destruct Hnone as [Hn | Hn]; rewrite Hn; cbn match;
      rewrite (bind_Ok _ _ _ _ _ Hdone); unfold ret;
      (eexists _, _, _, _; split; [reflexivity|]); cbn;
      rewrite lookup_insert_eq; (split; [done|]); (split; [done|]);
      (split; [done|]); (split; [exact Htool1|]);
      (split; [reflexivity|]); (split; [reflexivity|]);
      cbn; rewrite TicketsSpec.updateSteps_length; (split; [exact Hlen1|]);
      intros s; rewrite TicketsSpec.updateSteps_lookup;
      (destruct (steps plan1 !! currentStepIndex state) as [s1|]; [|done]);
      cbn; rewrite bool_decide_eq_true_2 by done; intros [= <-]; cbn;
      (split; [done|]); (split; [done|]);
      exists (clockReads w1); (split; [done|]); lia.
Qed.
End Proofs.

(** The node theorems at concrete states. *)
Lemma createWaitNode_spec_witness :
  let state := Sample.state (Some (Sample.plan [Sample.step 0 step_pending] None))
                 0 ph_waiting (Some wf_approval)
                 (Some (mkHumanInput hi_approval (Some true) None)) in
  let w := Sample.world (Sample.ticket st_pending_approval None) in
  ∃ u, createWaitNode state w = (Ok u, w)
       ∧ phase (applyUpdate state u) = ph_executing
       ∧ waitingFor (applyUpdate state u) = None.
Proof.
  intros state w.
  destruct (createWaitNode_spec state w eq_refl)
    as (u & Hrun & Hcase).
  exists u. split; [exact Hrun | exact Hcase].
Defined.

Lemma createReviewNode_spec_witness :
  let H := Sample.env ["TASK_COMPLETE"] in
  let plan := Sample.plan [Sample.step 0 step_completed] (Some 3%nat) in
  let state := Sample.state (Some plan) 1 ph_reviewing None None in
  let w := Sample.world (Sample.ticket st_in_progress (Some plan)) in
  ∃ u w', createReviewNode state w = (Ok u, w')
          ∧ phase (applyUpdate state u) = ph_completed.
Proof.
  intros H plan state w.
  destruct (createReviewNode_spec (H := H) state plan w eq_refl) as [_ Hdone].
  destruct (Hdone (le_n 1) (mkAIMessage (CText "TASK_COMPLETE") None
                                         (Some Sample.usage150)) eq_refl)
    as (u & w' & Hrun & _ & Hiff & _).
  exists u, w'. split; [exact Hrun|].
  apply Hiff. exists "TASK_COMPLETE". split; reflexivity.
Defined.

Lemma createPlanNode_no_json_witness :
  let H := Sample.env ["This is not valid JSON"] in
  let state := Sample.state None 0 ph_planning None None in
  let w := Sample.world (Sample.ticket st_draft None) in
  ∃ u w', createPlanNode true state w = (Ok u, w')
          ∧ phase (applyUpdate state u) = ph_completed
          ∧ error (applyUpdate state u)
            = Some "Failed to parse plan: No valid JSON found in response".
Proof.
  intros H state w.
  destruct (createPlanNode_no_json (H := H) true state w
              (mkAIMessage (CText "This is not valid JSON") None
                           (Some Sample.usage150)) eq_refl)
    as (u & e & Hrun & Hph & Herr & -> & _).
  - intros s [= <-]. apply jsonMatch_None_iff. reflexivity.
  - eexists u, _. split; [exact Hrun|]. split; [exact Hph | exact Herr].
Defined.

Lemma createExecuteNode_spec_witness :
  let calls := [mkToolCall "echo" "hi" (Some "call-1");
                mkToolCall "fail" "x" (Some "call-2")] in
  let H := Sample.envCalls ["working"] calls in
  let plan := Sample.plan [Sample.step 0 step_pending] (Some 3%nat) in
  let state := Sample.state (Some plan) 0 ph_executing None None in
  let w := Sample.world (Sample.ticket st_in_progress (Some plan)) in
  ∃ u w',
    createExecuteNode true state w = (Ok u, w')
    ∧ phase (applyUpdate state u) = ph_executing
    ∧ toolCalls w' = [("echo", "hi"); ("fail", "x")].
Proof.
  intros calls H plan state w.
  destruct (createExecuteNode_spec (H := H) state plan (Sample.step 0 step_pending)
              w (Sample.ticket st_in_progress (Some plan)) plan
              (mkAIMessage (CText "working") (Some calls) (Some Sample.usage150))
              eq_refl eq_refl (lookup_singleton_eq _ _) eq_refl eq_refl)
    as [Hcalls _].
  destruct (Hcalls _ _ eq_refl)
    as (u & w' & pushed & Hrun & Hph & _ & _ & _ & Hlog & _).
  exists u, w'. split; [exact Hrun|]. split; [exact Hph | exact Hlog].
Defined.

(** C6 (as stated) fails: a requested call that names no tool of the tool
    set is not executed, and neither a result nor an error is appended for
    it; the node still returns phase [executing]. *)
Lemma createExecuteNode_skips_unknown_tool :
  let calls := [mkToolCall "ghost" "hi" (Some "call-1")] in
  let H := Sample.envCalls ["working"] calls in
  let plan := Sample.plan [Sample.step 0 step_pending] (Some 3%nat) in
  let state := Sample.state (Some plan) 0 ph_executing None None in
  let w := Sample.world (Sample.ticket st_in_progress (Some plan)) in
  ∃ u w',
    createExecuteNode true state w = (Ok u, w')
    ∧ phase (applyUpdate state u) = ph_executing
    ∧ toolCalls w' = []
    ∧ messages (applyUpdate state u)
      = [HumanMessage (executePrompt state plan (Sample.step 0 step_pending));
         AIMsg (mkAIMessage (CText "working") (Some calls) (Some Sample.usage150))].
Proof.
  intros calls H plan state w.
  destruct (createExecuteNode true state w) as [[u|e] w'] eqn:Hrun;
    vm_compute in Hrun; [|discriminate Hrun].
  injection Hrun as <- <-. eexists _, _. split; [reflexivity|].
  vm_compute. done.
Qed.

(** C5 (as stated) fails: a response that is JSON but not of the required
    plan shape, since its only step has neither title nor description, is
    taken as a plan, and the node returns phase [waiting] without an error. *)
Lemma createPlanNode_accepts_shapeless_plan :
  let H := Sample.env [Sample.shapelessResponse] in
  let state := Sample.state None 0 ph_planning None None in
  let w := Sample.world (Sample.ticket st_draft None) in
  parses_as_plan Sample.shapelessResponse = false
  ∧ ∃ u w', createPlanNode true state w = (Ok u, w')
            ∧ phase (applyUpdate state u) = ph_waiting
            ∧ error (applyUpdate state u) = None
            ∧ (steps <$> gs_structuredPlan (applyUpdate state u))
              = Some [mkPlanStep "uuid-0" 0 None None step_pending
                                 None None None None 0 3].
Proof.
  intros H state w. split; [vm_compute; reflexivity|].
  destruct (createPlanNode true state w) as [[u|e] w'] eqn:Hrun;
    vm_compute in Hrun; [|discriminate Hrun].
  injection Hrun as <- <-. eexists _, _. split; [reflexivity|].
  vm_compute. done.
Qed.

(** The same node on a response whose braces hold no JSON at all: the
    [SyntaxError] of [JSON.parse] leaves the node, no state is returned. *)
Lemma createPlanNode_throws_on_malformed_json :
  let H := Sample.env ["Plan: {oops}"] in
  let state := Sample.state None 0 ph_planning None None in
  let w := Sample.world (Sample.ticket st_draft None) in
  fst (createPlanNode true state w) = Throw SyntaxError.
Proof. vm_compute. reflexivity. Qed.
End GraphSpec.

(** ** Which nodes run *)
Module TraceSpec.
Import Graph.

Global Instance same_nodeRuns_preorder : PreOrder same_nodeRuns.
Proof.
  split; [by intros w|]. intros w1 w2 w3 H12 H23. unfold same_nodeRuns in *. congruence.
Qed.

Create HintDb nodes discriminated.

Ltac keep_nodes := monad_split; eauto with nodes.

Section Proofs.
Context `{Env}.

Lemma keep_nodes_now : preserves same_nodeRuns now.
Proof. by intros w. Qed.

Lemma keep_nodes_uuid : preserves same_nodeRuns newUUID.
Proof. by intros w. Qed.

Lemma keep_nodes_get id : preserves same_nodeRuns (Tickets.get id).
Proof. intros w. unfold Tickets.get. by destruct (tickets w !! id). Qed.

Lemma keep_nodes_update id f : preserves same_nodeRuns (Tickets.update_where_id id f).
Proof. by intros w. Qed.

Lemma keep_nodes_llm bound msgs : preserves same_nodeRuns (invoke_llm bound msgs).
Proof. by intros w. Qed.

Lemma keep_nodes_tool tool args : preserves same_nodeRuns (invoke_tool tool args).
Proof.
  intros w. unfold invoke_tool. by destruct (tool_invoke tool args w).
Qed.

Hint Resolve keep_nodes_now keep_nodes_uuid keep_nodes_get keep_nodes_update
  keep_nodes_llm keep_nodes_tool : nodes.

Lemma keep_nodes_transitionStatus id s :
  preserves same_nodeRuns (Tickets.transitionStatus id s).
Proof. unfold Tickets.transitionStatus. keep_nodes. Qed.

Lemma keep_nodes_incrementTurn id u :
  preserves same_nodeRuns (Tickets.incrementTurn id u).
Proof. unfold Tickets.incrementTurn. keep_nodes. Qed.

Lemma keep_nodes_setStructuredPlan id p :
  preserves same_nodeRuns (Tickets.setStructuredPlan id p).
Proof. unfold Tickets.setStructuredPlan. keep_nodes. Qed.

Lemma keep_nodes_updatePlanStep id i u :
  preserves same_nodeRuns (Tickets.updatePlanStep id i u).
Proof. unfold Tickets.updatePlanStep. keep_nodes. Qed.

Lemma keep_nodes_put config cp md :
  preserves same_nodeRuns (Checkpointer.put config cp md).
Proof.
  unfold Checkpointer.put. keep_nodes.
Qed.

Lemma keep_nodes_getTuple config :
  preserves same_nodeRuns (Checkpointer.getTuple config).
Proof. unfold Checkpointer.getTuple. keep_nodes. Qed.

Hint Resolve keep_nodes_transitionStatus keep_nodes_incrementTurn
  keep_nodes_setStructuredPlan keep_nodes_updatePlanStep keep_nodes_put
  keep_nodes_getTuple : nodes.

Lemma keep_nodes_buildSteps items : ∀ index,
  preserves same_nodeRuns (buildSteps index items).
Proof.
  induction items as [|step rest IH]; intros index; cbn [buildSteps]; keep_nodes.
Qed.

Lemma keep_nodes_runToolCalls calls : preserves same_nodeRuns (runToolCalls calls).
Proof.
  induction calls as [|c rest IH]; cbn [runToolCalls]; keep_nodes.
Qed.

Hint Resolve keep_nodes_buildSteps keep_nodes_runToolCalls : nodes.

Lemma keep_nodes_nodeFunction ticketService n state :
  preserves same_nodeRuns (nodeFunction ticketService n state).
Proof.
  destruct n; cbn [nodeFunction].
  - unfold createPlanNode. keep_nodes.
  - unfold createExecuteNode. keep_nodes.
  - unfold createReviewNode. keep_nodes.
  - unfold createWaitNode. keep_nodes.
Qed.

Lemma keep_nodes_saveCheckpoint threadId parent source state :
  preserves same_nodeRuns (saveCheckpoint threadId parent source state).
Proof. unfold saveCheckpoint. keep_nodes. Qed.

Lemma runNode_ran ticketService n state (w : World) :
  ran [n] w (snd (runNode ticketService n state w)).
Proof.
  unfold runNode, bind, modify. cbn.
  set (w0 := set_nodeRuns _ w).
  pose proof (keep_nodes_nodeFunction ticketService n state w0) as Hkeep.
  destruct (nodeFunction ticketService n state w0) as [[u|e] w1];
    unfold ran; cbn in *; by rewrite Hkeep.
Qed.

Lemma execute_returns_phase ticketService state :
  returns (fun u => up_phase u = Some ph_completed
                    ∨ up_phase u = Some ph_executing
                    ∨ up_phase u = Some ph_reviewing)
          (createExecuteNode ticketService state).
Proof. unfold createExecuteNode. monad_split; apply returns_ret; cbn; auto. Qed.

Lemma review_returns_phase state :
  returns (fun u => up_phase u = Some ph_completed ∨ up_phase u = Some ph_executing)
          (createReviewNode state).
Proof. unfold createReviewNode. monad_split; apply returns_ret; cbn; auto. Qed.

Lemma phase_applyUpdate state u p :
  up_phase u = Some p → phase (applyUpdate state u) = p.
Proof. intros Hp. cbn. by rewrite Hp. Qed.

(** After the execute or the review node, the route leads to one of these
    two nodes or out of the graph. *)
Lemma route_stays ticketService n state (w w' : World) u next :
  n = n_execute ∨ n = n_review →
  nodeFunction ticketService n state w = (Ok u, w') →
  routeAfter n (applyUpdate state u) = Some next →
  next = n_execute ∨ next = n_review.
Proof.
  intros [-> | ->] Hrun; cbn [nodeFunction routeAfter] in *.
  - apply execute_returns_phase in Hrun.
    unfold routeAfterExecute.
    destruct Hrun as [Hp | [Hp | Hp]];
      rewrite (phase_applyUpdate _ _ _ Hp); cbn; intros [= <-]; auto.
  - apply review_returns_phase in Hrun.
    unfold routeAfterReview.
    destruct Hrun as [Hp | Hp];
      rewrite (phase_applyUpdate _ _ _ Hp); cbn; [done|]. intros [= <-]; auto.
Qed.

(** From the execute or the review node on, only these two nodes run. *)
Lemma supersteps_stay ticketService fuel : ∀ threadId parent n state (w : World),
  n = n_execute ∨ n = n_review →
  ∃ trace,
    ran trace w (snd (supersteps ticketService fuel threadId parent n state w))
    ∧ Forall (fun x => x = n_execute ∨ x = n_review) trace
    ∧ (∀ x, trace !! 0%nat = Some x → x = n).
Proof.
  induction fuel as [|fuel IH]; intros threadId parent n state w Hn.
  - exists []. unfold ran. cbn. rewrite app_nil_r. by repeat split.
  - cbn [supersteps]. unfold bind at 1.
    pose proof (runNode_ran ticketService n state w) as Hran.
    destruct (runNode ticketService n state w) as [[u|e] w1] eqn:Hnode.
    2:{ exists [n]. cbn in *. split; [exact Hran|]. split; [by constructor|].
        by intros x [= <-]. }
    cbn in Hran. unfold bind at 1.
    pose proof (keep_nodes_saveCheckpoint threadId parent "loop"
                  (applyUpdate state u) w1) as Hsave.
    destruct (saveCheckpoint threadId parent "loop" (applyUpdate state u) w1)
      as [[parent'|e] w2]; cbn in Hsave.
    2:{ exists [n]. unfold ran in *. cbn. split; [congruence|].
        split; [by constructor | by intros x [= <-]]. }
    destruct (routeAfter n (applyUpdate state u)) as [next|] eqn:Hroute.
    2:{ exists [n]. unfold ran in *. cbn. split; [congruence|].
        split; [by constructor | by intros x [= <-]]. }
    assert (next = n_execute ∨ next = n_review) as Hnext.
    { unfold runNode, bind, modify in Hnode. cbn in Hnode.
      eapply (route_stays ticketService n state); [exact Hn | | exact Hroute].
      destruct (nodeFunction ticketService n state _) as [[u'|e'] w'] eqn:Hf;
        [|discriminate Hnode].
      injection Hnode as -> <-. exact Hf. }
    destruct (IH threadId parent' next (applyUpdate state u) w2 Hnext)
      as (trace & Htrace & Hall & _).
    exists (n :: trace). unfold ran in *. split.
    + rewrite Htrace, Hsave, Hran. by rewrite <- app_assoc.
    + split; [by constructor | by intros x [= <-]].
Qed.

(** *** Resuming an approved plan *)

Lemma resumed_of_same (w w' : World) : same_nodeRuns w w' → resumed w w'.
Proof.
  intros Hs. exists []. unfold ran. rewrite app_nil_r. split; [exact Hs|].
  split; [by intros ?%elem_of_nil | done].
Qed.

Lemma resumed_same_l (w1 w2 w3 : World) :
  same_nodeRuns w1 w2 → resumed w2 w3 → resumed w1 w3.
Proof.
  intros Hs (trace & Hran & Htr). exists trace. split; [|exact Htr].
  unfold ran, same_nodeRuns in *. congruence.
Qed.

Lemma resumed_same_r (w1 w2 w3 : World) :
  resumed w1 w2 → same_nodeRuns w2 w3 → resumed w1 w3.
Proof.
  intros (trace & Hran & Htr) Hs. exists trace. split; [|exact Htr].
  unfold ran, same_nodeRuns in *. congruence.
Qed.

Lemma resumed_bind_l {A B} (m : M A) (k : A → M B) :
  preserves same_nodeRuns m → (∀ a, preserves resumed (k a)) →
  preserves resumed (bind m k).
Proof.
  intros Hm Hk w. unfold bind. specialize (Hm w).
  destruct (m w) as [[a|e] w1]; cbn in *.
  - eapply resumed_same_l; [exact Hm | apply Hk].
  - by apply resumed_of_same.
Qed.

Lemma resumed_bind_r {A B} (m : M A) (k : A → M B) :
  preserves resumed m → (∀ a, preserves same_nodeRuns (k a)) →
  preserves resumed (bind m k).
Proof.
  intros Hm Hk w. unfold bind. specialize (Hm w).
  destruct (m w) as [[a|e] w1]; cbn in *; [|done].
  eapply resumed_same_r; [exact Hm | apply Hk].
Qed.

Lemma resumed_try_catch {A} (m : M A) (h : Exn → M A) :
  preserves resumed m → (∀ e, preserves same_nodeRuns (h e)) →
  preserves resumed (try_catch m h).
Proof.
  intros Hm Hh w. unfold try_catch. specialize (Hm w).
  destruct (m w) as [[a|e] w1]; cbn in *; [done|].
  eapply resumed_same_r; [exact Hm | apply Hh].
Qed.

Lemma wait_then_execute state (w : World) :
  resuming state →
  ∃ u, createWaitNode state w = (Ok u, w)
       ∧ phase (applyUpdate state u) = ph_executing
       ∧ routeAfterWait (applyUpdate state u) = Some n_execute.
Proof.
  intros (Hph & Hin & _). unfold createWaitNode. rewrite Hin. cbn.
  eexists. split; [reflexivity|]. by cbn.
Qed.

Lemma supersteps_resumed ticketService fuel threadId parent state :
  resuming state →
  preserves resumed (supersteps ticketService fuel threadId parent n_wait state).
Proof.
  intros Hres w. destruct fuel as [|fuel].
  - by apply resumed_of_same.
  - cbn [supersteps]. unfold bind at 1, runNode at 1, bind at 1, modify at 1.
    cbn [nodeFunction].
    set (w0 := set_nodeRuns _ w).
    destruct (wait_then_execute state w0 Hres) as (u & -> & Hph & Hroute).
    unfold bind at 1.
    pose proof (keep_nodes_saveCheckpoint threadId parent "loop"
                  (applyUpdate state u) w0) as Hsave.
    destruct (saveCheckpoint threadId parent "loop" (applyUpdate state u) w0)
      as [[parent'|e] w2]; cbn in Hsave.
    2:{ exists [n_wait]. split; [unfold ran; cbn; by rewrite Hsave|].
        split; [|split].
        - intros Hin. apply list_elem_of_singleton in Hin. discriminate Hin.
        - by intros n [= <-].
        - by intros n [=]. }
    cbn [routeAfter]. rewrite Hroute.
    destruct (supersteps_stay ticketService fuel threadId parent' n_execute
                (applyUpdate state u) w2 (or_introl eq_refl))
      as (trace & Hran & Hall & Hhead).
    exists (n_wait :: trace). split.
    + unfold ran in *. rewrite Hran, Hsave. subst w0. cbn.
      by rewrite <- app_assoc.
    + split; [|split].
      * intros Hin. apply elem_of_cons in Hin as [Heq | Hin]; [discriminate Heq|].
        rewrite Forall_forall in Hall. by destruct (Hall _ Hin).
      * by intros n [= <-].
      * intros n Hn. by apply Hhead.
Qed.

Lemma resumed_throw {A} (e : Exn) : preserves resumed (throw (A := A) e).
Proof. intros w. by apply resumed_of_same. Qed.

Lemma resumed_weaken {A} (m : M A) :
  preserves same_nodeRuns m → preserves resumed m.
Proof. intros Hm w. apply resumed_of_same, Hm. Qed.

Lemma invoke_resumed ticketService input threadId :
  (∀ state0, resuming (applyUpdate state0 input)) →
  preserves resumed (invoke ticketService input threadId).
Proof.
  intros Hinput. unfold invoke.
  apply resumed_bind_l; [apply keep_nodes_getTuple|]. intros saved.
  destruct saved as [tuple|];
    (apply resumed_bind_l; [apply keep_nodes_saveCheckpoint|]; intros parent';
     match goal with
     | |- context [routeFromStart ?s] =>
         assert (routeFromStart s = n_wait) as ->;
           [ destruct (Hinput (channel_values (Checkpointer.t_checkpoint tuple)))
               as (Hph & _ & [p Hp]) || destruct (Hinput defaultState)
               as (Hph & _ & [p Hp]);
             unfold routeFromStart; rewrite Hp, Hph; reflexivity
           | apply supersteps_resumed, Hinput ]
     end).
Qed.

Lemma initialState_resuming ticketId ticket plan tm state0 :
  structuredPlan ticket = Some plan →
  approvedAt plan = Some tm →
  let state := applyUpdate state0 (Agent.initialState ticketId ticket) in
  phase state = ph_waiting
  ∧ waitingFor state = Some wf_approval
  ∧ humanInput state = Some (mkHumanInput hi_approval (Some true) None)
  ∧ gs_structuredPlan state = Some plan.
Proof.
  intros Hp Ha. unfold Agent.initialState, Agent.hasApprovedPlan.
  rewrite Hp. cbn match. rewrite Ha.
  rewrite bool_decide_eq_true_2 by (by eexists). by cbn.
Qed.

End Proofs.


(** The run of the witness, computed: the approved plan is resumed at the
    wait node, its one step is executed and reviewed, and the ticket ends
    completed. *)
Example run_resumes_approved_plan_trace :
  let H := Sample.env ["Step 1 done"; "TASK_COMPLETE"] in
  let plan := Sample.plan [Sample.step 0 step_pending] (Some 3%nat) in
  let w' := snd (Agent.run "T-1" (Sample.world (Sample.ticket st_approved (Some plan)))) in
  nodeRuns w' = [n_wait; n_execute; n_review]
  ∧ (status <$> tickets w' !! "T-1") = Some st_completed
  ∧ (fmap (M := list) step_status
       <$> (steps <$> (tickets w' !! "T-1" ≫= structuredPlan)))
    = Some [step_completed].
Proof. vm_compute. auto. Qed.
End TraceSpec.

(** ** Checkpoint store *)
Module CheckpointerSpec.
Import Checkpointer.
Section Proofs.
Context `{Env}.

Lemma has_key_spec tid cid r : has_key tid cid r = true ↔ row_key r = (tid, cid).
Proof.
  unfold has_key, row_key. rewrite andb_true_iff, !String.eqb_eq.
  split; [intros [-> ->]; done | intros [= -> ->]; done].
Qed.

Lemma has_key_false tid cid r : has_key tid cid r = false ↔ row_key r ≠ (tid, cid).
Proof.
  rewrite <- has_key_spec. by destruct (has_key tid cid r).
Qed.

Lemma filter_none {A} (P : A → Prop) `{!∀ x, Decision (P x)} (l : list A) :
  (∀ x, x ∈ l → ¬ P x) → filter P l = [].
Proof.
  induction l as [|a l IH]; intros Hno; [done|].
  rewrite filter_cons, decide_False by (apply Hno; left).
  apply IH. intros x Hx. apply Hno. by right.
Qed.

Section Insert.
Context (new : CheckpointRow) (merge : CheckpointRow → CheckpointRow).
Context (Hmerge : ∀ r, row_key (merge r) = row_key r).

(** On a conflict the row is merged where it stands; otherwise the new row
    is added. *)
Lemma insert_conflict rows r0 :
  pk_unique rows →
  r0 ∈ rows → row_key r0 = row_key new →
  filter (fun r => row_key r = row_key new) (insert_onConflict_merge new merge rows)
  = [merge r0]
  ∧ filter (fun r => row_key r ≠ row_key new) (insert_onConflict_merge new merge rows)
    = filter (fun r => row_key r ≠ row_key new) rows
  ∧ row_key <$> insert_onConflict_merge new merge rows = row_key <$> rows.
Proof.
  induction rows as [|r rows IH]; intros Hpk Hin Hkey.
  - by apply elem_of_nil in Hin.
  - cbn [insert_onConflict_merge].
    apply NoDup_cons in Hpk as [Hnotin Hpk].
    destruct (has_key _ _ r) eqn:Hk.
    + apply has_key_spec in Hk. change (row_key r = row_key new) in Hk.
      assert (r0 = r) as ->.
      { apply elem_of_cons in Hin as [-> | Hin]; [done|].
        exfalso. apply Hnotin. rewrite Hk, <- Hkey.
        by apply list_elem_of_fmap_2. }
      assert (filter (fun r => row_key r = row_key new) rows = []) as Hnone.
      { apply filter_none. intros x Hx Hxk.
        apply Hnotin. rewrite Hk, <- Hxk. by apply list_elem_of_fmap_2. }
      rewrite !filter_cons. rewrite decide_True by (by rewrite Hmerge).
      rewrite (decide_False (P := row_key (merge r) ≠ _)) by (rewrite Hmerge; auto).
      rewrite (decide_False (P := row_key r ≠ _)) by auto.
      rewrite Hnone. cbn. by rewrite Hmerge.
    + apply has_key_false in Hk. change (row_key r ≠ row_key new) in Hk.
      apply elem_of_cons in Hin as [-> | Hin]; [done|].
      destruct (IH Hpk Hin Hkey) as (Heq & Hne & Hkeys).
      rewrite !filter_cons. rewrite decide_False by done.
      rewrite !decide_True by done. cbn. by rewrite Heq, Hne, Hkeys.
Qed.

Lemma insert_fresh rows :
  row_key new ∉ row_key <$> rows →
  insert_onConflict_merge new merge rows = (rows ++ [new])%list.
Proof.
  induction rows as [|r rows IH]; intros Hfresh; [done|].
  cbn [insert_onConflict_merge]. cbn in Hfresh.
  apply not_elem_of_cons in Hfresh as [Hne Hfresh].
  destruct (has_key _ _ r) eqn:Hk.
  - apply has_key_spec in Hk. by destruct Hne.
  - cbn. by rewrite IH.
Qed.

(** Whatever the table held, it holds exactly one row with the key of the
    new row afterwards, and the primary key stays unique. *)
Lemma insert_one_row rows :
  pk_unique rows →
  ∃ row,
    filter (fun r => row_key r = row_key new) (insert_onConflict_merge new merge rows)
    = [row]
    ∧ (row = new ∨ ∃ r0, r0 ∈ rows ∧ row_key r0 = row_key new ∧ row = merge r0)
    ∧ filter (fun r => row_key r ≠ row_key new) (insert_onConflict_merge new merge rows)
      = filter (fun r => row_key r ≠ row_key new) rows
    ∧ pk_unique (insert_onConflict_merge new merge rows).
Proof.
  intros Hpk.
  destruct (decide (row_key new ∈ row_key <$> rows)) as [Hin | Hfresh].
  - apply list_elem_of_fmap in Hin as (r0 & Hk & Hin).
    destruct (insert_conflict rows r0 Hpk Hin (eq_sym Hk)) as (Heq & Hne & Hkeys).
    exists (merge r0). split; [exact Heq|]. split; [right; by exists r0|].
    split; [exact Hne|]. unfold pk_unique. by rewrite Hkeys.
  - rewrite (insert_fresh rows Hfresh). exists new.
    rewrite !filter_app, !filter_cons, !filter_nil.
    rewrite decide_True by done. rewrite decide_False by auto.
    assert (filter (fun r => row_key r = row_key new) rows = []) as ->.
    { apply filter_none. intros x Hx Hxk.
      apply Hfresh. rewrite <- Hxk. by apply list_elem_of_fmap_2. }
    split; [done|]. split; [by left|]. split; [by rewrite app_nil_r|].
    unfold pk_unique. rewrite fmap_app. cbn.
    apply NoDup_app. split; [exact Hpk|]. split.
    + intros k Hk Hk'. apply list_elem_of_singleton in Hk'. by subst.
    + apply NoDup_singleton.
Qed.
End Insert.

Lemma truthy_Some s : s ≠ EmptyString → truthy (Some s) = true.
Proof. intros Hs. cbn. by apply negb_true_iff, String.eqb_neq. Qed.

Lemma put_ok (w : World) threadId parent checkpoint metadata :
  threadId ≠ EmptyString →
  is_Some (tickets w !! threadId) →
  put (mkConfig (Some threadId) parent) checkpoint metadata w
  = (Ok (mkConfig (Some threadId) (Some (cp_id checkpoint))),
     set_agent_states
       (insert_onConflict_merge
          (new_row threadId parent checkpoint metadata (clock (clockReads w)))
          (merge_row checkpoint metadata (clock (clockReads w)))
          (agent_states w))
       (set_clockReads (S (clockReads w)) w)).
Proof.
  intros Hs Ht. unfold put. cbn [thread_id checkpoint_id].
  rewrite (truthy_Some _ Hs). cbn [negb from_option id].
  unfold bind at 1. unfold now at 1. cbn [fst snd].
  unfold bind at 1. unfold get_world at 1. cbn [fst snd tickets set_clockReads].
  by rewrite bool_decide_eq_true_2 by exact Ht.
Qed.

(** Without the ticket of the thread the insert violates the foreign key:
    [put] has read the clock and throws, and no row is written. *)
Lemma put_no_ticket (w : World) threadId parent checkpoint metadata :
  threadId ≠ EmptyString →
  tickets w !! threadId = None →
  put (mkConfig (Some threadId) parent) checkpoint metadata w
  = (Throw (Error "FOREIGN KEY constraint failed"),
     set_clockReads (S (clockReads w)) w).
Proof.
  intros Hs Ht. unfold put. cbn [thread_id checkpoint_id].
  rewrite (truthy_Some _ Hs). cbn [negb from_option id].
  unfold bind at 1. unfold now at 1. cbn [fst snd].
  unfold bind at 1. unfold get_world at 1. cbn [fst snd tickets set_clockReads].
  rewrite bool_decide_eq_false_2; [done|].
  rewrite Ht. by intros [? ?].
Qed.

Lemma newest_elem rows row : newest rows = Some row → row ∈ rows.
Proof.
  revert row. induction rows as [|r rows IH]; intros row; [done|]. cbn [newest].
  destruct (newest rows) as [r'|] eqn:Hn.
  - destruct (created_at r <? created_at r')%nat; intros [= Heq]; subst row.
    + right. by apply IH.
    + by left.
  - intros [= Heq]. subst row. by left.
Qed.

(** A row that is strictly newer than every row with another key is the one
    the query picks. *)
Lemma newest_strict_max rows row :
  pk_unique rows →
  row ∈ rows →
  (∀ r, r ∈ rows → row_key r ≠ row_key row → (created_at r < created_at row)%nat) →
  newest rows = Some row.
Proof.
  induction rows as [|r rows IH]; intros Hpk Hin Hmax.
  - by apply elem_of_nil in Hin.
  - apply NoDup_cons in Hpk as [Hnotin Hpk]. cbn [newest].
    apply elem_of_cons in Hin as [-> | Hin].
    + destruct (newest rows) as [r'|] eqn:Hn; [|done].
      apply newest_elem in Hn.
      assert (created_at r' < created_at r)%nat as Hlt.
      { apply Hmax; [by right|]. intros Heq. apply Hnotin.
        rewrite <- Heq. by apply list_elem_of_fmap_2. }
      destruct (Nat.ltb_spec (created_at r) (created_at r')); [lia | done].
    + rewrite (IH Hpk Hin) by (intros r' Hr'; apply Hmax; by right).
      assert (created_at r < created_at row)%nat as Hlt.
      { apply Hmax; [by left|]. intros Heq. apply Hnotin.
        rewrite Heq. by apply list_elem_of_fmap_2. }
      destruct (Nat.ltb_spec (created_at r) (created_at row)); [done | lia].
Qed.

Lemma pk_unique_filter (P : CheckpointRow → Prop) `{!∀ r, Decision (P r)} rows :
  pk_unique rows → pk_unique (filter P rows).
Proof.
  intros Hpk. eapply sublist_NoDup; [exact Hpk|].
  apply fmap_sublist, sublist_filter.
Qed.

Lemma filter_by_key tid cid (rows : list CheckpointRow) :
  filter (fun r => row_checkpoint_id r = cid)
         (filter (fun r => row_ticket_id r = tid) rows)
  = filter (fun r => row_key r = (tid, cid)) rows.
Proof.
  induction rows as [|r rows IH]; [done|].
  rewrite !filter_cons.
  destruct (decide (row_ticket_id r = tid)) as [Ht|Ht].
  - rewrite filter_cons.
    destruct (decide (row_checkpoint_id r = cid)) as [Hc|Hc].
    + rewrite decide_True by (unfold row_key; congruence). by rewrite IH.
    + rewrite decide_False by (unfold row_key; congruence). exact IH.
  - rewrite decide_False by (unfold row_key; congruence). exact IH.
Qed.

(** What [getTuple] hands out for the row the query picks. *)
Lemma getTuple_of_newest (w : World) threadId checkpointId
    (query : list CheckpointRow) row :
  threadId ≠ EmptyString →
  query = (let q := filter (fun r => row_ticket_id r = threadId) (agent_states w) in
           match checkpointId with
           | Some c => if truthy (Some c)
                       then filter (fun r => row_checkpoint_id r = c) q else q
           | None => q
           end) →
  newest query = Some row →
  ∃ tuple,
    getTuple (mkConfig (Some threadId) checkpointId) w = (Ok (Some tuple), w)
    ∧ t_checkpoint tuple = row_state row
    ∧ t_metadata tuple = row_metadata row
    ∧ t_pendingWrites tuple = pending_writes row.
Proof.
  intros Hs -> Hnew. unfold getTuple. cbn [thread_id checkpoint_id].
  rewrite (truthy_Some _ Hs). cbn [negb].
  unfold bind, get_world. cbn zeta in Hnew. rewrite Hnew.
  eexists. split; [reflexivity|]. done.
Qed.

(** C3 (as amended). For a work item that is stored, two puts in a row
    with the same (work item, checkpoint id) pair both succeed and leave
    exactly one row with that key; its snapshot and metadata are those of
    the second put, while its creation time, parent and pending writes are
    those the row had after the first put; the other rows are untouched.
    When the second snapshot survives being written as JSON and parsed
    again, asking for that checkpoint by id returns it, and asking for the
    latest checkpoint of the work item returns it provided the row is
    created strictly later than every other row of the work item. *)
Theorem put_twice_upserts (w : World) (threadId checkpointId : string)
    (parent1 parent2 : option string) (snapshot1 snapshot2 : GraphState)
    (metadata1 metadata2 : string) :
  threadId ≠ EmptyString →
  is_Some (tickets w !! threadId) →
  pk_unique (agent_states w) →
  let c1 := mkCheckpoint checkpointId snapshot1 in
  let c2 := mkCheckpoint checkpointId snapshot2 in
  let key := (threadId, checkpointId) in
  ∃ cfg1 w1 cfg2 w2 row1 row,
    put (mkConfig (Some threadId) parent1) c1 metadata1 w = (Ok cfg1, w1)
    ∧ put (mkConfig (Some threadId) parent2) c2 metadata2 w1 = (Ok cfg2, w2)
    ∧ filter (fun r => row_key r = key) (agent_states w1) = [row1]
    ∧ filter (fun r => row_key r = key) (agent_states w2) = [row]
    ∧ row_state row = c2
    ∧ row_metadata row = Some metadata2
    ∧ created_at row = created_at row1
    ∧ parent_checkpoint_id row = parent_checkpoint_id row1
    ∧ pending_writes row = pending_writes row1
    ∧ filter (fun r => row_key r ≠ key) (agent_states w2)
      = filter (fun r => row_key r ≠ key) (agent_states w)
    ∧ pk_unique (agent_states w2)
    ∧ (survives_json c2 →
       (checkpointId ≠ EmptyString →
        ∃ tuple,
          getTuple (mkConfig (Some threadId) (Some checkpointId)) w2
          = (Ok (Some tuple), w2)
          ∧ channel_values (t_checkpoint tuple) = snapshot2)
       ∧ ((∀ r, r ∈ agent_states w2 → row_ticket_id r = threadId →
                row_checkpoint_id r ≠ checkpointId →
                (created_at r < created_at row)%nat) →
          ∃ tuple,
            getTuple (mkConfig (Some threadId) None) w2 = (Ok (Some tuple), w2)
            ∧ channel_values (t_checkpoint tuple) = snapshot2)).
Proof.
  intros Hs Hticket Hpk c1 c2 key.
  pose proof (put_ok w threadId parent1 c1 metadata1 Hs Hticket) as Hput1.
  set (new1 := new_row threadId parent1 c1 metadata1 (clock (clockReads w))) in *.
  set (merge1 := merge_row c1 metadata1 (clock (clockReads w))) in *.
  destruct (insert_one_row new1 merge1 (fun r => eq_refl) (agent_states w) Hpk)
    as (row1 & Hrow1 & _ & Hothers1 & Hpk1).
  match type of Hput1 with _ = (_, ?x) => set (w1 := x) in * end.
  pose proof (put_ok w1 threadId parent2 c2 metadata2 Hs Hticket) as Hput2.
  set (new2 := new_row threadId parent2 c2 metadata2 (clock (clockReads w1))) in *.
  set (merge2 := merge_row c2 metadata2 (clock (clockReads w1))) in *.
  assert (row1 ∈ agent_states w1 ∧ row_key row1 = row_key new2) as [Hin1 Hkey1].
  { assert (row1 ∈ [row1]) as Hin by (by left).
    rewrite <- Hrow1 in Hin. apply list_elem_of_filter in Hin as [Hk Hin].
    split; [exact Hin | exact Hk]. }
  destruct (insert_conflict new2 merge2 (fun r => eq_refl) (agent_states w1) row1
              Hpk1 Hin1 Hkey1) as (Hrow2 & Hothers2 & Hkeys2).
  match type of Hput2 with _ = (_, ?x) => set (w2 := x) in * end.
  assert (pk_unique (agent_states w2)) as Hpk2.
  { change (NoDup (row_key <$> insert_onConflict_merge new2 merge2 (agent_states w1))).
    rewrite Hkeys2. exact Hpk1. }
  exists (mkConfig (Some threadId) (Some checkpointId)), w1,
         (mkConfig (Some threadId) (Some checkpointId)), w2, row1, (merge2 row1).
  split; [exact Hput1|]. split; [exact Hput2|].
  split; [exact Hrow1|]. split; [exact Hrow2|].
  do 5 (split; [reflexivity|]).
  split.
  { change (filter (fun r => row_key r ≠ key)
              (insert_onConflict_merge new2 merge2 (agent_states w1))
            = filter (fun r => row_key r ≠ key) (agent_states w)).
    change key with (row_key new2). rewrite Hothers2. exact Hothers1. }
  split; [exact Hpk2|]. intros _. split.
  - intros Hc.
    destruct (getTuple_of_newest w2 threadId (Some checkpointId) [merge2 row1]
                (merge2 row1) Hs) as (tuple & Hget & Hcp & _).
    + cbn zeta. rewrite (truthy_Some _ Hc), filter_by_key. by rewrite <- Hrow2.
    + reflexivity.
    + exists tuple. split; [exact Hget|]. by rewrite Hcp.
  - intros Hnewest.
    assert (merge2 row1 ∈ agent_states w2) as Hin2.
    { assert (merge2 row1 ∈ [merge2 row1]) as Hin by (by left).
      rewrite <- Hrow2 in Hin. by apply list_elem_of_filter in Hin as [_ Hin]. }
    destruct (getTuple_of_newest w2 threadId None
                (filter (fun r => row_ticket_id r = threadId) (agent_states w2))
                (merge2 row1) Hs eq_refl) as (tuple & Hget & Hcp & _).
    + apply newest_strict_max.
      * by apply pk_unique_filter.
      * apply list_elem_of_filter. split; [|exact Hin2].
        change (row_ticket_id row1 = threadId). by injection Hkey1.
      * intros r Hr Hne. apply list_elem_of_filter in Hr as [Ht Hr].
        apply Hnewest; [exact Hr | exact Ht |].
        intros Hc. apply Hne. unfold row_key. rewrite Ht, Hc.
        change (row_key new2 = row_key row1). by rewrite Hkey1.
    + exists tuple. split; [exact Hget|]. by rewrite Hcp.
Qed.
End Proofs.

Lemma put_twice_upserts_witness :
  let H := Sample.env [] in
  let w := Sample.world (Sample.ticket st_in_progress None) in
  let s1 := Sample.state None 0 ph_planning None None in
  let s2 := Sample.state None 0 ph_executing None None in
  ∃ w1 w2 row,
    snd (put (mkConfig (Some "T-1") None) (mkCheckpoint "cp-1" s1) "m1" w) = w1
    ∧ snd (put (mkConfig (Some "T-1") None) (mkCheckpoint "cp-1" s2) "m2" w1) = w2
    ∧ filter (fun r => row_key r = ("T-1", "cp-1")) (agent_states w2) = [row]
    ∧ channel_values (row_state row) = s2.
Proof.
  intros H w s1 s2.
  destruct (put_twice_upserts (H := H) w "T-1" "cp-1" None None s1 s2 "m1" "m2")
    as (cfg1 & w1 & cfg2 & w2 & row1 & row & Hput1 & Hput2 & _ & Hrow & Hst & _).
  - discriminate.
  - by eexists.
  - apply NoDup_nil_2.
  - exists w1, w2, row. split; [by rewrite Hput1|]. split; [by rewrite Hput2|].
    split; [exact Hrow|]. by rewrite Hst.
Defined.

(** C3 (as stated) fails: the merge on conflict keeps the creation time of
    the row, and the latest checkpoint is chosen by creation time. When the
    work item has a checkpoint created after the one that is written twice,
    there is one row for the pair and it holds the second snapshot, but the
    latest checkpoint of the work item is still the other one. *)
Lemma getLatest_misses_second_write :
  let H := Sample.env [] in
  let cfg := mkConfig (Some "T-1") None in
  let earlier := Sample.state None 0 ph_planning None None in
  let other := Sample.state None 1 ph_reviewing None None in
  let first := Sample.state None 2 ph_executing None None in
  let second := Sample.state None 3 ph_completed None None in
  let w0 := Sample.world (Sample.ticket st_in_progress None) in
  let w1 := snd (put cfg (mkCheckpoint "cp-1" earlier) "m" w0) in
  let w2 := snd (put cfg (mkCheckpoint "cp-2" other) "m" w1) in
  let w3 := snd (put cfg (mkCheckpoint "cp-1" first) "m" w2) in
  let w4 := snd (put cfg (mkCheckpoint "cp-1" second) "m" w3) in
  (row_state <$> filter (fun r => row_key r = ("T-1", "cp-1")) (agent_states w4))
  = [mkCheckpoint "cp-1" second]
  ∧ ∃ tuple,
      fst (getTuple cfg w4) = Ok (Some tuple)
      ∧ channel_values (t_checkpoint tuple) = other
      ∧ channel_values (t_checkpoint tuple) ≠ second.
Proof.
  intros H cfg earlier other first second w0 w1 w2 w3 w4.
  split; [vm_compute; reflexivity|].
  destruct (getTuple cfg w4) as [[[tuple|]|e] w5] eqn:Hget;
    vm_compute in Hget; try discriminate Hget.
  exists tuple. split; [reflexivity|].
  injection Hget as <- <-. split; [vm_compute; reflexivity|]. discriminate.
Qed.
End CheckpointerSpec.

(** ** Turn and token budgets *)
Module BudgetSpec.
Import Graph.

Global Instance quiet_preorder id : PreOrder (quiet id).
Proof.
  split.
  - by intros w.
  - intros w1 w2 w3 [Hb12 Hc12] [Hb23 Hc23]. split; [congruence | auto].
Qed.

Create HintDb quiet discriminated.

Section Proofs.
Context `{Env} (id : string).
Context (Htools : tools_quiet id) (Hllm : llm_usage_nonneg).

Lemma quiet_now : preserves (quiet id) now.
Proof. by intros w. Qed.

Lemma quiet_uuid : preserves (quiet id) newUUID.
Proof. by intros w. Qed.

Lemma quiet_get id' : preserves (quiet id) (Tickets.get id').
Proof. intros w. unfold Tickets.get. by destruct (tickets w !! id'). Qed.

Lemma quiet_llm bound msgs : preserves (quiet id) (invoke_llm bound msgs).
Proof. by intros w. Qed.

(** A row update that leaves the turn counter and the usage alone. *)
Lemma quiet_update id' (f : Ticket → Ticket) :
  (∀ t, currentTurn (f t) = currentTurn t ∧ tokenUsage (f t) = tokenUsage t) →
  preserves (quiet id) (Tickets.update_where_id id' f).
Proof.
  intros Hf w. split; [|done]. unfold budget. cbn.
  destruct (decide (id' = id)) as [->|Hne].
  - rewrite lookup_alter_eq. destruct (tickets w !! id) as [t|]; [|done].
    cbn. by destruct (Hf t) as [-> ->].
  - by rewrite lookup_alter_ne.
Qed.

Lemma quiet_tool tool args :
  tool ∈ tools → preserves (quiet id) (invoke_tool tool args).
Proof.
  intros Hin w. unfold invoke_tool.
  pose proof (Htools tool Hin args w) as Hq.
  by destruct (tool_invoke tool args w) as [r w'].
Qed.

Lemma find_tool_elem name tool : find_tool name = Some tool → tool ∈ tools.
Proof.
  unfold find_tool. intros Hf. apply find_some in Hf as [Hin _].
  by apply list_elem_of_In.
Qed.

Ltac quiet_side :=
  intros ?;
  repeat match goal with
         | |- context [match ?x with _ => _ end] => destruct x
         end;
  by cbn.

Ltac quiet_step :=
  monad_split;
  first [ apply quiet_now | apply quiet_uuid | apply quiet_get | apply quiet_llm
        | apply quiet_update; quiet_side
        | eauto with quiet ].

Lemma quiet_transitionStatus id' s : preserves (quiet id) (Tickets.transitionStatus id' s).
Proof. unfold Tickets.transitionStatus. quiet_step. Qed.

Lemma quiet_setStructuredPlan id' p :
  preserves (quiet id) (Tickets.setStructuredPlan id' p).
Proof. unfold Tickets.setStructuredPlan. quiet_step. Qed.

Lemma quiet_updatePlanStep id' i u :
  preserves (quiet id) (Tickets.updatePlanStep id' i u).
Proof. unfold Tickets.updatePlanStep. quiet_step. Qed.

Lemma quiet_grantApproval id' : preserves (quiet id) (Tickets.grantApproval id').
Proof. unfold Tickets.grantApproval. quiet_step. Qed.

Lemma quiet_denyApproval id' : preserves (quiet id) (Tickets.denyApproval id').
Proof. unfold Tickets.denyApproval. quiet_step. Qed.

Lemma quiet_answerQuestion id' a : preserves (quiet id) (Tickets.answerQuestion id' a).
Proof. unfold Tickets.answerQuestion. quiet_step. Qed.

Lemma quiet_getTuple config : preserves (quiet id) (Checkpointer.getTuple config).
Proof. unfold Checkpointer.getTuple. quiet_step. Qed.

Hint Resolve quiet_transitionStatus quiet_setStructuredPlan quiet_updatePlanStep
  quiet_grantApproval quiet_denyApproval quiet_answerQuestion quiet_getTuple : quiet.

Lemma quiet_buildSteps items : ∀ index, preserves (quiet id) (buildSteps index items).
Proof.
  induction items as [|step rest IH]; intros index; cbn [buildSteps]; quiet_step.
Qed.

Lemma quiet_runToolCalls calls : preserves (quiet id) (runToolCalls calls).
Proof.
  induction calls as [|c rest IH]; cbn [runToolCalls]; [quiet_step|].
  apply preserves_bind; [apply _ | | intros pushed; quiet_step].
  destruct (find_tool (tc_name c)) as [tool|] eqn:Hfind; [|quiet_step].
  apply preserves_bind; [apply _ | | intros r; quiet_step].
  by apply quiet_tool, (find_tool_elem (tc_name c)).
Qed.

Hint Resolve quiet_buildSteps quiet_runToolCalls : quiet.

Lemma quiet_nodeFunction ticketService n state :
  preserves (quiet id) (nodeFunction ticketService n state).
Proof.
  destruct n; cbn [nodeFunction].
  - unfold createPlanNode. quiet_step.
  - unfold createExecuteNode. quiet_step.
  - unfold createReviewNode. quiet_step.
  - unfold createWaitNode. quiet_step.
Qed.

(** *** Usage reported by the engine *)

Lemma extractTokenUsage_nonneg (bound : bool) n msgs response :
  (if bound then llmWithTools_invoke else llm_invoke) n msgs = Ok response →
  usage_nonneg (extractTokenUsage response).
Proof.
  intros Hr. unfold extractTokenUsage.
  destruct (usage_metadata response) as [usage|] eqn:Hu; [|by cbn].
  destruct (Hllm n msgs response) with (usage := usage) as [Hi Ho]; [|done|].
  { destruct bound; auto. }
  unfold usage_nonneg. cbn.
  destruct (input_tokens usage) as [x|], (output_tokens usage) as [y|]; cbn;
    try specialize (Hi _ eq_refl); try specialize (Ho _ eq_refl); lia.
Qed.

Lemma llm_returns_nonneg bound msgs :
  returns (fun response => usage_nonneg (extractTokenUsage response))
          (invoke_llm bound msgs).
Proof.
  intros w response w'. unfold invoke_llm. intros [= Hr _].
  by eapply extractTokenUsage_nonneg.
Qed.

Ltac usage_step :=
  repeat match goal with
    | |- returns _ (bind (invoke_llm _ _) _) =>
        eapply returns_bind_with; [apply llm_returns_nonneg | intros ? ?]
    | |- returns _ (ret _) =>
        apply returns_ret; intros ?; cbn; intros [= <-]; assumption
    | |- returns _ (ret _) => apply returns_ret; intros ?; by cbn
    | _ => monad_split1
    end.

Lemma nodeFunction_returns_nonneg ticketService n state :
  returns update_nonneg (nodeFunction ticketService n state).
Proof.
  destruct n; cbn [nodeFunction].
  - unfold createPlanNode. usage_step.
  - unfold createExecuteNode. usage_step.
  - unfold createReviewNode. usage_step.
  - unfold createWaitNode. usage_step.
Qed.

Lemma addUsage_nonneg a b :
  usage_nonneg a → usage_nonneg b → usage_nonneg (Tickets.addUsage a b).
Proof. unfold usage_nonneg. cbn. lia. Qed.

Lemma applyUpdate_nonneg state u :
  usage_nonneg (gs_tokenUsage state) → update_nonneg u →
  usage_nonneg (gs_tokenUsage (applyUpdate state u)).
Proof.
  intros Hs Hu. cbn. destruct (up_tokenUsage u) as [usage|] eqn:Hup; [|done].
  apply addUsage_nonneg; [done | by apply Hu].
Qed.

(** *** Checkpoints written by the graph *)

Lemma insert_nonneg new merge rows :
  usage_nonneg (gs_tokenUsage (channel_values (row_state new))) →
  (∀ r, usage_nonneg (gs_tokenUsage (channel_values (row_state (merge r))))) →
  (∀ r, r ∈ rows → usage_nonneg (gs_tokenUsage (channel_values (row_state r)))) →
  ∀ r, r ∈ Checkpointer.insert_onConflict_merge new merge rows →
       usage_nonneg (gs_tokenUsage (channel_values (row_state r))).
Proof.
  intros Hnew Hmerge. induction rows as [|r0 rows IH]; intros Hrows r.
  - cbn. intros ->%list_elem_of_singleton. exact Hnew.
  - cbn [Checkpointer.insert_onConflict_merge].
    destruct (Checkpointer.has_key _ _ r0).
    + intros [-> | Hin]%elem_of_cons; [apply Hmerge|]. apply Hrows. by right.
    + intros [-> | Hin]%elem_of_cons; [apply Hrows; by left|].
      apply IH; [|exact Hin]. intros r' Hr'. apply Hrows. by right.
Qed.

Lemma quiet_saveCheckpoint threadId parent source state :
  usage_nonneg (gs_tokenUsage state) →
  preserves (quiet id) (saveCheckpoint threadId parent source state).
Proof.
  intros Hs. unfold saveCheckpoint.
  apply preserves_bind; [apply _ | apply quiet_uuid | intros cid].
  apply preserves_bind; [apply _ | | intros config; quiet_step].
  unfold Checkpointer.put. destruct (negb _); [quiet_step|].
  apply preserves_bind; [apply _ | apply quiet_now | intros tm].
  apply preserves_bind; [apply _ | by intros w | intros w0].
  case_bool_decide; [|quiet_step].
  apply preserves_bind; [apply _ | | intros ?; quiet_step].
  intros w. split; [done|]. intros Hcp row. cbn. by apply insert_nonneg.
Qed.

(** *** The compiled graph *)

Lemma quiet_runNode ticketService n state :
  preserves (quiet id) (runNode ticketService n state).
Proof.
  unfold runNode. apply preserves_bind; [apply _ | by intros w | intros _].
  apply quiet_nodeFunction.
Qed.

Lemma runNode_returns_nonneg ticketService n state :
  returns update_nonneg (runNode ticketService n state).
Proof.
  unfold runNode. apply returns_bind. intros _. apply nodeFunction_returns_nonneg.
Qed.

Lemma supersteps_quiet ticketService fuel :
  ∀ threadId parent n state (w w' : World) r,
    usage_nonneg (gs_tokenUsage state) →
    supersteps ticketService fuel threadId parent n state w = (r, w') →
    quiet id w w'
    ∧ ∀ result, r = Ok result → usage_nonneg (gs_tokenUsage result).
Proof.
  induction fuel as [|fuel IH]; intros threadId parent n state w w' r Hs Hrun.
  - injection Hrun as <- <-. split; [reflexivity | by intros result [=]].
  - cbn [supersteps] in Hrun.
    pose proof (quiet_runNode ticketService n state w) as Hq1.
    pose proof (runNode_returns_nonneg ticketService n state w) as Hret.
    destruct (runNode ticketService n state w) as [[u|e] w1] eqn:Hnode;
      cbn [fst snd] in *.
    2:{ rewrite (bind_Throw _ _ _ _ _ Hnode) in Hrun. injection Hrun as <- <-.
        split; [exact Hq1 | by intros result [=]]. }
    rewrite (bind_Ok _ _ _ _ _ Hnode) in Hrun.
    specialize (Hret u w1 eq_refl).
    pose proof (applyUpdate_nonneg state u Hs Hret) as Hs'.
    pose proof (quiet_saveCheckpoint threadId parent "loop" _ Hs' w1) as Hq2.
    destruct (saveCheckpoint threadId parent "loop" (applyUpdate state u) w1)
      as [[parent'|e] w2] eqn:Hsave; cbn [fst snd] in *.
    2:{ rewrite (bind_Throw _ _ _ _ _ Hsave) in Hrun. injection Hrun as <- <-.
        split; [exact (transitivity Hq1 Hq2) | by intros result [=]]. }
    rewrite (bind_Ok _ _ _ _ _ Hsave) in Hrun.
    destruct (routeAfter n (applyUpdate state u)) as [next|].
    + destruct (IH threadId parent' next (applyUpdate state u) w2 w' r Hs' Hrun)
        as [Hq3 Hres].
      split; [|exact Hres]. exact (transitivity (transitivity Hq1 Hq2) Hq3).
    + injection Hrun as <- <-. split; [exact (transitivity Hq1 Hq2)|].
      by intros result [= <-].
Qed.

Lemma getTuple_from_row config (w w' : World) tuple :
  Checkpointer.getTuple config w = (Ok (Some tuple), w') →
  w' = w ∧ ∃ row, row ∈ agent_states w
                  ∧ Checkpointer.t_checkpoint tuple = row_state row.
Proof.
  unfold Checkpointer.getTuple.
  destruct (Checkpointer.thread_id config) as [threadId|]; [|by intros [=]].
  destruct (negb _); [by intros [=]|].
  unfold bind, get_world.
  match goal with
  | |- context [Checkpointer.newest ?q] =>
      destruct (Checkpointer.newest q) as [row|] eqn:Hnew; [|by intros [=]];
      assert (row ∈ q) as Hin by (by apply CheckpointerSpec.newest_elem)
  end.
  unfold ret. intros [= <- <-]. split; [done|]. exists row. split; [|done].
  destruct (Checkpointer.checkpoint_id config) as [c|];
    [destruct (Checkpointer.truthy _)|];
    repeat (apply list_elem_of_filter in Hin as [_ Hin]); exact Hin.
Qed.

Lemma invoke_quiet ticketService input threadId (w w' : World) r :
  up_tokenUsage input = None →
  checkpoints_nonneg w →
  invoke ticketService input threadId w = (r, w') →
  quiet id w w'
  ∧ ∀ result, r = Ok result → usage_nonneg (gs_tokenUsage result).
Proof.
  intros Hin Hcp Hrun. unfold invoke in Hrun.
  pose proof (quiet_getTuple (Checkpointer.mkConfig (Some threadId) None) w) as Hq0.
  destruct (Checkpointer.getTuple _ w) as [[saved|e] w0] eqn:Hget;
    cbn [fst snd] in *.
  2:{ rewrite (bind_Throw _ _ _ _ _ Hget) in Hrun. injection Hrun as <- <-.
      split; [exact Hq0 | by intros result [=]]. }
  rewrite (bind_Ok _ _ _ _ _ Hget) in Hrun.
  assert (∃ state0 parent,
            (match saved with
             | Some tuple =>
                 (channel_values (Checkpointer.t_checkpoint tuple),
                  Checkpointer.checkpoint_id (Checkpointer.t_config tuple))
             | None => (defaultState, None)
             end) = (state0, parent)
            ∧ usage_nonneg (gs_tokenUsage state0))
    as (state0 & parent & Heq & Hs0).
  { destruct saved as [tuple|].
    - eexists _, _. split; [reflexivity|].
      apply getTuple_from_row in Hget as (_ & row & Hrow & ->). by apply Hcp.
    - eexists _, _. split; [reflexivity|]. unfold usage_nonneg. cbn. lia. }
  rewrite Heq in Hrun.
  assert (usage_nonneg (gs_tokenUsage (applyUpdate state0 input))) as Hs.
  { cbn. by rewrite Hin. }
  pose proof (quiet_saveCheckpoint threadId parent "input" _ Hs w0) as Hq1.
  destruct (saveCheckpoint threadId parent "input" (applyUpdate state0 input) w0)
    as [[parent'|e] w1] eqn:Hsave; cbn [fst snd] in *.
  2:{ rewrite (bind_Throw _ _ _ _ _ Hsave) in Hrun. injection Hrun as <- <-.
      split; [exact (transitivity Hq0 Hq1) | by intros result [=]]. }
  rewrite (bind_Ok _ _ _ _ _ Hsave) in Hrun.
  destruct (supersteps_quiet ticketService recursionLimit threadId parent'
              (routeFromStart (applyUpdate state0 input))
              (applyUpdate state0 input) w1 w' r Hs Hrun) as [Hq2 Hres].
  split; [|exact Hres]. exact (transitivity (transitivity Hq0 Hq1) Hq2).
Qed.

(** *** The agent service *)

Lemma budget_lookup (w : World) turn usage :
  budget id w = Some (turn, usage) →
  ∃ t, tickets w !! id = Some t ∧ currentTurn t = turn ∧ tokenUsage t = usage.
Proof.
  unfold budget. destruct (tickets w !! id) as [t|]; [|done].
  cbn. intros [= <- <-]. by exists t.
Qed.

Lemma incrementTurn_effect (w : World) turn usage reported :
  budget id w = Some (turn, usage) →
  ∃ t' w',
    Tickets.incrementTurn id (Some reported) w = (Ok t', w')
    ∧ budget id w' = Some ((turn + 1)%Z, Tickets.addUsage usage reported)
    ∧ agent_states w' = agent_states w.
Proof.
  intros (t & Hl & <- & <-)%budget_lookup. unfold Tickets.incrementTurn.
  rewrite (bind_Ok _ _ _ _ _ (TicketsSpec.get_found _ _ _ Hl)).
  unfold bind at 1. unfold now at 1. cbn [fst snd].
  rewrite (TicketsSpec.update_then_get _ id t) by exact Hl.
  eexists _, _. split; [reflexivity|]. unfold budget. cbn.
  by rewrite lookup_insert_eq.
Qed.

(** The guarded part of [run] and [resume]: invoke the graph, count the
    turn, move the status; any exception becomes a failure record. *)
Lemma attempt_effect input (post : GraphState → M unit)
    (mk : GraphState → Agent.AgentRunResult) (w : World) turn usage :
  up_tokenUsage input = None →
  (∀ result, preserves (quiet id) (post result)) →
  (∀ result, Agent.r_error (mk result) = None) →
  checkpoints_nonneg w →
  budget id w = Some (turn, usage) →
  ∃ res w',
    try_catch
      (let* result := Agent.graph_invoke input id in
       let* _ := Tickets.incrementTurn id (Some (gs_tokenUsage result)) in
       let* _ := post result in
       ret (mk result))
      (fun e => ret (Agent.failed_run id e)) w = (Ok res, w')
    ∧ checkpoints_nonneg w'
    ∧ ((budget id w' = Some (turn, usage) ∧ is_Some (Agent.r_error res))
       ∨ ∃ reported,
           usage_nonneg reported
           ∧ budget id w' = Some ((turn + 1)%Z, Tickets.addUsage usage reported)).
Proof.
  intros Hin Hpost Hmk Hcp Hb.
  destruct (Agent.graph_invoke input id w) as [[result|e] w1] eqn:Hinv.
  2:{ erewrite try_catch_Throw; [|by erewrite bind_Throw].
      destruct (invoke_quiet true input id w w1 _ Hin Hcp Hinv) as [[Hb1 Hcp1] _].
      eexists _, _. split; [reflexivity|]. split; [by apply Hcp1|].
      left. split; [congruence | by eexists]. }
  destruct (invoke_quiet true input id w w1 _ Hin Hcp Hinv) as [[Hb1 Hcp1] Hres].
  specialize (Hres result eq_refl). rewrite Hb in Hb1.
  destruct (incrementTurn_effect w1 turn usage (gs_tokenUsage result) Hb1)
    as (t' & w2 & Hinc & Hb2 & Hrows2).
  assert (checkpoints_nonneg w2) as Hcp2.
  { unfold checkpoints_nonneg. rewrite Hrows2. by apply Hcp1. }
  pose proof (Hpost result w2) as [Hb3 Hcp3].
  destruct (post result w2) as [[[]|e] w3] eqn:Hp; cbn [fst snd] in *.
  - erewrite try_catch_Ok.
    2:{ erewrite bind_Ok; [|exact Hinv]. erewrite bind_Ok; [|exact Hinc].
        erewrite bind_Ok; [|exact Hp]. reflexivity. }
    eexists _, _. split; [reflexivity|]. split; [by apply Hcp3|].
    right. exists (gs_tokenUsage result). split; [done | congruence].
  - erewrite try_catch_Throw.
    2:{ erewrite bind_Ok; [|exact Hinv]. erewrite bind_Ok; [|exact Hinc].
        erewrite bind_Throw; [|exact Hp]. reflexivity. }
    eexists _, _. split; [reflexivity|]. split; [by apply Hcp3|].
    right. exists (gs_tokenUsage result). split; [done | congruence].
Qed.

Lemma call_effect_throw turn usage e (w w' : World) :
  checkpoints_nonneg w → budget id w = Some (turn, usage) →
  quiet id w w' → call_effect id turn usage (Throw e) w'.
Proof.
  intros Hcp Hb [Hb' Hcp']. split; [by apply Hcp'|]. left.
  split; [congruence | by intros res [=]].
Qed.

Ltac use_attempt Hrun Hcp Hb :=
  match type of Hrun with
  | try_catch (bind (Agent.graph_invoke ?input _) (fun result => bind _ (fun _ =>
      bind (@?post result) (fun _ => ret (@?mk result))))) _ ?w0 = _ =>
      match type of Hb with
      | budget _ _ = Some (?turn, ?usage) =>
          let Hatt := fresh "Hatt" in
          let Hin := fresh "Hin" in
          let Hpost := fresh "Hpost" in
          assert (up_tokenUsage input = None) as Hin;
          [ | assert (∀ result, preserves (quiet id) (post result)) as Hpost
                by (intros result; quiet_step);
              destruct (attempt_effect input post mk w0 turn usage Hin Hpost
                          (fun _ => eq_refl) Hcp Hb)
                as (res & w2 & Hatt & Hcp2 & Hcase);
              rewrite Hatt in Hrun; injection Hrun as <- <-;
              split; [exact Hcp2|];
              destruct Hcase as [[Hb2 Herr] | Hinc];
              [ left; split; [exact Hb2 | by intros ? [= <-]] | right; exact Hinc ] ]
      end
  end.

Lemma run_effect (w w' : World) r turn usage :
  checkpoints_nonneg w →
  budget id w = Some (turn, usage) →
  Agent.run id w = (r, w') →
  call_effect id turn usage r w'.
Proof.
  intros Hcp Hb Hrun.
  destruct (budget_lookup w turn usage Hb) as (t & Hl & _).
  unfold Agent.run in Hrun.
  rewrite (bind_Ok _ _ _ _ _ (TicketsSpec.get_found _ _ _ Hl)) in Hrun.
  destruct (bool_decide _).
  { injection Hrun as <- <-. by eapply call_effect_throw. }
  destruct (ensureWorktree id).
  2:{ injection Hrun as <- <-. by eapply call_effect_throw. }
  match type of Hrun with
  | bind ?m _ _ = _ =>
      assert (preserves (quiet id) m) as Hq by quiet_step;
      specialize (Hq w); destruct (m w) as [[[]|e] w0] eqn:Hm; cbn [fst snd] in Hq
  end.
  2:{ rewrite (bind_Throw _ _ _ _ _ Hm) in Hrun. injection Hrun as <- <-.
      by eapply call_effect_throw. }
  rewrite (bind_Ok _ _ _ _ _ Hm) in Hrun.
  destruct Hq as [Hb0 Hcp0]. specialize (Hcp0 Hcp). rewrite Hb in Hb0.
  use_attempt Hrun Hcp0 Hb0.
  unfold Agent.initialState. by destruct (Agent.hasApprovedPlan t).
Qed.

Lemma resume_effect input (w w' : World) r turn usage :
  checkpoints_nonneg w →
  budget id w = Some (turn, usage) →
  Agent.resume id input w = (r, w') →
  call_effect id turn usage r w'.
Proof.
  intros Hcp Hb Hrun.
  destruct (budget_lookup w turn usage Hb) as (t & Hl & _).
  unfold Agent.resume in Hrun.
  rewrite (bind_Ok _ _ _ _ _ (TicketsSpec.get_found _ _ _ Hl)) in Hrun.
  destruct (bool_decide _).
  { injection Hrun as <- <-. by eapply call_effect_throw. }
  pose proof (quiet_getTuple (Checkpointer.mkConfig (Some id) None) w) as Hq0.
  unfold getState in Hrun.
  destruct (Checkpointer.getTuple _ w) as [[saved|e] w0] eqn:Hget;
    cbn [fst snd] in Hq0.
  2:{ erewrite bind_Throw in Hrun; [|by erewrite bind_Throw].
      injection Hrun as <- <-. by eapply call_effect_throw. }
  erewrite bind_Ok in Hrun; [|by erewrite bind_Ok].
  destruct (_ <$> saved).
  2:{ injection Hrun as <- <-. by eapply call_effect_throw. }
  match type of Hrun with
  | bind ?m _ _ = _ =>
      assert (preserves (quiet id) m) as Hq by quiet_step;
      specialize (Hq w0); destruct (m w0) as [[[]|e] w1] eqn:Hm;
      cbn [fst snd] in Hq
  end.
  2:{ rewrite (bind_Throw _ _ _ _ _ Hm) in Hrun. injection Hrun as <- <-.
      eapply call_effect_throw; [done | done |]. by etrans. }
  rewrite (bind_Ok _ _ _ _ _ Hm) in Hrun.
  pose proof (transitivity Hq0 Hq) as [Hb1 Hcp1].
  specialize (Hcp1 Hcp). rewrite Hb in Hb1.
  use_attempt Hrun Hcp1 Hb1.
  by destruct input.
Qed.

Lemma exec_call_effect c (w : World) turn usage :
  checkpoints_nonneg w →
  budget id w = Some (turn, usage) →
  call_effect id turn usage (call_outcome id c w) (exec_call id c w).
Proof.
  intros Hcp Hb. destruct c as [|input]; cbn [call_outcome exec_call].
  - by eapply run_effect, surjective_pairing.
  - by eapply resume_effect, surjective_pairing.
Qed.

Lemma exec_call_missing c (w : World) :
  budget id w = None → exec_call id c w = w.
Proof.
  unfold budget. destruct (tickets w !! id) as [t|] eqn:Hl; [done|]. intros _.
  destruct c as [|input]; cbn [exec_call];
    unfold Agent.run, Agent.resume;
    by rewrite (bind_Throw _ _ _ _ _ (TicketsSpec.get_missing _ _ Hl)).
Qed.

Global Instance budget_le_preorder : PreOrder (budget_le id).
Proof.
  split.
  - intros w turn usage Hb. exists turn, usage. unfold usage_le. repeat split; lia || done.
  - intros w1 w2 w3 H12 H23 turn usage Hb.
    destruct (H12 _ _ Hb) as (turn2 & usage2 & Hb2 & Ht2 & Hu2).
    destruct (H23 _ _ Hb2) as (turn3 & usage3 & Hb3 & Ht3 & Hu3).
    exists turn3, usage3. split; [done|]. unfold usage_le in *. lia.
Qed.

Lemma budget_le_of_same (w w' : World) : budget id w' = budget id w → budget_le id w w'.
Proof.
  intros Heq turn usage Hb. exists turn, usage. rewrite Heq.
  unfold usage_le. repeat split; lia || done.
Qed.

Lemma call_effect_le r (w w' : World) turn usage :
  budget id w = Some (turn, usage) →
  call_effect id turn usage r w' → budget_le id w w'.
Proof.
  intros Hb [_ [[Hb' _] | (reported & Hnn & Hb')]].
  - apply budget_le_of_same. congruence.
  - intros turn0 usage0 Hb0. rewrite Hb in Hb0. injection Hb0 as <- <-.
    eexists _, _. split; [exact Hb'|].
    unfold usage_le, usage_nonneg in *. cbn. lia.
Qed.

Lemma exec_calls_le calls : ∀ w : World,
  checkpoints_nonneg w →
  budget_le id w (exec_calls id calls w) ∧ checkpoints_nonneg (exec_calls id calls w).
Proof.
  induction calls as [|c calls IH]; intros w Hcp; [by split|].
  cbn [exec_calls fold_left]. fold (exec_calls id calls (exec_call id c w)).
  destruct (budget id w) as [[turn usage]|] eqn:Hb.
  - pose proof (exec_call_effect c w turn usage Hcp Hb) as Heff.
    destruct (IH (exec_call id c w) (proj1 Heff)) as [Hle Hcp'].
    split; [|exact Hcp']. etrans; [|exact Hle]. by eapply call_effect_le.
  - rewrite (exec_call_missing c w Hb). by apply IH.
Qed.

(** No other operation of the ticket service writes the budget. *)
Lemma exec_op_le id' op (w : World) :
  op_nonneg op → budget_le id w (snd (exec_op id' op w)).
Proof.
  intros Hnn.
  assert (∀ m : M Ticket, preserves (quiet id) m → budget_le id w (snd (m w)))
    as Hquiet.
  { intros m Hm. apply budget_le_of_same, Hm. }
  destruct op; cbn [exec_op];
    try (apply Hquiet;
         unfold Tickets.update, Tickets.approvePlan, Tickets.requestApproval,
           Tickets.askQuestion, Tickets.addCommit, Tickets.setWorkingBranch;
         quiet_step; fail).
  unfold Tickets.incrementTurn.
  destruct (tickets w !! id') as [t|] eqn:Hl.
  2:{ rewrite (bind_Throw _ _ _ _ _ (TicketsSpec.get_missing _ _ Hl)). reflexivity. }
  rewrite (bind_Ok _ _ _ _ _ (TicketsSpec.get_found _ _ _ Hl)).
  unfold bind at 1. unfold now at 1. cbn [fst snd].
  rewrite (TicketsSpec.update_then_get _ id' t) by exact Hl.
  intros turn usage0 Hb. unfold budget in *. cbn.
  destruct (decide (id' = id)) as [->|Hne].
  - rewrite lookup_insert_eq. rewrite Hl in Hb. cbn in *. injection Hb as <- <-.
    eexists _, _. split; [reflexivity|].
    destruct usage as [u|]; unfold usage_le, usage_nonneg in *; cbn in *; lia.
  - rewrite lookup_insert_ne by done. exists turn, usage0.
    unfold usage_le. repeat split; lia || done.
Qed.

End Proofs.

Lemma sample_tools_quiet responses : tools_quiet (H := Sample.env responses) "T-1".
Proof.
  intros tool Hin args w. cbn in Hin.
  repeat (apply elem_of_cons in Hin as [-> | Hin]; [by cbn|]).
  by apply elem_of_nil in Hin.
Qed.

Lemma sample_llm_nonneg responses : llm_usage_nonneg (H := Sample.env responses).
Proof.
  intros n msgs response Hr usage Hu.
  assert (usage = Sample.usage150) as ->.
  { destruct Hr as [Hr | Hr]; cbn in Hr; unfold Sample.mockLlm in Hr;
      injection Hr as <-; cbn in Hu; congruence. }
  split; intros x [= <-]; lia.
Qed.


(** A first [run] on the sample ticket plans and waits: one turn, and the
    150 tokens of the one engine call. *)
Example run_counts_one_turn :
  let H := Sample.env [Sample.planResponse] in
  budget "T-1" (exec_call "T-1" call_run (Sample.world (Sample.ticket st_draft None)))
  = Some (1%Z, mkTokenUsage 100 50 150).
Proof. vm_compute. reflexivity. Qed.
End BudgetSpec.

(** ** Step statuses *)
Module StepsSpec.
Import Tickets Graph.

Global Instance same_plan_preorder id : PreOrder (same_plan id).
Proof.
  split; [by intros w|]. intros w1 w2 w3 H12 H23. unfold same_plan in *. congruence.
Qed.

Section Proofs.
Context `{Env}.

(** *** Lists of steps *)

Lemma count_in_progress_cons s l :
  count_in_progress (s :: l)
  = ((if bool_decide (step_status s = step_in_progress) then 1 else 0)
     + count_in_progress l)%nat.
Proof.
  unfold count_in_progress. rewrite filter_cons.
  case_bool_decide; [by rewrite decide_True | by rewrite decide_False].
Qed.

Lemma count_imap_le (f : nat → PlanStep → PlanStep) l :
  (∀ i s, step_status (f i s) = step_in_progress → step_status s = step_in_progress) →
  (count_in_progress (imap f l) ≤ count_in_progress l)%nat.
Proof.
  revert f. induction l as [|s l IH]; intros f Hf; [done|].
  cbn [imap]. rewrite !count_in_progress_cons.
  specialize (IH (f ∘ S) (fun i => Hf (S i))).
  repeat case_bool_decide; try lia. exfalso. eauto.
Qed.

Lemma updateSteps_count_le l stepIndex u :
  u_status u ≠ Some step_in_progress →
  (count_in_progress (updateSteps l stepIndex u) ≤ count_in_progress l)%nat.
Proof.
  intros Hu. apply count_imap_le. intros i s.
  case_bool_decide; [|done]. unfold mergeStep. cbn.
  destruct (u_status u) as [st|]; cbn; [|done]. intros ->. by destruct Hu.
Qed.

Lemma updateSteps_only_at l idx u :
  in_progress_only_at idx l →
  in_progress_only_at idx (updateSteps l (Z.of_nat idx) u).
Proof.
  intros Hl j s'. rewrite TicketsSpec.updateSteps_lookup.
  destruct (l !! j) as [s|] eqn:Hj; [|done]. cbn.
  case_bool_decide as Hidx; [intros _ _; lia|].
  intros [= <-] Hs. by apply (Hl j s).
Qed.

Lemma only_at_at_most_one l : ∀ idx,
  in_progress_only_at idx l → at_most_one_in_progress l.
Proof.
  unfold at_most_one_in_progress.
  induction l as [|s l IH]; intros idx Hl; [cbn; lia|].
  rewrite count_in_progress_cons. destruct idx as [|idx].
  - assert (count_in_progress l = 0%nat) as ->.
    { unfold count_in_progress. rewrite CheckpointerSpec.filter_none; [done|].
      intros x [j Hj]%list_elem_of_lookup Hx.
      by specialize (Hl (S j) x Hj Hx). }
    case_bool_decide; lia.
  - rewrite bool_decide_eq_false_2.
    + apply (IH idx). intros j x Hj Hx. by specialize (Hl (S j) x Hj Hx) as [= ->].
    + intros Hs. by specialize (Hl 0%nat s eq_refl Hs).
Qed.

Lemma updateSteps_completed_none l idx u :
  in_progress_only_at idx l →
  u_status u = Some step_completed →
  Forall (fun s => step_status s ≠ step_in_progress)
         (updateSteps l (Z.of_nat idx) u).
Proof.
  intros Hl Hu. apply Forall_lookup. intros j s'.
  rewrite TicketsSpec.updateSteps_lookup.
  destruct (l !! j) as [s|] eqn:Hj; [|done]. cbn.
  case_bool_decide as Hidx; intros [= <-].
  - unfold mergeStep. cbn. by rewrite Hu.
  - intros Hs. apply Hidx. by rewrite (Hl j s Hj Hs).
Qed.

Lemma updateSteps_insert l idx s u :
  l !! idx = Some s →
  updateSteps l (Z.of_nat idx) u = <[idx := mergeStep s u]> l.
Proof.
  intros Hs. apply list_eq. intros i. rewrite TicketsSpec.updateSteps_lookup.
  destruct (decide (i = idx)) as [->|Hne].
  - rewrite Hs, list_lookup_insert_eq by (by eapply lookup_lt_Some).
    cbn. by rewrite bool_decide_eq_true_2.
  - rewrite list_lookup_insert_ne by done.
    destruct (l !! i); [|done]. cbn. by rewrite bool_decide_eq_false_2 by lia.
Qed.

Lemma count_in_progress_app l1 l2 :
  count_in_progress (l1 ++ l2) = (count_in_progress l1 + count_in_progress l2)%nat.
Proof. unfold count_in_progress. by rewrite filter_app, length_app. Qed.

Lemma updateSteps_count_succ l stepIndex u :
  (count_in_progress (updateSteps l stepIndex u) ≤ count_in_progress l + 1)%nat.
Proof.
  destruct (decide (0 ≤ stepIndex < Z.of_nat (length l))%Z) as [Hin|Hout].
  - assert (∃ idx, stepIndex = Z.of_nat idx ∧ (idx < length l)%nat) as (idx & -> & Hlt).
    { exists (Z.to_nat stepIndex). lia. }
    destruct (lookup_lt_is_Some_2 l idx Hlt) as [s Hs].
    rewrite (updateSteps_insert _ _ _ _ Hs).
    rewrite <- (take_drop_middle l idx s Hs) at 2.
    rewrite insert_take_drop by done.
    rewrite !count_in_progress_app, !count_in_progress_cons.
    repeat case_bool_decide; lia.
  - rewrite TicketsSpec.updateSteps_out_of_range by lia. lia.
Qed.

(** X24. [updatePlanStep] on a ticket with a plan keeps the number of
    steps. It raises the number of steps that are [in_progress] by at most
    one, and not at all unless the update sets the status [in_progress].
    When the steps in progress, if any, all sit at the index that is
    written, the stored plan has at most one step in progress afterwards. *)
Theorem updatePlanStep_keeps_single (w : World) (id : string) (t : Ticket)
    (plan : StructuredPlan) (stepIndex : Z) (u : PlanStepUpdate) :
  tickets w !! id = Some t →
  structuredPlan t = Some plan →
  ∃ t' w' plan',
    updatePlanStep id stepIndex u w = (Ok t', w')
    ∧ tickets w' !! id = Some t'
    ∧ structuredPlan t' = Some plan'
    ∧ length (steps plan') = length (steps plan)
    ∧ (count_in_progress (steps plan') ≤ count_in_progress (steps plan) + 1)%nat
    ∧ (u_status u ≠ Some step_in_progress →
         (count_in_progress (steps plan') ≤ count_in_progress (steps plan))%nat)
    ∧ (∀ idx, stepIndex = Z.of_nat idx →
              in_progress_only_at idx (steps plan) →
              at_most_one_in_progress (steps plan')).
Proof.
  intros Hl Hp.
  rewrite (TicketsSpec.updatePlanStep_ok _ _ _ _ stepIndex u Hl Hp).
  eexists _, _, _. split; [reflexivity|]. cbn. rewrite lookup_insert_eq.
  split; [reflexivity|]. split; [reflexivity|]. cbn.
  split; [apply TicketsSpec.updateSteps_length|].
  split; [apply updateSteps_count_succ|].
  split; [apply updateSteps_count_le|].
  intros idx -> Hinv. eapply only_at_at_most_one. by apply updateSteps_only_at.
Qed.

(** *** The stored plan *)

Lemma same_plan_keeps id idx w w' : same_plan id w w' → keeps_plan_inv id idx w w'.
Proof.
  intros Hsame Hinv t' plan Hl Hp. unfold same_plan in Hsame.
  rewrite Hl in Hsame. cbn in Hsame.
  destruct (tickets w !! id) as [t|] eqn:Hw; [|done].
  apply (Hinv t plan); [done|]. cbn in Hsame. congruence.
Qed.

Lemma none_in_progress_inv id idx w : none_in_progress id w → plan_inv id idx w.
Proof.
  intros Hnone t plan Hl Hp j s Hj Hs.
  destruct (proj1 (Forall_lookup _ _) (Hnone t plan Hl Hp) j s Hj Hs).
Qed.

Section Engine.
Context (id : string) (idx : nat).
Context (Htools : tools_keep_plans id).

Global Instance keeps_plan_inv_preorder : PreOrder (keeps_plan_inv id idx).
Proof.
  split; [intros w Hinv; exact Hinv|].
  intros w1 w2 w3 H12 H23 Hinv. by apply H23, H12.
Qed.

Lemma keeps_now : preserves (keeps_plan_inv id idx) now.
Proof. intros w Hinv. exact Hinv. Qed.

Lemma keeps_llm bound msgs : preserves (keeps_plan_inv id idx) (invoke_llm bound msgs).
Proof. intros w Hinv. exact Hinv. Qed.

Lemma keeps_tool tool args :
  tool ∈ tools → preserves (keeps_plan_inv id idx) (invoke_tool tool args).
Proof.
  intros Hin w. unfold invoke_tool.
  pose proof (Htools tool Hin args w) as Hq.
  destruct (tool_invoke tool args w) as [r w'].
  by apply same_plan_keeps.
Qed.

Lemma keeps_runToolCalls calls : preserves (keeps_plan_inv id idx) (runToolCalls calls).
Proof.
  induction calls as [|c rest IH]; cbn [runToolCalls]; [monad_split|].
  apply preserves_bind; [apply _ | | intros pushed; monad_split; exact IH].
  destruct (find_tool (tc_name c)) as [tool|] eqn:Hfind; [|monad_split].
  apply preserves_bind; [apply _ | | intros r; monad_split].
  by apply keeps_tool, (BudgetSpec.find_tool_elem (tc_name c)).
Qed.

(** A write of the step at the current position. *)
Lemma keeps_updatePlanStep u :
  preserves (keeps_plan_inv id idx) (updatePlanStep id (Z.of_nat idx) u).
Proof.
  intros w Hinv.
  destruct (tickets w !! id) as [t|] eqn:Hl.
  - destruct (structuredPlan t) as [plan|] eqn:Hp.
    + rewrite (TicketsSpec.updatePlanStep_ok _ _ _ _ _ u Hl Hp). cbn [snd].
      intros t' plan'. cbn. rewrite lookup_insert_eq. intros [= <-]. cbn.
      intros [= <-]. cbn. apply updateSteps_only_at. by apply (Hinv t plan).
    + unfold updatePlanStep, bind. rewrite (TicketsSpec.get_found _ _ _ Hl), Hp.
      exact Hinv.
  - unfold updatePlanStep, bind. rewrite (TicketsSpec.get_missing _ _ Hl).
    exact Hinv.
Qed.

(** A write of another ticket's step. *)
Lemma keeps_updatePlanStep_other id' stepIndex u :
  id' ≠ id →
  preserves (keeps_plan_inv id idx) (updatePlanStep id' stepIndex u).
Proof.
  intros Hne w. apply same_plan_keeps. unfold same_plan.
  destruct (tickets w !! id') as [t|] eqn:Hl.
  - destruct (structuredPlan t) as [plan|] eqn:Hp.
    + rewrite (TicketsSpec.updatePlanStep_ok _ _ _ _ _ u Hl Hp). cbn.
      by rewrite lookup_insert_ne.
    + unfold updatePlanStep, bind. by rewrite (TicketsSpec.get_found _ _ _ Hl), Hp.
  - unfold updatePlanStep, bind. by rewrite (TicketsSpec.get_missing _ _ Hl).
Qed.

(** The engine's write of [completed] leaves no step in progress. *)
Lemma stamp_completed_none stepOutput w r w' :
  plan_inv id idx w →
  (let* t := now in
   let* _ := updatePlanStep id (Z.of_nat idx) (stepUpdate_completed t stepOutput) in
   ret tt) w = (r, w') →
  r = Ok tt →
  none_in_progress id w'.
Proof.
  intros Hinv Hrun ->.
  destruct (tickets w !! id) as [t|] eqn:Hl.
  - destruct (structuredPlan t) as [plan|] eqn:Hp.
    + rewrite (TicketsSpec.stamp_then_update _ _ _ _ _
                 (fun t => stepUpdate_completed t stepOutput) Hl Hp) in Hrun.
      injection Hrun as <-. intros t' plan'. cbn. rewrite lookup_insert_eq.
      intros [= <-]. cbn. intros [= <-]. cbn.
      apply updateSteps_completed_none; [by apply (Hinv t plan) | done].
    + exfalso. revert Hrun. unfold bind at 1. unfold now at 1. cbn [fst snd].
      unfold updatePlanStep, bind, get. cbn [tickets set_clockReads].
      rewrite Hl, Hp. discriminate.
  - exfalso. revert Hrun. unfold bind at 1. unfold now at 1. cbn [fst snd].
    unfold updatePlanStep, bind, get. cbn [tickets set_clockReads].
    rewrite Hl. discriminate.
Qed.
End Engine.

Lemma keeps_createExecuteNode state :
  tools_keep_plans (ticketId state) →
  preserves (keeps_plan_inv (ticketId state) (currentStepIndex state))
            (createExecuteNode true state).
Proof.
  intros Htools. unfold createExecuteNode. monad_split;
    first [ apply keeps_now | apply keeps_llm | apply keeps_updatePlanStep
          | by apply keeps_runToolCalls ].
Qed.

(** When the execute node moves on to the next step, the stored plan has
    no step in progress. *)
Lemma createExecuteNode_advances state w u w' :
  tools_keep_plans (ticketId state) →
  plan_inv (ticketId state) (currentStepIndex state) w →
  createExecuteNode true state w = (Ok u, w') →
  up_currentStepIndex u = None
  ∨ none_in_progress (ticketId state) w'.
Proof.
  intros Htools Hinv. unfold createExecuteNode.
  destruct (gs_structuredPlan state) as [plan|]; [|intros [= <- _]; by left].
  destruct (steps plan !! currentStepIndex state) as [currentStep|];
    [|intros [= <- _]; by left].
  cbn zeta. cbn [andb].
  set (mark := if bool_decide (step_status currentStep = step_pending)
               then _ else _).
  assert (preserves (keeps_plan_inv (ticketId state) (currentStepIndex state)) mark)
    as Hmark.
  { subst mark. monad_split; first [apply keeps_now | apply keeps_updatePlanStep]. }
  specialize (Hmark w Hinv).
  unfold bind at 1. destruct (mark w) as [[[]|e] w1]; [|discriminate].
  cbn [snd] in Hmark.
  unfold bind at 1. unfold invoke_llm at 1.
  destruct (llmWithTools_invoke _ _) as [response|e]; [|discriminate].
  set (w2 := set_llmCalls _ w1).
  assert (plan_inv (ticketId state) (currentStepIndex state) w2) as Hinv2
    by exact Hmark.
  destruct (tool_calls response) as [[|toolCall rest]|].
  - match goal with
    | |- bind ?m _ w2 = _ → _ =>
        unfold bind at 1; destruct (m w2) as [[[]|e] w3] eqn:Hdone
    end; [|discriminate].
    intros [= <- <-]. right.
    by eapply stamp_completed_none.
  - unfold bind at 1. destruct (runToolCalls _ w2) as [[pushed|e] w3];
      [|discriminate].
    intros [= <- _]. by left.
  - match goal with
    | |- bind ?m _ w2 = _ → _ =>
        unfold bind at 1; destruct (m w2) as [[[]|e] w3] eqn:Hdone
    end; [|discriminate].
    intros [= <- <-]. right.
    by eapply stamp_completed_none.
Qed.

(** X25. Provided the tools do not write the plan of the ticket: when every
    step of the stored plan that is in progress sits at the current step
    index, the execute node leaves it so, whether it returns or throws,
    so that the stored plan has at most one step in progress; and when the
    node moves on to the next step, no step of the stored plan is in
    progress. *)
Theorem execute_keeps_current_step (state : GraphState) (w : World) :
  tools_keep_plans (ticketId state) →
  plan_inv (ticketId state) (currentStepIndex state) w →
  let w' := snd (createExecuteNode true state w) in
  plan_inv (ticketId state) (currentStepIndex state) w'
  ∧ (∀ t plan, tickets w' !! ticketId state = Some t →
               structuredPlan t = Some plan →
               at_most_one_in_progress (steps plan))
  ∧ (∀ u, fst (createExecuteNode true state w) = Ok u →
          currentStepIndex (applyUpdate state u) ≠ currentStepIndex state →
          none_in_progress (ticketId state) w').
Proof.
  intros Htools Hinv w'.
  assert (plan_inv (ticketId state) (currentStepIndex state) w') as Hinv'.
  { by apply keeps_createExecuteNode. }
  split; [exact Hinv'|]. split.
  - intros t plan Hl Hp. eapply only_at_at_most_one. by apply (Hinv' t plan).
  - intros u Hrun Hidx. subst w'.
    destruct (createExecuteNode true state w) as [r w1] eqn:Hnode.
    cbn in Hrun. subst r.
    destruct (createExecuteNode_advances state w u w1 Htools Hinv Hnode)
      as [Hnone | Hdone]; [|exact Hdone].
    exfalso. apply Hidx. cbn. by rewrite Hnone.
Qed.
(** C8 (as amended). The writes of step statuses keep at most one step of
    a plan in progress under a condition on where they write.
    - [updatePlanStep], on a stored plan with at most one step in progress,
      leaves at most one step in progress provided the update does not set
      the status [in_progress], or every step that is in progress sits at
      the index written.
    - The execute node, provided the tools do not write the plan of the
      ticket: when every step of the stored plan that is in progress sits
      at the current step index, then after the node, whether it returned
      or threw, the stored plan has at most one step in progress, and the
      steps in progress sit at the step index of the state the node
      returns: the step is marked completed before the index advances. *)
Theorem step_writes_keep_single :
  (∀ (w : World) id t plan stepIndex u,
     tickets w !! id = Some t →
     structuredPlan t = Some plan →
     at_most_one_in_progress (steps plan) →
     (u_status u ≠ Some step_in_progress
      ∨ ∃ idx, stepIndex = Z.of_nat idx ∧ in_progress_only_at idx (steps plan)) →
     ∃ t' w' plan',
       updatePlanStep id stepIndex u w = (Ok t', w')
       ∧ tickets w' !! id = Some t'
       ∧ structuredPlan t' = Some plan'
       ∧ at_most_one_in_progress (steps plan'))
  ∧ (∀ (state : GraphState) (w : World),
       tools_keep_plans (ticketId state) →
       plan_inv (ticketId state) (currentStepIndex state) w →
       let w' := snd (createExecuteNode true state w) in
       (∀ t plan, tickets w' !! ticketId state = Some t →
                  structuredPlan t = Some plan →
                  at_most_one_in_progress (steps plan))
       ∧ ∀ u, fst (createExecuteNode true state w) = Ok u →
              plan_inv (ticketId state) (currentStepIndex (applyUpdate state u)) w').
Proof.
  split.
  - intros w id t plan stepIndex u Hl Hp Hone Hwhere.
    rewrite (TicketsSpec.updatePlanStep_ok _ _ _ _ stepIndex u Hl Hp).
    eexists _, _, _. split; [reflexivity|]. cbn. rewrite lookup_insert_eq.
    split; [reflexivity|]. split; [reflexivity|]. cbn.
    destruct Hwhere as [Hno | (idx & -> & Hat)].
    + unfold at_most_one_in_progress in *.
      pose proof (updateSteps_count_le (steps plan) stepIndex u Hno). lia.
    + eapply only_at_at_most_one. by apply updateSteps_only_at.
  - intros state w Htools Hinv w'.
    assert (plan_inv (ticketId state) (currentStepIndex state) w') as Hinv'.
    { by apply keeps_createExecuteNode. }
    split.
    + intros t plan Hl Hp. eapply only_at_at_most_one. by apply (Hinv' t plan).
    + intros u Hrun. subst w'.
      destruct (createExecuteNode true state w) as [r w1] eqn:Hnode.
      cbn in Hrun. subst r. cbn [snd] in *.
      destruct (createExecuteNode_advances state w u w1 Htools Hinv Hnode)
        as [Hnone | Hdone].
      * cbn. rewrite Hnone. exact Hinv'.
      * by apply none_in_progress_inv.
Qed.
End Proofs.

Lemma sample_tools_keep_plans responses :
  tools_keep_plans (H := Sample.env responses) "T-1".
Proof.
  intros tool Hin args w. cbn in Hin.
  repeat (apply elem_of_cons in Hin as [-> | Hin]; [by cbn|]).
  by apply elem_of_nil in Hin.
Qed.

Lemma updatePlanStep_keeps_single_witness :
  let H := Sample.env [] in
  let p := Sample.plan [Sample.step 0 step_in_progress; Sample.step 1 step_pending] None in
  let w := Sample.world (Sample.ticket st_in_progress (Some p)) in
  ∃ t' w' plan',
    updatePlanStep "T-1" 0 (stepUpdate_completed 7%nat "done") w = (Ok t', w')
    ∧ structuredPlan t' = Some plan'
    ∧ at_most_one_in_progress (steps plan').
Proof.
  intros H p w.
  destruct (updatePlanStep_keeps_single (H := H) w "T-1"
              (Sample.ticket st_in_progress (Some p)) p 0
              (stepUpdate_completed 7%nat "done")
              (lookup_singleton_eq _ _) eq_refl)
    as (t' & w' & plan' & Hrun & _ & Hp' & _ & _ & _ & Hone).
  exists t', w', plan'. split; [exact Hrun|]. split; [exact Hp'|].
  apply (Hone 0%nat eq_refl).
  intros [|[|j]] s; cbn; [done | by intros [= <-] | done].
Defined.

Lemma execute_keeps_current_step_witness :
  let H := Sample.env ["Did it"] in
  let p := Sample.plan [Sample.step 0 step_pending; Sample.step 1 step_pending] (Some 0%nat) in
  let w := Sample.world (Sample.ticket st_in_progress (Some p)) in
  let state := Sample.state (Some p) 0 ph_executing None None in
  none_in_progress "T-1" (snd (createExecuteNode true state w)).
Proof.
  intros H p w state.
  destruct (execute_keeps_current_step (H := H) state w) as (_ & _ & Hnext).
  - apply sample_tools_keep_plans.
  - intros t plan Hl Hp.
    assert (t = Sample.ticket st_in_progress (Some p)) as ->.
    { pose proof (lookup_singleton_eq (M := gmap string) "T-1"
                    (Sample.ticket st_in_progress (Some p))) as Hw.
      change (tickets w !! "T-1" = Some t) in Hl. unfold w, Sample.world in Hl.
      cbn [tickets ticket_id Sample.ticket] in Hl. congruence. }
    injection Hp as <-.
    intros [|[|j]] s; cbn; [by intros [= <-] | by intros [= <-] | done].
  - destruct (createExecuteNode true state w) as [[u|e] w1] eqn:Hrun;
      [|by vm_compute in Hrun].
    apply (Hnext u eq_refl).
    vm_compute in Hrun. injection Hrun as <- _. by vm_compute.
Defined.
Lemma step_writes_keep_single_witness :
  let H := Sample.env [] in
  let p := Sample.plan [Sample.step 0 step_in_progress; Sample.step 1 step_pending] None in
  let w := Sample.world (Sample.ticket st_in_progress (Some p)) in
  ∃ t' w' plan',
    updatePlanStep "T-1" 0 (stepUpdate_in_progress 7%nat) w = (Ok t', w')
    ∧ structuredPlan t' = Some plan'
    ∧ at_most_one_in_progress (steps plan').
Proof.
  intros H p w.
  destruct (step_writes_keep_single (H := H)) as [Hupdate _].
  destruct (Hupdate w "T-1" (Sample.ticket st_in_progress (Some p)) p 0%Z
              (stepUpdate_in_progress 7%nat) (lookup_singleton_eq _ _) eq_refl)
    as (t' & w' & plan' & Hrun & _ & Hp' & Hone).
  - unfold at_most_one_in_progress. vm_compute. lia.
  - right. exists 0%nat. split; [reflexivity|].
    intros [|[|j]] s; cbn; [done | by intros [= <-] | done].
  - exists t', w', plan'. split; [exact Hrun|]. split; [exact Hp' | exact Hone].
Defined.

(** C8 (as stated) fails: [updatePlanStep] merges into the step at the
    index it is given and looks at no other step. On a plan of two pending
    steps, marking step 0 [in_progress], as the execute node does, and then
    marking step 1 [in_progress] leaves two steps in progress, although the
    plan had at most one before each of the two writes. *)
Lemma updatePlanStep_second_in_progress :
  let H := Sample.env [] in
  let p := Sample.plan [Sample.step 0 step_pending; Sample.step 1 step_pending] None in
  let w := Sample.world (Sample.ticket st_in_progress (Some p)) in
  let w1 := snd (updatePlanStep "T-1" 0 (stepUpdate_in_progress 7%nat) w) in
  let w2 := snd (updatePlanStep "T-1" 1 (stepUpdate_in_progress 8%nat) w1) in
  (fmap (M := list) step_status <$> (steps <$> (tickets w1 !! "T-1" ≫= structuredPlan)))
  = Some [step_in_progress; step_pending]
  ∧ fst (updatePlanStep "T-1" 1 (stepUpdate_in_progress 8%nat) w1)
    = Ok (default (Sample.ticket st_in_progress None) (tickets w2 !! "T-1"))
  ∧ (fmap (M := list) step_status <$> (steps <$> (tickets w2 !! "T-1" ≫= structuredPlan)))
    = Some [step_in_progress; step_in_progress]
  ∧ ∀ plan', (tickets w2 !! "T-1" ≫= structuredPlan) = Some plan' →
             ¬ at_most_one_in_progress (steps plan').
Proof.
  intros H p w w1 w2.
  split; [vm_compute; reflexivity|].
  split; [vm_compute; reflexivity|].
  split; [vm_compute; reflexivity|].
  intros plan' Hp'. vm_compute in Hp'. injection Hp' as <-.
  unfold at_most_one_in_progress. vm_compute. lia.
Qed.
End StepsSpec.

(** ** Reading, extending and deleting checkpoints *)
Module CheckpointStoreSpec.
Import Checkpointer CheckpointerSpec.

Section Proofs.
Context `{Env}.

Lemma newest_None (rows : list CheckpointRow) : newest rows = None ↔ rows = [].
Proof.
  split; [|by intros ->]. destruct rows as [|r rows]; [done|]. cbn [newest].
  destruct (newest rows) as [r'|]; [|done].
  by destruct (created_at r <? created_at r')%nat.
Qed.

(** The rows a [getTuple] picks from. *)
Lemma getTuple_query (w : World) tid cid :
  tid ≠ EmptyString →
  let q := filter (fun r => row_ticket_id r = tid) (agent_states w) in
  let query := match cid with
               | Some c => if truthy (Some c)
                           then filter (fun r => row_checkpoint_id r = c) q else q
               | None => q
               end in
  getTuple (mkConfig (Some tid) cid) w
  = (Ok ((fun row =>
            mkTuple (mkConfig (Some tid) (Some (cp_id (row_state row))))
                    (row_state row) (row_metadata row)
                    (if truthy (parent_checkpoint_id row)
                     then Some (mkConfig (Some tid) (parent_checkpoint_id row))
                     else None)
                    (pending_writes row)) <$> newest query), w).
Proof.
  intros Hs. cbn zeta. unfold getTuple. cbn [thread_id checkpoint_id].
  rewrite (truthy_Some _ Hs). cbn [negb]. unfold bind, get_world.
  by destruct (newest _).
Qed.

Lemma getTuple_no_thread (w : World) tid cid :
  truthy tid = false → getTuple (mkConfig tid cid) w = (Ok None, w).
Proof.
  intros Ht. unfold getTuple. cbn [thread_id].
  destruct tid as [s|]; [|done]. by rewrite Ht.
Qed.

Lemma getTuple_reads (w : World) tid cid :
  ∃ found, getTuple (mkConfig tid cid) w = (Ok found, w).
Proof.
  destruct (truthy tid) eqn:Ht; [|by rewrite getTuple_no_thread; eauto].
  destruct tid as [thread|]; [|done].
  rewrite getTuple_query; [by eexists|]. by intros ->.
Qed.

(** X10. [getTuple] reads only: it never throws and never changes the
    world. Without a thread id, or with the empty string for one, it finds
    nothing; an empty checkpoint id counts as none given. What it returns
    comes from a stored row of the thread asked for, and of the checkpoint
    asked for if one is: the checkpoint and metadata of that row, a parent
    reference into the same thread exactly when the row names a parent.
    It returns nothing only when no such row is stored. *)
Theorem getTuple_stays_in_thread (w : World) (tid cid : option string) :
  ∃ found,
    getTuple (mkConfig tid cid) w = (Ok found, w)
    ∧ (truthy tid = false → found = None)
    ∧ getTuple (mkConfig tid (Some EmptyString)) w = getTuple (mkConfig tid None) w
    ∧ (∀ tuple, found = Some tuple →
         ∃ thread row,
           tid = Some thread
           ∧ row ∈ agent_states w
           ∧ row_ticket_id row = thread
           ∧ (∀ c, cid = Some c → c ≠ EmptyString → row_checkpoint_id row = c)
           ∧ t_checkpoint tuple = row_state row
           ∧ t_metadata tuple = row_metadata row
           ∧ thread_id (t_config tuple) = Some thread
           ∧ (∀ parent, t_parentConfig tuple = Some parent ↔
                parent = mkConfig (Some thread) (parent_checkpoint_id row)
                ∧ truthy (parent_checkpoint_id row) = true))
    ∧ (found = None → ∀ thread, tid = Some thread → thread ≠ EmptyString →
         ∀ row, row ∈ agent_states w → row_ticket_id row = thread →
                ∃ c, cid = Some c ∧ c ≠ EmptyString ∧ row_checkpoint_id row ≠ c).
Proof.
  destruct (truthy tid) eqn:Ht.
  2:{ exists None. rewrite !getTuple_no_thread by done.
      split; [done|]. split; [done|]. split; [done|]. split; [done|].
      intros _ thread -> Hs. by rewrite (truthy_Some _ Hs) in Ht. }
  destruct tid as [thread|]; [|done].
  assert (thread ≠ EmptyString) as Hs.
  { intros ->. done. }
  pose proof (getTuple_query w thread cid Hs) as Hget. cbn zeta in Hget.
  eexists. split; [exact Hget|]. split; [done|].
  split; [by rewrite !(getTuple_query _ _ _ Hs)|].
  set (q := filter (fun r => row_ticket_id r = thread) (agent_states w)) in *.
  split.
  - intros tuple Htuple.
    destruct (newest _) as [row|] eqn:Hnew; [|done].
    injection Htuple as <-. apply newest_elem in Hnew.
    assert (row ∈ q ∧ ∀ c, cid = Some c → c ≠ EmptyString → row_checkpoint_id row = c)
      as [Hq Hc].
    { destruct cid as [c|]; [|by split].
      destruct (truthy (Some c)) eqn:Htc.
      - apply list_elem_of_filter in Hnew as [Hc Hq].
        split; [exact Hq|]. by intros ? [= <-] _.
      - split; [exact Hnew|]. intros c' [= <-] Hc'.
        by rewrite (truthy_Some _ Hc') in Htc. }
    apply list_elem_of_filter in Hq as [Hthread Hin].
    exists thread, row. do 7 (split; [done|]). cbn.
    intros parent. destruct (truthy (parent_checkpoint_id row)).
    + split; [by intros [= <-] | by intros [-> _]].
    + split; [done | by intros [_ ?]].
  - intros Hnone thread' [= <-] _ row Hin Hthread.
    destruct (newest _) as [?|] eqn:Hnew; [done|].
    apply newest_None in Hnew.
    assert (row ∈ q) as Hq by (by apply list_elem_of_filter).
    destruct cid as [c|]; [|by rewrite Hnew in Hq; apply elem_of_nil in Hq].
    destruct (truthy (Some c)) eqn:Htc;
      [|by rewrite Hnew in Hq; apply elem_of_nil in Hq].
    exists c. split; [done|]. split.
    + intros ->. done.
    + intros Hc. assert (row ∈ filter (fun r => row_checkpoint_id r = c) q) as Hin'
        by (by apply list_elem_of_filter).
      rewrite Hnew in Hin'. by apply elem_of_nil in Hin'.
Qed.

(** A thread without rows has no checkpoint. *)
Lemma getTuple_none (w : World) tid cid :
  (∀ r, r ∈ agent_states w → row_ticket_id r ≠ tid) →
  getTuple (mkConfig (Some tid) cid) w = (Ok None, w).
Proof.
  intros Hno. destruct (decide (tid = EmptyString)) as [->|Hs].
  { by apply getTuple_no_thread. }
  rewrite (getTuple_query _ _ _ Hs).
  rewrite (filter_none (fun r => row_ticket_id r = tid)) by exact Hno.
  destruct cid as [c|]; [|done]. by destruct (truthy (Some c)).
Qed.

(** What [getTuple] finds depends on the rows of the thread only. *)
Lemma getTuple_ext (w1 w2 : World) tid cid :
  filter (fun r => row_ticket_id r = tid) (agent_states w1)
  = filter (fun r => row_ticket_id r = tid) (agent_states w2) →
  fst (getTuple (mkConfig (Some tid) cid) w1)
  = fst (getTuple (mkConfig (Some tid) cid) w2).
Proof.
  intros Heq. destruct (decide (tid = EmptyString)) as [->|Hs].
  { by rewrite !getTuple_no_thread. }
  rewrite !(getTuple_query _ _ _ Hs). cbn. by rewrite Heq.
Qed.

Lemma filter_filter_implied {A} (P Q : A → Prop) `{!∀ x, Decision (P x)}
    `{!∀ x, Decision (Q x)} (l : list A) :
  (∀ x, P x → Q x) → filter P (filter Q l) = filter P l.
Proof.
  intros HPQ. induction l as [|a l IH]; [done|]. rewrite !filter_cons.
  destruct (decide (Q a)) as [Hq|Hq].
  - rewrite filter_cons. by rewrite IH.
  - rewrite decide_False by (intros Hp; by apply Hq, HPQ). exact IH.
Qed.

(** X11. [deleteThread] never throws. Afterwards the thread has no
    checkpoint, whichever one is asked for; what [getTuple] finds for any
    other thread is what it found before; the tickets are untouched; and
    deleting again changes nothing. *)
Theorem deleteThread_clears_thread (w : World) (tid : string) :
  let w' := snd (deleteThread tid w) in
  deleteThread tid w = (Ok tt, w')
  ∧ (∀ cid, getTuple (mkConfig (Some tid) cid) w' = (Ok None, w'))
  ∧ (∀ tid' cid, tid' ≠ tid →
       fst (getTuple (mkConfig (Some tid') cid) w')
       = fst (getTuple (mkConfig (Some tid') cid) w))
  ∧ tickets w' = tickets w
  ∧ snd (deleteThread tid w') = w'.
Proof.
  cbn zeta. split; [done|]. split; [|split; [|split; [done|]]].
  - intros cid. apply getTuple_none. cbn.
    intros r Hr. by apply list_elem_of_filter in Hr as [Hne _].
  - intros tid' cid Hne. apply getTuple_ext. cbn.
    apply filter_filter_implied. intros r ->. exact Hne.
  - unfold deleteThread, modify, set_agent_states. cbn. f_equal.
    apply filter_filter_implied. auto.
Qed.

(** *** Pending writes *)

Lemma putWrites_found (w : World) tid cid writes taskId row :
  tid ≠ EmptyString → cid ≠ EmptyString →
  List.find (has_key tid cid) (agent_states w) = Some row →
  putWrites (mkConfig (Some tid) (Some cid)) writes taskId w
  = (Ok tt,
     set_agent_states
       (map (fun r =>
               if has_key tid cid r
               then mkCheckpointRow (row_ticket_id r) (row_checkpoint_id r)
                      (parent_checkpoint_id r) (row_state r) (row_metadata r)
                      (Some (default [] (pending_writes row)
                             ++ map (fun x => mkStoredWrite taskId (fst x) (snd x))
                                    writes)%list)
                      (created_at r) (Some (clock (clockReads w)))
               else r)
            (agent_states w))
       (set_clockReads (S (clockReads w)) w)).
Proof.
  intros Ht Hc Hfind. unfold putWrites. cbn [thread_id checkpoint_id].
  rewrite (truthy_Some _ Ht), (truthy_Some _ Hc). cbn [negb orb from_option id].
  unfold bind at 1. unfold get_world at 1. rewrite Hfind. reflexivity.
Qed.

Lemma find_key_unique (rows : list CheckpointRow) tid cid row :
  pk_unique rows → row ∈ rows → row_key row = (tid, cid) →
  List.find (has_key tid cid) rows = Some row.
Proof.
  induction rows as [|r rows IH]; intros Hpk Hin Hkey.
  - by apply elem_of_nil in Hin.
  - apply NoDup_cons in Hpk as [Hnotin Hpk]. cbn [List.find].
    destruct (has_key tid cid r) eqn:Hk.
    + apply has_key_spec in Hk.
      apply elem_of_cons in Hin as [-> | Hin]; [done|].
      exfalso. apply Hnotin. rewrite Hk, <- Hkey. by apply list_elem_of_fmap_2.
    + apply has_key_false in Hk.
      apply elem_of_cons in Hin as [-> | Hin]; [done|]. by apply IH.
Qed.

Lemma filter_key_unique (rows : list CheckpointRow) row :
  pk_unique rows → row ∈ rows →
  filter (fun r => row_key r = row_key row) rows = [row].
Proof.
  induction rows as [|r rows IH]; intros Hpk Hin.
  - by apply elem_of_nil in Hin.
  - apply NoDup_cons in Hpk as [Hnotin Hpk]. rewrite filter_cons.
    apply elem_of_cons in Hin as [-> | Hin].
    + rewrite decide_True by done. f_equal. apply filter_none.
      intros x Hx Hk. apply Hnotin. rewrite <- Hk. by apply list_elem_of_fmap_2.
    + rewrite decide_False; [by apply IH|].
      intros Hk. apply Hnotin. rewrite Hk. by apply list_elem_of_fmap_2.
Qed.

Lemma find_key_none (rows : list CheckpointRow) tid cid :
  (∀ r, r ∈ rows → row_key r ≠ (tid, cid)) →
  List.find (has_key tid cid) rows = None.
Proof.
  induction rows as [|r rows IH]; intros Hno; [done|]. cbn [List.find].
  rewrite (proj2 (has_key_false tid cid r)) by (apply Hno; left).
  apply IH. intros r' Hr'. apply Hno. by right.
Qed.

(** X12. [putWrites] needs a thread id and a checkpoint id, neither empty,
    and a stored checkpoint with that key: otherwise it throws and
    changes nothing. *)
Theorem putWrites_requires_checkpoint (w : World) (tid cid : option string)
    (writes : list (string * string)) (taskId : string) :
  (truthy tid = false ∨ truthy cid = false →
     putWrites (mkConfig tid cid) writes taskId w
     = (Throw (Error "thread_id and checkpoint_id are required in config.configurable"),
        w))
  ∧ (∀ thread c,
       tid = Some thread → cid = Some c →
       thread ≠ EmptyString → c ≠ EmptyString →
       (∀ r, r ∈ agent_states w → row_key r ≠ (thread, c)) →
       putWrites (mkConfig tid cid) writes taskId w
       = (Throw (Error ("Checkpoint not found: " ++ c)), w)).
Proof.
  split.
  - intros Hmiss. unfold putWrites. cbn [thread_id checkpoint_id].
    by destruct Hmiss as [-> | ->]; [|rewrite orb_true_r].
  - intros thread c -> -> Ht Hc Hno. unfold putWrites.
    cbn [thread_id checkpoint_id].
    rewrite (truthy_Some _ Ht), (truthy_Some _ Hc). cbn [negb orb from_option id].
    unfold bind at 1. unfold get_world at 1.
    by rewrite (find_key_none _ _ _ Hno).
Qed.

Lemma map_if_filter_ne {A} (P : A → Prop) `{!∀ x, Decision (P x)}
    (b : A → bool) (f : A → A) (l : list A) :
  (∀ x, b x = true ↔ P x) → (∀ x, P x → P (f x)) →
  filter (fun x => ¬ P x) (map (fun x => if b x then f x else x) l)
  = filter (fun x => ¬ P x) l.
Proof.
  intros Hb Hf. induction l as [|a l IH]; [done|]. cbn [map].
  rewrite !filter_cons, IH. destruct (b a) eqn:Hba.
  - apply Hb in Hba. rewrite !decide_False; [done | auto | auto].
  - done.
Qed.

Lemma map_if_filter_eq {A} (P : A → Prop) `{!∀ x, Decision (P x)}
    (b : A → bool) (f : A → A) (l : list A) :
  (∀ x, b x = true ↔ P x) → (∀ x, P x → P (f x)) →
  filter P (map (fun x => if b x then f x else x) l) = map f (filter P l).
Proof.
  intros Hb Hf. induction l as [|a l IH]; [done|]. cbn [map].
  rewrite !filter_cons, IH. destruct (b a) eqn:Hba.
  - apply Hb in Hba. rewrite !decide_True; [done | auto | auto].
  - assert (¬ P a) as Hn by (intros Hp; apply Hb in Hp; congruence).
    by rewrite !decide_False.
Qed.

(** X13. On a stored checkpoint [putWrites] appends: the row keeps its
    snapshot, metadata, parent and creation time, and its pending writes
    become those it had followed by the new ones, each tagged with the
    task id, in the order given. No other row changes, and [getTuple] for
    that checkpoint hands out the same snapshot with the extended writes. *)
Theorem putWrites_appends (w : World) (tid cid : string)
    (writes : list (string * string)) (taskId : string) (row : CheckpointRow) :
  tid ≠ EmptyString → cid ≠ EmptyString →
  pk_unique (agent_states w) →
  row ∈ agent_states w →
  row_key row = (tid, cid) →
  let all := (default [] (pending_writes row)
              ++ map (fun x => mkStoredWrite taskId (fst x) (snd x)) writes)%list in
  ∃ w' row' tuple,
    putWrites (mkConfig (Some tid) (Some cid)) writes taskId w = (Ok tt, w')
    ∧ filter (fun r => row_key r = (tid, cid)) (agent_states w') = [row']
    ∧ pending_writes row' = Some all
    ∧ row_state row' = row_state row
    ∧ row_metadata row' = row_metadata row
    ∧ parent_checkpoint_id row' = parent_checkpoint_id row
    ∧ created_at row' = created_at row
    ∧ filter (fun r => row_key r ≠ (tid, cid)) (agent_states w')
      = filter (fun r => row_key r ≠ (tid, cid)) (agent_states w)
    ∧ tickets w' = tickets w
    ∧ getTuple (mkConfig (Some tid) (Some cid)) w' = (Ok (Some tuple), w')
    ∧ t_checkpoint tuple = row_state row
    ∧ t_pendingWrites tuple = Some all.
Proof.
  intros Ht Hc Hpk Hin Hkey all.
  pose proof (find_key_unique _ _ _ _ Hpk Hin Hkey) as Hfind.
  pose proof (putWrites_found w tid cid writes taskId row Ht Hc Hfind) as Hput.
  match type of Hput with _ = (_, ?x) => set (w' := x) in * end.
  set (upd := fun r : CheckpointRow =>
         mkCheckpointRow (row_ticket_id r) (row_checkpoint_id r)
           (parent_checkpoint_id r) (row_state r) (row_metadata r)
           (Some all) (created_at r) (Some (clock (clockReads w)))).
  assert (filter (fun r => row_key r = (tid, cid)) (agent_states w) = [row]) as Hone.
  { rewrite <- Hkey. by apply filter_key_unique. }
  assert (filter (fun r => row_key r = (tid, cid)) (agent_states w') = [upd row])
    as Hrow'.
  { change (agent_states w')
      with (map (fun r => if has_key tid cid r then upd r else r) (agent_states w)).
    rewrite (map_if_filter_eq (fun r => row_key r = (tid, cid)));
      [by rewrite Hone | apply has_key_spec | done]. }
  assert (filter (fun r => row_key r ≠ (tid, cid)) (agent_states w')
          = filter (fun r => row_key r ≠ (tid, cid)) (agent_states w)) as Hothers.
  { change (agent_states w')
      with (map (fun r => if has_key tid cid r then upd r else r) (agent_states w)).
    apply (map_if_filter_ne (fun r => row_key r = (tid, cid)));
      [apply has_key_spec | done]. }
  destruct (getTuple_of_newest w' tid (Some cid) [upd row] (upd row) Ht)
    as (tuple & Hget & Hcp & _ & Hpw).
  { cbn zeta. rewrite (truthy_Some _ Hc), filter_by_key. by rewrite Hrow'. }
  { reflexivity. }
  exists w', (upd row), tuple.
  split; [exact Hput|]. split; [exact Hrow'|].
  do 5 (split; [reflexivity|]). split; [exact Hothers|].
  split; [reflexivity|]. split; [exact Hget|]. split; [exact Hcp | exact Hpw].
Qed.

(** *** Writing and reading back *)

(** X14. [put] without a thread id, or with the empty string for one,
    throws and changes nothing. With a thread id and a checkpoint whose key
    is not stored yet: when the ticket of the thread is not stored, the
    insert violates the foreign key of the table, [put] throws and neither
    a row nor a ticket changes; when the ticket is stored, [put] adds one
    row, after the rows that were there, touches no ticket, and returns the
    configuration that names the thread and the checkpoint. For a
    checkpoint that survives being written as JSON and parsed again (no
    message in its history, no number in the texts of its plan), reading it
    back by id returns the snapshot and metadata that were put, no pending
    writes, and a parent reference exactly when the configuration of the
    put named a parent; reading the latest checkpoint of the thread returns
    it too, provided the time of the put is later than the creation time of
    every row of the thread. *)
Theorem put_then_getTuple (w : World) (tid : option string)
    (parent : option string) (checkpoint : Checkpoint) (metadata : string) :
  (truthy tid = false →
     put (mkConfig tid parent) checkpoint metadata w
     = (Throw (Error "thread_id is required in config.configurable"), w))
  ∧ (∀ thread,
       tid = Some thread → thread ≠ EmptyString →
       pk_unique (agent_states w) →
       (∀ r, r ∈ agent_states w → row_key r ≠ (thread, cp_id checkpoint)) →
       let cfg := mkConfig (Some thread) (Some (cp_id checkpoint)) in
       let tuple :=
         mkTuple cfg checkpoint (Some metadata)
                 (if truthy parent then Some (mkConfig (Some thread) parent)
                  else None)
                 None in
       (tickets w !! thread = None →
          ∃ e w',
            put (mkConfig tid parent) checkpoint metadata w = (Throw e, w')
            ∧ agent_states w' = agent_states w
            ∧ tickets w' = tickets w)
       ∧ (is_Some (tickets w !! thread) →
          ∃ w',
            put (mkConfig tid parent) checkpoint metadata w = (Ok cfg, w')
            ∧ agent_states w'
              = (agent_states w
                 ++ [new_row thread parent checkpoint metadata
                             (clock (clockReads w))])%list
            ∧ tickets w' = tickets w
            ∧ (survives_json checkpoint →
               (cp_id checkpoint ≠ EmptyString →
                  getTuple cfg w' = (Ok (Some tuple), w'))
               ∧ ((∀ r, r ∈ agent_states w → row_ticket_id r = thread →
                        (created_at r < clock (clockReads w))%nat) →
                  getTuple (mkConfig (Some thread) None) w'
                  = (Ok (Some tuple), w'))))).
Proof.
  split.
  - intros Ht. unfold put. cbn [thread_id]. by rewrite Ht.
  - intros thread -> Hs Hpk Hfresh. cbn zeta. split.
    { intros Hnone. eexists _, _.
      split; [exact (put_no_ticket w thread parent checkpoint metadata Hs Hnone)|].
      done. }
    intros Hticket.
    pose proof (put_ok w thread parent checkpoint metadata Hs Hticket) as Hput.
    set (new := new_row thread parent checkpoint metadata (clock (clockReads w))) in *.
    assert (row_key new ∉ row_key <$> agent_states w) as Hnotin.
    { intros (r & Hk & Hin)%list_elem_of_fmap. by apply (Hfresh r Hin). }
    rewrite (insert_fresh new _ (agent_states w) Hnotin) in Hput.
    match type of Hput with _ = (_, ?x) => set (w' := x) in * end.
    assert (pk_unique (agent_states w')) as Hpk'.
    { unfold pk_unique. cbn. rewrite fmap_app. apply NoDup_app.
      split; [exact Hpk|]. split; [|apply NoDup_singleton].
      intros k Hk Hk'. apply list_elem_of_singleton in Hk'. by subst. }
    assert (new ∈ agent_states w') as Hin'.
    { cbn. apply elem_of_app. right. by left. }
    exists w'. split; [exact Hput|]. split; [reflexivity|]. split; [reflexivity|].
    intros _. split.
    + intros Hc. rewrite (getTuple_query _ _ _ Hs). cbn zeta.
      rewrite (truthy_Some _ Hc), filter_by_key.
      change (thread, cp_id checkpoint) with (row_key new).
      by rewrite (filter_key_unique _ _ Hpk' Hin').
    + intros Hlater. rewrite (getTuple_query _ _ _ Hs). cbn zeta.
      rewrite (newest_strict_max _ new); [done | by apply pk_unique_filter | |].
      * by apply list_elem_of_filter.
      * intros r [Hthread Hr]%list_elem_of_filter Hne.
        cbn in Hr. apply elem_of_app in Hr as [Hr | Hr].
        -- by apply Hlater.
        -- apply list_elem_of_singleton in Hr. by rewrite Hr in Hne.
Qed.

(** *** Listing *)

Lemma insert_desc_elem r l x :
  x ∈ CheckpointerList.insert_desc r l ↔ x = r ∨ x ∈ l.
Proof.
  induction l as [|y l IH]; cbn [CheckpointerList.insert_desc].
  - rewrite list_elem_of_singleton. split; [auto|]. intros [?|Hx]; [done|].
    by apply elem_of_nil in Hx.
  - destruct (created_at r <? created_at y)%nat.
    + rewrite !elem_of_cons, IH. tauto.
    + rewrite !elem_of_cons. tauto.
Qed.

Lemma sort_desc_elem l x : x ∈ CheckpointerList.sort_desc l ↔ x ∈ l.
Proof.
  induction l as [|y l IH]; [done|]. cbn.
  rewrite insert_desc_elem, elem_of_cons, IH. tauto.
Qed.

Lemma insert_desc_sorted r l :
  StronglySorted no_older l →
  StronglySorted no_older (CheckpointerList.insert_desc r l).
Proof.
  induction 1 as [|y l Hl IH Hy]; cbn [CheckpointerList.insert_desc].
  - by repeat constructor.
  - destruct (Nat.ltb_spec (created_at r) (created_at y)) as [Hlt|Hge].
    + constructor; [exact IH|]. apply Forall_forall. intros x Hx.
      apply insert_desc_elem in Hx as [-> | Hx].
      * unfold no_older. lia.
      * by apply (proj1 (Forall_forall _ _) Hy).
    + constructor; [by constructor|]. constructor; [exact Hge|].
      eapply Forall_impl; [exact Hy|]. unfold no_older. intros x Hx. lia.
Qed.

Lemma sort_desc_sorted l : StronglySorted no_older (CheckpointerList.sort_desc l).
Proof.
  induction l as [|y l IH]; [constructor|]. cbn. by apply insert_desc_sorted.
Qed.

Lemma in_take {A} (x : A) n l : x ∈ take n l → x ∈ l.
Proof. intros Hx. rewrite <- (take_drop n l). apply elem_of_app. by left. Qed.

Lemma in_drop {A} (x : A) n l : x ∈ drop n l → x ∈ l.
Proof. intros Hx. rewrite <- (take_drop n l). apply elem_of_app. by right. Qed.

Lemma sorted_take n (l : list CheckpointRow) :
  StronglySorted no_older l → StronglySorted no_older (take n l).
Proof.
  intros Hl. revert n. induction Hl as [|y l Hl IH Hy]; intros [|n]; cbn;
    try constructor; [apply IH|].
  apply Forall_forall. intros x Hx.
  apply (proj1 (Forall_forall _ _) Hy). by eapply in_take.
Qed.

Lemma sorted_take_drop n (l : list CheckpointRow) x y :
  StronglySorted no_older l → x ∈ take n l → y ∈ drop n l → no_older x y.
Proof.
  intros Hl. revert n. induction Hl as [|z l Hl IH Hz]; intros [|n]; cbn.
  - by intros ?%elem_of_nil.
  - by intros ?%elem_of_nil.
  - by intros ?%elem_of_nil.
  - intros [-> | Hx]%elem_of_cons Hy.
    + apply (proj1 (Forall_forall _ _) Hz). by eapply in_drop.
    + by apply (IH n).
Qed.

(** X30. [list] reads only and never throws. Without a thread id, or with
    the empty string for one, it yields nothing. Otherwise it yields the
    tuples of rows of the thread only, newest first; when [before] names a
    stored checkpoint of the thread, only rows created earlier than that
    one, and when it names none, [before] is ignored. With a [limit] above
    0 it yields at most that many rows, and a row it leaves out is no newer
    than any row it shows; a [limit] of 0 counts as no limit, and then, as
    without a limit, every such row is shown. *)
Theorem list_newest_first (w : World) (tid cid : option string)
    (options : option CheckpointerList.ListOptions) :
  (truthy tid = false →
     CheckpointerList.list (mkConfig tid cid) options w = (Ok [], w))
  ∧ (∀ thread, tid = Some thread → thread ≠ EmptyString →
       let before := options ≫= CheckpointerList.opt_before in
       let limit := options ≫= CheckpointerList.opt_limit in
       ∃ rows,
         CheckpointerList.list (mkConfig tid cid) options w
         = (Ok (map (tuple_of thread) rows), w)
         ∧ StronglySorted no_older rows
         ∧ (∀ r, r ∈ rows → listable w thread before r)
         ∧ (∀ n, limit = Some (S n) → (length rows ≤ S n)%nat)
         ∧ (∀ r, listable w thread before r →
                 r ∈ rows
                 ∨ ∃ n, limit = Some (S n)
                        ∧ length rows = S n
                        ∧ ∀ x, x ∈ rows → no_older x r)).
Proof.
  split.
  - intros Ht. unfold CheckpointerList.list. cbn [thread_id].
    destruct tid as [s|]; [|done]. by rewrite Ht.
  - intros thread -> Hs before limit.
    unfold CheckpointerList.list. cbn [thread_id].
    rewrite (truthy_Some _ Hs). cbn [negb]. unfold bind, get_world, ret.
    cbn zeta.
    set (query := match options with
                  | Some o => match CheckpointerList.opt_before o with
                              | Some _ => _
                              | None => _
                              end
                  | None => _
                  end).
    assert (∀ r, r ∈ query ↔ listable w thread before r) as Hquery.
    { intros r. unfold listable. subst query before.
      destruct options as [[lim [c|]]|];
        cbn [mbind option_bind CheckpointerList.opt_before].
      - destruct (decide (c = EmptyString)) as [->|Hc].
        + cbn [truthy String.eqb negb]. rewrite list_elem_of_filter. split; [|tauto].
          intros [? ?]. split; [done|]. split; [done|]. by intros ? ? [= <-].
        + rewrite (truthy_Some _ Hc).
          destruct (List.find _ _) as [b|] eqn:Hfind.
          * rewrite !list_elem_of_filter. split.
            -- intros (Hlt & Hth & Hin). split; [done|]. split; [done|].
               intros ? b' [= <-] _ Hf. rewrite Hfind in Hf.
               injection Hf as <-. exact Hlt.
            -- intros (Hin & Hth & Hlt). split; [|done]. by apply (Hlt c b).
          * rewrite list_elem_of_filter. split; [|tauto].
            intros [? ?]. split; [done|]. split; [done|].
            intros ? b' [= <-] _ Hf. rewrite Hfind in Hf. discriminate Hf.
      - rewrite list_elem_of_filter. split; [|tauto].
        intros [? ?]. by repeat split.
      - rewrite list_elem_of_filter. split; [|tauto].
        intros [? ?]. by repeat split. }
    set (sorted := CheckpointerList.sort_desc query).
    assert (StronglySorted no_older sorted) as Hsorted by apply sort_desc_sorted.
    assert (∀ r, r ∈ sorted ↔ listable w thread before r) as Hall.
    { intros r. unfold sorted. by rewrite sort_desc_elem. }
    assert (limit = None ∨ limit = Some 0%nat ∨ ∃ n, limit = Some (S n))
      as [Hlim | [Hlim | [n Hlim]]].
    { destruct limit as [[|n]|]; eauto. }
    + exists sorted. subst limit.
      destruct options as [[[lim|] bf]|]; try discriminate Hlim;
        (split; [reflexivity|]); (split; [exact Hsorted|]);
        (split; [intros r; apply Hall|]);
        (split; [by intros ? [=]|]); intros r Hr; left; by apply Hall.
    + exists sorted. subst limit.
      destruct options as [[[[|lim]|] bf]|]; try discriminate Hlim;
        (split; [reflexivity|]); (split; [exact Hsorted|]);
        (split; [intros r; apply Hall|]);
        (split; [by intros ? [=]|]); intros r Hr; left; by apply Hall.
    + exists (take (S n) sorted). subst limit.
      destruct options as [[[[|lim]|] bf]|]; try discriminate Hlim.
      injection Hlim as ->.
      split; [reflexivity|]. split; [by apply sorted_take|].
      split; [intros r Hr; apply Hall; by eapply in_take|].
      split; [intros ? [= <-]; rewrite length_take; lia|].
      intros r Hr. apply Hall in Hr.
      rewrite <- (take_drop (S n) sorted) in Hr.
      apply elem_of_app in Hr as [Hr | Hr]; [by left|].
      right. exists n. split; [done|]. split.
      * rewrite length_take.
        apply list_elem_of_lookup in Hr as [i Hi].
        apply lookup_lt_Some in Hi. rewrite length_drop in Hi. lia.
      * intros x Hx. by apply (sorted_take_drop (S n) sorted).
Qed.
End Proofs.

Lemma put_then_getTuple_witness :
  let H := Sample.env [] in
  let w := Sample.world (Sample.ticket st_in_progress None) in
  let cp := mkCheckpoint "cp-1" (Sample.state None 0 ph_planning None None) in
  ∃ w',
    put (mkConfig (Some "T-1") (Some "cp-0")) cp "loop" w
    = (Ok (mkConfig (Some "T-1") (Some "cp-1")), w')
    ∧ getTuple (mkConfig (Some "T-1") None) w'
      = (Ok (Some (mkTuple (mkConfig (Some "T-1") (Some "cp-1")) cp (Some "loop")
                           (Some (mkConfig (Some "T-1") (Some "cp-0"))) None)), w').
Proof.
  intros H w cp.
  destruct (put_then_getTuple (H := H) w (Some "T-1") (Some "cp-0") cp "loop")
    as [_ Hput].
  destruct (Hput "T-1" eq_refl) as [_ Hstored].
  - discriminate.
  - apply NoDup_nil_2.
  - intros r Hr. by apply elem_of_nil in Hr.
  - destruct Hstored as (w' & Hrun & _ & _ & Hread); [by eexists|].
    destruct Hread as [_ Hlatest]; [by split|].
    exists w'. split; [exact Hrun|]. apply Hlatest.
    intros r Hr. by apply elem_of_nil in Hr.
Defined.

Lemma list_newest_first_witness :
  let cp := fun i => mkCheckpoint i (Sample.state None 0 ph_planning None None) in
  let row := fun i (tm : nat) => mkCheckpointRow "T-1" i None (cp i) None None tm None in
  let w := mkWorld {[ "T-1" := Sample.ticket st_in_progress None ]}
             [row "a" 1%nat; row "b" 3%nat; row "c" 2%nat] 0 0 [] [] [] in
  CheckpointerList.list (mkConfig (Some "T-1") None)
    (Some (CheckpointerList.mkListOptions (Some 0%nat) (Some "b"))) w
  = (Ok (map (tuple_of "T-1") [row "c" 2%nat; row "a" 1%nat]), w).
Proof.
  intros cp row w.
  destruct (list_newest_first w (Some "T-1") None
              (Some (CheckpointerList.mkListOptions (Some 0%nat) (Some "b"))))
    as [_ Hlist].
  destruct (Hlist "T-1" eq_refl) as (rows & Hrun & _); [discriminate|].
  rewrite Hrun. vm_compute in Hrun. injection Hrun as Hrows.
  vm_compute. by rewrite Hrows.
Defined.

Lemma putWrites_appends_witness :
  let H := Sample.env [] in
  let cp := mkCheckpoint "cp-1" (Sample.state None 0 ph_planning None None) in
  let row := mkCheckpointRow "T-1" "cp-1" None cp (Some "m")
               (Some [mkStoredWrite "task-0" "phase" "planning"]) 0%nat None in
  let w := mkWorld {[ "T-1" := Sample.ticket st_in_progress None ]} [row] 0 0 [] [] [] in
  ∃ w' tuple,
    putWrites (mkConfig (Some "T-1") (Some "cp-1")) [("messages", "[]")] "task-1" w
    = (Ok tt, w')
    ∧ getTuple (mkConfig (Some "T-1") (Some "cp-1")) w' = (Ok (Some tuple), w')
    ∧ t_checkpoint tuple = cp
    ∧ t_pendingWrites tuple
      = Some [mkStoredWrite "task-0" "phase" "planning";
              mkStoredWrite "task-1" "messages" "[]"].
Proof.
  intros H cp row w.
  destruct (putWrites_appends (H := H) w "T-1" "cp-1" [("messages", "[]")] "task-1" row)
    as (w' & row' & tuple & Hput & _ & _ & _ & _ & _ & _ & _ & _ & Hget & Hcp & Hpw).
  - discriminate.
  - discriminate.
  - apply NoDup_singleton.
  - by left.
  - reflexivity.
  - by exists w', tuple.
Defined.
End CheckpointStoreSpec.

(** ** The operations of the ticket service *)
Module TicketOpsSpec.
Import Tickets.

Global Instance only_ticket_preorder id : PreOrder (only_ticket id).
Proof.
  split.
  - by intros w.
  - intros w1 w2 w3 [H12 Ha12] [H23 Ha23]. split; [|congruence].
    intros id' Hne. by rewrite H23, H12.
Qed.

Global Instance same_lifecycle_preorder id : PreOrder (same_lifecycle id).
Proof.
  split; [by intros w|]. intros w1 w2 w3 H12 H23.
  unfold same_lifecycle in *. congruence.
Qed.

Section Proofs.
Context `{Env}.

(** *** The outcome of an operation on a stored ticket *)

(** Read the clock, update the row, read the row back. *)
Lemma stamped_update (w : World) id t (f : Timestamp → Ticket → Ticket) :
  tickets w !! id = Some t →
  (let* tm := now in
   let* _ := update_where_id id (f tm) in
   get id) w
  = (Ok (f (clock (clockReads w)) t),
     set_tickets (<[id := f (clock (clockReads w)) t]> (tickets w))
       (set_clockReads (S (clockReads w)) w)).
Proof.
  intros Hl. unfold bind at 1. unfold now at 1. cbn [fst snd].
  by rewrite (TicketsSpec.update_then_get _ id t) by exact Hl.
Qed.

Lemma transitionStatus_allowed (w : World) id t target :
  tickets w !! id = Some t →
  status_includes (VALID_TRANSITIONS (status t)) target = true →
  let n := clockReads w in
  let t0 := set_updatedAt (clock n) (set_status target t) in
  let t' := if is_resolved target
            then set_resolvedAt (Some (clock (S n))) t0 else t0 in
  transitionStatus id target w
  = (Ok t', set_tickets (<[id := t']> (tickets w))
              (set_clockReads (if is_resolved target then S (S n) else S n) w)).
Proof.
  intros Hl Hin. cbn zeta. unfold transitionStatus.
  unfold bind at 1. rewrite (TicketsSpec.get_found _ _ _ Hl), Hin. cbn [negb].
  unfold bind at 1. unfold now at 1. cbn [fst snd].
  destruct (is_resolved target).
  - unfold bind at 1. unfold bind at 1. unfold now at 1. unfold ret at 1.
    by rewrite (TicketsSpec.update_then_get _ id t) by exact Hl.
  - unfold bind at 1. unfold ret at 1.
    by rewrite (TicketsSpec.update_then_get _ id t) by exact Hl.
Qed.

Lemma transitionStatus_refused (w : World) id t target :
  tickets w !! id = Some t →
  status_includes (VALID_TRANSITIONS (status t)) target = false →
  transitionStatus id target w
  = (Throw (InvalidStatusTransitionError (status t) target), w).
Proof.
  intros Hl Hin. unfold transitionStatus.
  unfold bind at 1. by rewrite (TicketsSpec.get_found _ _ _ Hl), Hin.
Qed.

(** Unfolds an operation on a stored ticket up to its outcome. *)
Ltac found Hl :=
  unfold update, approvePlan, requestApproval, grantApproval, denyApproval,
    askQuestion, answerQuestion, incrementTurn, addCommit, setWorkingBranch,
    setStructuredPlan, updatePlanStep;
  unfold bind at 1; rewrite (TicketsSpec.get_found _ _ _ Hl);
  repeat match goal with
         | |- context [match ?x with Some _ => _ | None => _ end] =>
             destruct x eqn:?
         end;
  try (cbn zeta; erewrite stamped_update by exact Hl).

Lemma requestApproval_ok (w : World) id t a :
  tickets w !! id = Some t →
  let t' := set_updatedAt (clock (clockReads w))
              (set_status st_awaiting_input (set_pendingApproval (Some a) t)) in
  requestApproval id a w
  = (Ok t', set_tickets (<[id := t']> (tickets w))
              (set_clockReads (S (clockReads w)) w)).
Proof. intros Hl. cbn zeta. by found Hl. Qed.

Lemma grantApproval_ok (w : World) id t a :
  tickets w !! id = Some t →
  pendingApproval t = Some a →
  let t' := set_updatedAt (clock (clockReads w))
              (set_status st_in_progress (set_pendingApproval None t)) in
  grantApproval id w
  = (Ok t', set_tickets (<[id := t']> (tickets w))
              (set_clockReads (S (clockReads w)) w)).
Proof. intros Hl Hp. cbn zeta. found Hl; first [reflexivity | congruence]. Qed.

Lemma denyApproval_ok (w : World) id t a :
  tickets w !! id = Some t →
  pendingApproval t = Some a →
  let t' := set_updatedAt (clock (clockReads w))
              (set_status st_in_progress (set_pendingApproval None t)) in
  denyApproval id w
  = (Ok t', set_tickets (<[id := t']> (tickets w))
              (set_clockReads (S (clockReads w)) w)).
Proof. intros Hl Hp. cbn zeta. found Hl; first [reflexivity | congruence]. Qed.

Lemma askQuestion_ok (w : World) id t q :
  tickets w !! id = Some t →
  let t' := set_updatedAt (clock (clockReads w))
              (set_status st_awaiting_input (set_pendingQuestion (Some q) t)) in
  askQuestion id q w
  = (Ok t', set_tickets (<[id := t']> (tickets w))
              (set_clockReads (S (clockReads w)) w)).
Proof. intros Hl. cbn zeta. by found Hl. Qed.

Lemma answerQuestion_ok (w : World) id t q answer :
  tickets w !! id = Some t →
  pendingQuestion t = Some q →
  let t' := set_updatedAt (clock (clockReads w))
              (set_status st_in_progress (set_pendingQuestion None t)) in
  answerQuestion id answer w
  = (Ok t', set_tickets (<[id := t']> (tickets w))
              (set_clockReads (S (clockReads w)) w)).
Proof. intros Hl Hp. cbn zeta. found Hl; first [reflexivity | congruence]. Qed.

Lemma addCommit_ok (w : World) id t c :
  tickets w !! id = Some t →
  let t' := set_updatedAt (clock (clockReads w))
              (set_commits (commits t ++ [c])%list t) in
  addCommit id c w
  = (Ok t', set_tickets (<[id := t']> (tickets w))
              (set_clockReads (S (clockReads w)) w)).
Proof. intros Hl. cbn zeta. by found Hl. Qed.

(** *** Missing tickets *)

Lemma exec_op_missing (w : World) id op :
  tickets w !! id = None →
  exec_op id op w = (Throw (TicketNotFoundError id), w).
Proof.
  intros Hl. pose proof (TicketsSpec.get_missing w id Hl) as Hget.
  destruct op; cbn [exec_op];
    unfold update, transitionStatus, approvePlan, requestApproval,
      grantApproval, denyApproval, askQuestion, answerQuestion,
      incrementTurn, addCommit, setWorkingBranch, setStructuredPlan,
      updatePlanStep;
    unfold bind at 1; by rewrite Hget.
Qed.

(** X1. On an id that is not stored, every operation of the ticket
    service throws [TicketNotFoundError] for that id and changes nothing. *)
Theorem ops_on_missing_ticket (w : World) (id : string) :
  tickets w !! id = None →
  (∀ op, exec_op id op w = (Throw (TicketNotFoundError id), w))
  ∧ getCurrentStep id w = (Throw (TicketNotFoundError id), w)
  ∧ (∀ auditService,
       Tickets.delete auditService id w = (Throw (TicketNotFoundError id), w)).
Proof.
  intros Hl. pose proof (TicketsSpec.get_missing w id Hl) as Hget.
  split; [|split].
  - intros op. by apply exec_op_missing.
  - unfold getCurrentStep, bind. by rewrite Hget.
  - intros auditService. unfold Tickets.delete. unfold bind at 1. by rewrite Hget.
Qed.

(** *** Isolation *)

Lemma only_ticket_now id : preserves (only_ticket id) now.
Proof. by intros w. Qed.

Lemma only_ticket_get id id' : preserves (only_ticket id) (get id').
Proof. intros w. unfold get. by destruct (tickets w !! id'). Qed.

Lemma only_ticket_update id f : preserves (only_ticket id) (update_where_id id f).
Proof.
  intros w. split; [|done]. intros id' Hne. cbn. by rewrite lookup_alter_ne.
Qed.

(** X2. An operation on one ticket leaves every other ticket and the
    checkpoint table as they were, whether it returns or throws. *)
Theorem exec_op_isolated (id : string) (op : ServiceOp) (w : World) :
  let w' := snd (exec_op id op w) in
  (∀ id', id' ≠ id → tickets w' !! id' = tickets w !! id')
  ∧ agent_states w' = agent_states w.
Proof.
  revert w. change (preserves (only_ticket id) (exec_op id op)).
  destruct op; cbn [exec_op];
    unfold update, transitionStatus, approvePlan, requestApproval,
      grantApproval, denyApproval, askQuestion, answerQuestion,
      incrementTurn, addCommit, setWorkingBranch, setStructuredPlan,
      updatePlanStep;
    monad_split;
    first [apply only_ticket_now | apply only_ticket_get | apply only_ticket_update].
Qed.

(** *** Failure is clean, success is stored *)

(** X3. An operation on a ticket either throws and leaves the world exactly
    as it was, or returns the ticket as it is stored afterwards; that
    ticket carries the time of the call as [updatedAt], and the ticket was
    stored before. *)
Theorem exec_op_atomic (id : string) (op : ServiceOp) (w : World) :
  match exec_op id op w with
  | (Throw e, w') => w' = w
  | (Ok t, w') =>
      tickets w' !! id = Some t
      ∧ is_Some (tickets w !! id)
      ∧ updatedAt t = clock (clockReads w)
      ∧ (clockReads w < clockReads w')%nat
  end.
Proof.
  destruct (tickets w !! id) as [t|] eqn:Hl.
  2:{ by rewrite (exec_op_missing _ _ _ Hl). }
  destruct op; cbn [exec_op].
  2:{ destruct (status_includes (VALID_TRANSITIONS (status t)) s) eqn:Hin.
      - rewrite (transitionStatus_allowed _ _ _ _ Hl Hin). cbn.
        rewrite lookup_insert_eq. destruct (is_resolved s); cbn; auto with lia.
      - by rewrite (transitionStatus_refused _ _ _ _ Hl Hin). }
  all: found Hl; try done; cbn; rewrite lookup_insert_eq; auto with lia.
Qed.

(** *** Bookkeeping *)

Lemma same_lifecycle_now id : preserves (same_lifecycle id) now.
Proof. by intros w. Qed.

Lemma same_lifecycle_get id id' : preserves (same_lifecycle id) (get id').
Proof. intros w. unfold get. by destruct (tickets w !! id'). Qed.

Lemma same_lifecycle_update id id' (f : Ticket → Ticket) :
  (∀ t, lifecycle (f t) = lifecycle t) →
  preserves (same_lifecycle id) (update_where_id id' f).
Proof.
  intros Hf w. unfold same_lifecycle. cbn.
  destruct (decide (id' = id)) as [->|Hne].
  - rewrite lookup_alter_eq. destruct (tickets w !! id) as [t|]; [|done].
    cbn. by rewrite Hf.
  - by rewrite lookup_alter_ne.
Qed.

(** X4. [update], [incrementTurn], [addCommit], [setWorkingBranch],
    [setStructuredPlan] and [updatePlanStep] never touch the status, the
    resolution time, the pending approval or the pending question of any
    ticket. *)
Theorem bookkeeping_keeps_lifecycle (id id' : string) (op : ServiceOp) (w : World) :
  is_bookkeeping op = true →
  (lifecycle <$> tickets (snd (exec_op id op w)) !! id')
  = (lifecycle <$> tickets w !! id').
Proof.
  intros Hop. revert w. change (preserves (same_lifecycle id') (exec_op id op)).
  destruct op; try discriminate Hop; cbn [exec_op];
    unfold update, incrementTurn, addCommit, setWorkingBranch,
      setStructuredPlan, updatePlanStep;
    monad_split;
    first [ apply same_lifecycle_now | apply same_lifecycle_get
          | apply same_lifecycle_update; intros t0;
            repeat match goal with
                   | |- context [match ?x with _ => _ end] => destruct x
                   end; reflexivity ].
Qed.

(** *** Approving a plan *)

(** X5. [approvePlan] on a ticket with a plan sets the status to
    [approved] whatever the status was (the transition table is not
    consulted), records the time of the call and the approver on the plan
    and keeps its steps; [resolvedAt] stays. Without a plan it throws
    [NoPlanError] and changes nothing. *)
Theorem approvePlan_ignores_table (w : World) (id : string) (t : Ticket)
    (by_ : string) :
  tickets w !! id = Some t →
  (∀ plan, structuredPlan t = Some plan →
     ∃ t' w' plan',
       approvePlan id by_ w = (Ok t', w')
       ∧ tickets w' !! id = Some t'
       ∧ status t' = st_approved
       ∧ resolvedAt t' = resolvedAt t
       ∧ structuredPlan t' = Some plan'
       ∧ approvedAt plan' = Some (clock (clockReads w))
       ∧ approvedBy plan' = Some by_
       ∧ steps plan' = steps plan
       ∧ Agent.hasApprovedPlan t' = true)
  ∧ (structuredPlan t = None →
       approvePlan id by_ w = (Throw (NoPlanError id), w)).
Proof.
  intros Hl. split.
  - intros plan Hp.
    destruct (approvePlan id by_ w) as [r w'] eqn:Hrun. revert Hrun.
    found Hl; try congruence. intros [= <- <-].
    match goal with Heq : Some _ = Some plan |- _ => injection Heq as -> end.
    eexists _, _, _. split; [reflexivity|]. cbn. rewrite lookup_insert_eq.
    repeat split.
  - intros Hp. found Hl; first [reflexivity | congruence].
Qed.

(** *** Approvals and questions *)

(** X6. After [requestApproval] the ticket awaits input and holds the
    request. Then [grantApproval] and [denyApproval] do the same to the
    ticket: both clear the request and set the status to [in_progress];
    apart from that and [updatedAt] the ticket is as it was before the
    request, except that its earlier status is not restored. With no
    request pending both throw [NoPendingApprovalError] and change
    nothing. *)
Theorem approval_round_trip (w : World) (id : string) (t : Ticket)
    (a : PendingApproval) :
  tickets w !! id = Some t →
  (∃ t1 w1 t2 w2,
      requestApproval id a w = (Ok t1, w1)
      ∧ status t1 = st_awaiting_input
      ∧ pendingApproval t1 = Some a
      ∧ grantApproval id w1 = (Ok t2, w2)
      ∧ denyApproval id w1 = (Ok t2, w2)
      ∧ t2 = set_updatedAt (clock (S (clockReads w)))
               (set_status st_in_progress (set_pendingApproval None t)))
  ∧ (pendingApproval t = None →
       grantApproval id w = (Throw (NoPendingApprovalError id), w)
       ∧ denyApproval id w = (Throw (NoPendingApprovalError id), w)).
Proof.
  intros Hl. split.
  - eexists _, _, _, _.
    split; [by apply requestApproval_ok|].
    split; [reflexivity|]. split; [reflexivity|].
    split; [by eapply grantApproval_ok; [apply lookup_insert_eq|]|].
    split; [by eapply denyApproval_ok; [apply lookup_insert_eq|]|].
    reflexivity.
  - intros Hp. split; found Hl; first [reflexivity | congruence].
Qed.

(** X7. After [askQuestion] the ticket awaits input and holds the
    question. [answerQuestion] then clears the question and sets the status
    to [in_progress]; the ticket it leaves does not depend on the answer,
    which is not stored. With no question pending it throws
    [NoPendingQuestionError] and changes nothing. *)
Theorem question_round_trip (w : World) (id : string) (t : Ticket)
    (q : PendingQuestion) :
  tickets w !! id = Some t →
  (∃ t1 w1 t2 w2,
      askQuestion id q w = (Ok t1, w1)
      ∧ status t1 = st_awaiting_input
      ∧ pendingQuestion t1 = Some q
      ∧ (∀ answer, answerQuestion id answer w1 = (Ok t2, w2))
      ∧ t2 = set_updatedAt (clock (S (clockReads w)))
               (set_status st_in_progress (set_pendingQuestion None t)))
  ∧ (pendingQuestion t = None →
       ∀ answer,
         answerQuestion id answer w = (Throw (NoPendingQuestionError id), w)).
Proof.
  intros Hl. split.
  - eexists _, _, _, _.
    split; [by apply askQuestion_ok|].
    split; [reflexivity|]. split; [reflexivity|].
    split; [intros answer; by eapply answerQuestion_ok; [apply lookup_insert_eq|]|].
    reflexivity.
  - intros Hp answer. found Hl; first [reflexivity | congruence].
Qed.

(** *** Commits *)

(** X8. [addCommit] appends: a sequence of [addCommit] calls on a stored
    ticket succeeds and leaves the commits the ticket had, followed by the
    new ones in the order of the calls. *)
Theorem addCommits_appends (id : string) (cs : list CommitInfo) :
  ∀ (w : World) (t : Ticket),
    tickets w !! id = Some t →
    ∃ w', addCommits id cs w = (Ok tt, w')
          ∧ (commits <$> tickets w' !! id) = Some (commits t ++ cs)%list.
Proof.
  induction cs as [|c cs IH]; intros w t Hl.
  - exists w. cbn. rewrite Hl. cbn. by rewrite app_nil_r.
  - cbn [addCommits]. unfold bind. rewrite (addCommit_ok _ _ _ c Hl).
    match goal with
    | |- context [addCommits id cs ?w1] =>
        destruct (IH w1 _ (lookup_insert_eq _ _ _)) as (w' & Hrun & Hc)
    end.
    exists w'. split; [exact Hrun|]. rewrite Hc. cbn. by rewrite <- app_assoc.
Qed.

(** *** Editing a ticket *)

(** X9. [update] on a stored ticket sets the title, description, priority
    and turn limit that the input gives and keeps those it does not give;
    the id, status, creation and resolution times, plan, turn counter,
    token usage, pending approval and question, branch and commits are as
    they were. *)
Theorem update_changes_given_fields (w : World) (id : string) (t : Ticket)
    (input : UpdateTicketInput) :
  tickets w !! id = Some t →
  ∃ t' w',
    update id input w = (Ok t', w')
    ∧ tickets w' !! id = Some t'
    ∧ title t' = default (title t) (in_title input)
    ∧ description t' = default (description t) (in_description input)
    ∧ priority t' = default (priority t) (in_priority input)
    ∧ maxTurns t' = default (maxTurns t) (in_maxTurns input)
    ∧ fixed_fields t' = fixed_fields t.
Proof.
  intros Hl.
  destruct (update id input w) as [r w'] eqn:Hrun. revert Hrun.
  unfold update. unfold bind at 1. rewrite (TicketsSpec.get_found _ _ _ Hl).
  cbn beta. erewrite stamped_update by exact Hl.
  intros [= <- <-]. eexists _, _. split; [reflexivity|]. cbn.
  rewrite lookup_insert_eq.
  destruct input as [[?|] [?|] [?|] [?|]]; by cbn.
Qed.

(** *** Creating and deleting *)

(** X15. [create], when the fresh id is not stored yet, stores and returns
    a ticket under that id: a draft with no plan, no turn used, no tokens
    counted, nothing pending, no branch and no commits, created and
    updated at the time of the call; the priority is [medium] and the
    turn limit the service default unless the input gives them. [get]
    then returns the ticket; every other ticket and the checkpoint table
    are untouched. *)
Theorem create_stores_draft (w : World) (defaultMaxTurns : Z)
    (input : CreateTicketInput) :
  let id := randomUUID (uuidReads w) in
  tickets w !! id = None →
  ∃ t w',
    create defaultMaxTurns input w = (Ok t, w')
    ∧ get id w' = (Ok t, w')
    ∧ t = mkTicket id (new_title input) (new_description input) st_draft
                   (default pr_medium (new_priority input))
                   (clock (clockReads w)) (clock (clockReads w)) None None 0
                   (default defaultMaxTurns (new_maxTurns input))
                   (mkTokenUsage 0 0 0) None None None []
    ∧ (∀ id', id' ≠ id → tickets w' !! id' = tickets w !! id')
    ∧ agent_states w' = agent_states w.
Proof.
  intros id Hfresh. unfold create.
  unfold bind at 1. unfold now at 1. cbn [fst snd].
  unfold bind at 1. unfold newUUID at 1. cbn [fst snd].
  unfold bind at 1. unfold get_world at 1. cbn [tickets set_uuidReads set_clockReads
    uuidReads clockReads].
  fold id. rewrite Hfresh. unfold bind, modify, ret.
  eexists _, _. split; [reflexivity|]. split.
  { unfold get. cbn. by rewrite lookup_insert_eq. }
  split; [reflexivity|]. split; [|reflexivity].
  intros id' Hne. cbn. by rewrite lookup_insert_ne.
Qed.

(** An audit entry: without an audit service nothing happens; with one the
    insert goes through exactly when the ticket is stored. Neither a ticket
    nor a checkpoint row changes. *)
Lemma audit_outcome (auditService : bool) (id : string) (w : World) :
  ∃ r w',
    Audit.audit auditService id w = (r, w')
    ∧ (if auditService && bool_decide (tickets w !! id = None)
       then ∃ e, r = Throw e else r = Ok tt)
    ∧ tickets w' = tickets w
    ∧ agent_states w' = agent_states w.
Proof.
  unfold Audit.audit. destruct auditService; cbn [andb].
  - unfold Audit.log, bind, now, newUUID, get_world. cbn [fst snd].
    cbn [tickets set_uuidReads set_clockReads].
    destruct (tickets w !! id) as [t|] eqn:Hl.
    + rewrite bool_decide_eq_true_2 by (by eexists).
      rewrite bool_decide_eq_false_2 by done.
      eexists _, _. split; [reflexivity|]. done.
    + rewrite bool_decide_eq_false_2 by (by intros [? ?]).
      rewrite bool_decide_eq_true_2 by done.
      eexists _, _. split; [reflexivity|]. split; [by eexists|]. done.
  - eexists _, _. split; [reflexivity|]. done.
Qed.

(** X16. [delete] on a stored ticket removes the ticket and every
    checkpoint row of its thread and nothing else: [get] then throws
    [TicketNotFoundError], the thread has no checkpoint left, and every
    other ticket and the rows of every other thread are as they were.
    Without an audit service [delete] returns normally. With one it throws
    all the same, the removal done: the audit entry it writes last refers
    to the ticket it has removed, and the insert violates the foreign key
    of the audit log. *)
Theorem delete_removes_ticket_and_thread (auditService : bool) (w : World)
    (id : string) (t : Ticket) :
  tickets w !! id = Some t →
  ∃ r w',
    Tickets.delete auditService id w = (r, w')
    ∧ (if auditService then ∃ e, r = Throw e else r = Ok tt)
    ∧ get id w' = (Throw (TicketNotFoundError id), w')
    ∧ (∀ cid, Checkpointer.getTuple (Checkpointer.mkConfig (Some id) cid) w'
              = (Ok None, w'))
    ∧ (∀ id', id' ≠ id → tickets w' !! id' = tickets w !! id')
    ∧ (∀ r, r ∈ agent_states w' ↔ r ∈ agent_states w ∧ row_ticket_id r ≠ id).
Proof.
  intros Hl. unfold Tickets.delete.
  unfold bind at 1. rewrite (TicketsSpec.get_found _ _ _ Hl).
  unfold bind at 1. unfold modify at 1.
  unfold bind at 1. unfold modify at 1.
  set (w1 := set_tickets _ _).
  assert (tickets w1 !! id = None) as Hgone.
  { subst w1. cbn. apply lookup_delete_eq. }
  destruct (audit_outcome auditService id w1) as (r & w' & Hrun & Hr & Ht & Hrows).
  rewrite (bool_decide_eq_true_2 _ Hgone), andb_true_r in Hr.
  exists r, w'. split; [exact Hrun|]. split; [exact Hr|]. split.
  { apply TicketsSpec.get_missing. by rewrite Ht. }
  split.
  { intros cid. apply CheckpointStoreSpec.getTuple_none. rewrite Hrows.
    subst w1. cbn.
    intros r0 Hr0. by apply list_elem_of_filter in Hr0 as [Hne _]. }
  split.
  { intros id' Hne. rewrite Ht. subst w1. cbn. by rewrite lookup_delete_ne. }
  intros r0. rewrite Hrows. subst w1. cbn. rewrite list_elem_of_filter. tauto.
Qed.

(** *** The current step *)

Lemma find_first {A} (p : A → bool) (l : list A) :
  match List.find p l with
  | Some x => ∃ i, l !! i = Some x ∧ p x = true
                   ∧ ∀ j y, (j < i)%nat → l !! j = Some y → p y = false
  | None => Forall (fun y => p y = false) l
  end.
Proof.
  induction l as [|a l IH]; [by constructor|]. cbn [List.find].
  destruct (p a) eqn:Hpa.
  - exists 0%nat. split; [done|]. split; [done|]. intros j y Hj. lia.
  - destruct (List.find p l) as [x|].
    + destruct IH as (i & Hi & Hpx & Hbefore). exists (S i).
      split; [done|]. split; [done|]. intros [|j] y Hj; cbn.
      * by intros [= <-].
      * apply Hbefore. lia.
    + by constructor.
Qed.

(** X17. [getCurrentStep] on a stored ticket reads only. It returns the
    first step of the stored plan whose status is [in_progress], whatever
    the steps after it hold; and nothing when the ticket has no plan or no
    step of the plan is in progress. *)
Theorem getCurrentStep_finds_first (w : World) (id : string) (t : Ticket) :
  tickets w !! id = Some t →
  ∃ found,
    getCurrentStep id w = (Ok found, w)
    ∧ (structuredPlan t = None → found = None)
    ∧ (∀ plan, structuredPlan t = Some plan →
         match found with
         | Some s =>
             ∃ i, steps plan !! i = Some s
                  ∧ step_status s = step_in_progress
                  ∧ ∀ j s', (j < i)%nat → steps plan !! j = Some s' →
                            step_status s' ≠ step_in_progress
         | None =>
             Forall (fun s => step_status s ≠ step_in_progress) (steps plan)
         end).
Proof.
  intros Hl. unfold getCurrentStep. unfold bind.
  rewrite (TicketsSpec.get_found _ _ _ Hl).
  destruct (structuredPlan t) as [plan|]; [|by exists None].
  eexists. split; [reflexivity|]. split; [done|]. intros ? [= <-].
  pose proof (find_first
    (fun step => bool_decide (step_status step = step_in_progress)) (steps plan))
    as Hfind.
  destruct (List.find _ (steps plan)) as [s|].
  - destruct Hfind as (i & Hi & Hs & Hbefore). exists i.
    split; [done|]. split; [by apply bool_decide_eq_true in Hs|].
    intros j s' Hj Hs'. specialize (Hbefore j s' Hj Hs').
    by apply bool_decide_eq_false in Hbefore.
  - eapply Forall_impl; [exact Hfind|]. intros s Hs.
    by apply bool_decide_eq_false in Hs.
Qed.

Lemma find_at {A} (p : A → bool) (l : list A) i x :
  l !! i = Some x → p x = true →
  (∀ j y, (j < i)%nat → l !! j = Some y → p y = false) →
  List.find p l = Some x.
Proof.
  revert i. induction l as [|a l IH]; intros i Hi Hpx Hbefore; [done|].
  cbn [List.find]. destruct i as [|i].
  - injection Hi as ->. by rewrite Hpx.
  - rewrite (Hbefore 0%nat a) by (lia || done).
    apply (IH i); [done | done |]. intros j y Hj Hy. apply (Hbefore (S j)); [lia | done].
Qed.

(** X18. After [updatePlanStep] has set a step of the stored plan to
    [in_progress], [getCurrentStep] returns that step as updated, provided
    no earlier step of the plan is in progress; a later step that is in
    progress too does not change the answer. *)
Theorem getCurrentStep_after_update (w : World) (id : string) (t : Ticket)
    (plan : StructuredPlan) (idx : nat) (s : PlanStep) (u : PlanStepUpdate) :
  tickets w !! id = Some t →
  structuredPlan t = Some plan →
  steps plan !! idx = Some s →
  u_status u = Some step_in_progress →
  (∀ j s', (j < idx)%nat → steps plan !! j = Some s' →
           step_status s' ≠ step_in_progress) →
  ∃ t' w',
    updatePlanStep id (Z.of_nat idx) u w = (Ok t', w')
    ∧ getCurrentStep id w' = (Ok (Some (mergeStep s u)), w').
Proof.
  intros Hl Hp Hs Hu Hbefore.
  rewrite (TicketsSpec.updatePlanStep_ok _ _ _ _ (Z.of_nat idx) u Hl Hp).
  eexists _, _. split; [reflexivity|].
  unfold getCurrentStep, bind, get. cbn. rewrite lookup_insert_eq. cbn.
  unfold ret. do 2 f_equal.
  apply (find_at _ _ idx).
  - rewrite TicketsSpec.updateSteps_lookup, Hs. cbn.
    by rewrite bool_decide_eq_true_2.
  - apply bool_decide_eq_true. unfold mergeStep. cbn. by rewrite Hu.
  - intros j y Hj. rewrite TicketsSpec.updateSteps_lookup.
    destruct (steps plan !! j) as [s'|] eqn:Hj'; [|done]. cbn.
    rewrite bool_decide_eq_false_2 by lia. intros [= <-].
    apply bool_decide_eq_false_2. by apply (Hbefore j).
Qed.
End Proofs.

Lemma ops_on_missing_ticket_witness :
  let H := Sample.env [] in
  let w := Sample.world (Sample.ticket st_draft None) in
  exec_op "T-2" (op_transitionStatus st_cancelled) w
  = (Throw (TicketNotFoundError "T-2"), w).
Proof.
  intros H w.
  destruct (ops_on_missing_ticket (H := H) w "T-2") as [Hops _];
    [reflexivity | apply Hops].
Defined.

Lemma create_stores_draft_witness :
  let H := Sample.env [] in
  let w := Sample.world (Sample.ticket st_draft None) in
  ∃ t w',
    create 50 (mkCreateTicketInput "Rotate the certificates" "Before they expire"
                 None (Some 10%Z)) w = (Ok t, w')
    ∧ ticket_id t = "uuid-0" ∧ status t = st_draft ∧ priority t = pr_medium
    ∧ maxTurns t = 10%Z.
Proof.
  intros H w.
  destruct (create_stores_draft (H := H) w 50
              (mkCreateTicketInput "Rotate the certificates" "Before they expire"
                 None (Some 10%Z)))
    as (t & w' & Hrun & _ & Ht & _).
  - reflexivity.
  - exists t, w'. split; [exact Hrun|]. by rewrite Ht.
Defined.

Lemma delete_removes_ticket_and_thread_witness :
  let H := Sample.env [] in
  let w := Sample.world (Sample.ticket st_completed None) in
  ∃ e w', Tickets.delete true "T-1" w = (Throw e, w')
          ∧ get "T-1" w' = (Throw (TicketNotFoundError "T-1"), w').
Proof.
  intros H w.
  destruct (delete_removes_ticket_and_thread (H := H) true w "T-1"
              (Sample.ticket st_completed None) (lookup_singleton_eq _ _))
    as (r & w' & Hrun & [e ->] & Hget & _).
  exists e, w'. split; [exact Hrun | exact Hget].
Defined.

Lemma getCurrentStep_finds_first_witness :
  let H := Sample.env [] in
  let p := Sample.plan [Sample.step 0 step_completed; Sample.step 1 step_in_progress;
                        Sample.step 2 step_in_progress] None in
  let w := Sample.world (Sample.ticket st_in_progress (Some p)) in
  getCurrentStep "T-1" w = (Ok (Some (Sample.step 1 step_in_progress)), w).
Proof.
  intros H p w.
  destruct (getCurrentStep_finds_first w "T-1"
              (Sample.ticket st_in_progress (Some p)) (lookup_singleton_eq _ _))
    as (found & Hrun & _ & Hplan).
  rewrite Hrun. specialize (Hplan p eq_refl).
  destruct found as [s|].
  - destruct Hplan as (i & Hi & Hs & Hbefore).
    destruct i as [|[|[|i]]]; cbn in Hi; try discriminate Hi.
    + injection Hi as <-. discriminate Hs.
    + by injection Hi as <-.
    + exfalso. by apply (Hbefore 1%nat (Sample.step 1 step_in_progress)); [lia| |].
  - exfalso. apply Forall_cons in Hplan as [_ Hplan].
    by apply Forall_cons in Hplan as [Hp1 _].
Defined.

Lemma getCurrentStep_after_update_witness :
  let H := Sample.env [] in
  let p := Sample.plan [Sample.step 0 step_completed; Sample.step 1 step_pending] None in
  let w := Sample.world (Sample.ticket st_in_progress (Some p)) in
  ∃ t' w',
    updatePlanStep "T-1" 1 (Graph.stepUpdate_in_progress 7%nat) w = (Ok t', w')
    ∧ getCurrentStep "T-1" w'
      = (Ok (Some (mergeStep (Sample.step 1 step_pending)
                             (Graph.stepUpdate_in_progress 7%nat))), w').
Proof.
  intros H p w.
  apply (getCurrentStep_after_update (H := H) w "T-1"
           (Sample.ticket st_in_progress (Some p)) p 1
           (Sample.step 1 step_pending) (Graph.stepUpdate_in_progress 7%nat)).
  - apply lookup_singleton_eq.
  - reflexivity.
  - reflexivity.
  - reflexivity.
  - intros [|j] s' Hj; [|lia]. by intros [= <-].
Defined.

Lemma bookkeeping_keeps_lifecycle_witness :
  let H := Sample.env [] in
  let w := Sample.world (Sample.ticket st_completed None) in
  (lifecycle <$> tickets (snd (exec_op "T-1" (op_incrementTurn None) w)) !! "T-1")
  = (lifecycle <$> tickets w !! "T-1").
Proof.
  intros H w.
  apply (bookkeeping_keeps_lifecycle (H := H) "T-1" "T-1" (op_incrementTurn None) w).
  reflexivity.
Defined.

Lemma approvePlan_ignores_table_witness :
  let H := Sample.env [] in
  let p := Sample.plan [Sample.step 0 step_completed] None in
  let w := Sample.world (Sample.ticket st_completed (Some p)) in
  ∃ t' w', approvePlan "T-1" "user" w = (Ok t', w') ∧ status t' = st_approved.
Proof.
  intros H p w.
  destruct (approvePlan_ignores_table (H := H) w "T-1"
              (Sample.ticket st_completed (Some p)) "user"
              (lookup_singleton_eq _ _)) as [Hok _].
  destruct (Hok p eq_refl) as (t' & w' & plan' & Hrun & _ & Hst & _).
  by exists t', w'.
Defined.

Lemma approval_round_trip_witness :
  let H := Sample.env [] in
  let w := Sample.world (Sample.ticket st_paused None) in
  grantApproval "T-1" w = (Throw (NoPendingApprovalError "T-1"), w).
Proof.
  intros H w.
  destruct (approval_round_trip (H := H) w "T-1" (Sample.ticket st_paused None)
              (mkPendingApproval ap_action "Delete the volume" None 0%nat)
              (lookup_singleton_eq _ _)) as [_ Hnone].
  by destruct (Hnone eq_refl).
Defined.

Lemma question_round_trip_witness :
  let H := Sample.env [] in
  let w := Sample.world (Sample.ticket st_in_progress None) in
  answerQuestion "T-1" "yes" w = (Throw (NoPendingQuestionError "T-1"), w).
Proof.
  intros H w.
  destruct (question_round_trip (H := H) w "T-1"
              (Sample.ticket st_in_progress None)
              (mkPendingQuestion "Which namespace?" None 0%nat)
              (lookup_singleton_eq _ _)) as [_ Hnone].
  by apply Hnone.
Defined.

Lemma addCommits_appends_witness :
  let H := Sample.env [] in
  let w := Sample.world (Sample.ticket st_in_progress None) in
  let cs := [mkCommitInfo "abc1234" "first" 1%nat; mkCommitInfo "def5678" "second" 2%nat] in
  ∃ w', addCommits "T-1" cs w = (Ok tt, w')
        ∧ (commits <$> tickets w' !! "T-1") = Some cs.
Proof.
  intros H w cs.
  apply (addCommits_appends (H := H) "T-1" cs w (Sample.ticket st_in_progress None)).
  apply lookup_singleton_eq.
Defined.

Lemma update_changes_given_fields_witness :
  let H := Sample.env [] in
  let w := Sample.world (Sample.ticket st_draft None) in
  ∃ t' w',
    update "T-1" (mkUpdateTicketInput (Some "New title") None None (Some 5%Z)) w
    = (Ok t', w')
    ∧ title t' = "New title" ∧ maxTurns t' = 5%Z ∧ status t' = st_draft.
Proof.
  intros H w.
  destruct (update_changes_given_fields (H := H) w "T-1"
              (Sample.ticket st_draft None)
              (mkUpdateTicketInput (Some "New title") None None (Some 5%Z))
              (lookup_singleton_eq _ _))
    as (t' & w' & Hrun & _ & Ht & _ & _ & Hm & Hfix).
  exists t', w'. split; [exact Hrun|]. split; [exact Ht|]. split; [exact Hm|].
  by injection Hfix.
Defined.
End TicketOpsSpec.

(** ** Invocations of the graph *)
Module EngineSpec.
Import Graph.

Lemma llm_grows_trans a b (w1 w2 w3 : World) :
  llm_grows a w1 w2 → llm_grows b w2 w3 → llm_grows (a + b) w1 w3.
Proof.
  intros (c1 & H1 & L1) (c2 & H2 & L2). exists (c1 ++ c2)%list.
  rewrite H2, H1, <- app_assoc, length_app. split; [done | lia].
Qed.

Lemma llm_grows_weaken a b (w w' : World) :
  (a ≤ b)%nat → llm_grows a w w' → llm_grows b w w'.
Proof. intros Hab (c & Hc & Hl). exists c. split; [done | lia]. Qed.

Lemma llm_grows_same (w w' : World) : llmCalls w' = llmCalls w → llm_grows 0 w w'.
Proof. intros Heq. exists []. by rewrite Heq, app_nil_r. Qed.

Global Instance llm_grows_preorder : PreOrder (llm_grows 0).
Proof.
  split.
  - intros w. by apply llm_grows_same.
  - intros w1 w2 w3 H12 H23. apply (llm_grows_trans 0 0 w1 w2 w3 H12 H23).
Qed.

Create HintDb llm discriminated.

Section Proofs.
Context `{Env}.

(** *** Calls of the reasoning engine *)

Lemma no_llm_now : preserves (llm_grows 0) now.
Proof. intros w. by apply llm_grows_same. Qed.

Lemma no_llm_uuid : preserves (llm_grows 0) newUUID.
Proof. intros w. by apply llm_grows_same. Qed.

Lemma no_llm_get id : preserves (llm_grows 0) (Tickets.get id).
Proof.
  intros w. apply llm_grows_same. unfold Tickets.get. by destruct (tickets w !! id).
Qed.

Lemma no_llm_update id f : preserves (llm_grows 0) (Tickets.update_where_id id f).
Proof. intros w. by apply llm_grows_same. Qed.

Lemma no_llm_tool tool args : preserves (llm_grows 0) (invoke_tool tool args).
Proof.
  intros w. apply llm_grows_same. unfold invoke_tool.
  by destruct (tool_invoke tool args w).
Qed.

Hint Resolve no_llm_now no_llm_uuid no_llm_get no_llm_update no_llm_tool : llm.

Ltac no_llm := monad_split; eauto with llm.

Lemma no_llm_setStructuredPlan id p :
  preserves (llm_grows 0) (Tickets.setStructuredPlan id p).
Proof. unfold Tickets.setStructuredPlan. no_llm. Qed.

Lemma no_llm_updatePlanStep id i u :
  preserves (llm_grows 0) (Tickets.updatePlanStep id i u).
Proof. unfold Tickets.updatePlanStep. no_llm. Qed.

Lemma no_llm_put config cp md : preserves (llm_grows 0) (Checkpointer.put config cp md).
Proof.
  unfold Checkpointer.put. no_llm.
Qed.

Lemma no_llm_getTuple config : preserves (llm_grows 0) (Checkpointer.getTuple config).
Proof. unfold Checkpointer.getTuple. no_llm. Qed.

Hint Resolve no_llm_setStructuredPlan no_llm_updatePlanStep no_llm_put
  no_llm_getTuple : llm.

Lemma no_llm_buildSteps items : ∀ index, preserves (llm_grows 0) (buildSteps index items).
Proof.
  induction items as [|step rest IH]; intros index; cbn [buildSteps]; no_llm.
Qed.

Lemma no_llm_runToolCalls calls : preserves (llm_grows 0) (runToolCalls calls).
Proof. induction calls as [|c rest IH]; cbn [runToolCalls]; no_llm. Qed.

Hint Resolve no_llm_buildSteps no_llm_runToolCalls : llm.

Lemma no_llm_saveCheckpoint threadId parent source state :
  preserves (llm_grows 0) (saveCheckpoint threadId parent source state).
Proof. unfold saveCheckpoint. no_llm. Qed.

(** One call, then none. *)
Lemma one_llm_bind {B} bound msgs (k : AIMessage → M B) :
  (∀ response, preserves (llm_grows 0) (k response)) →
  preserves (llm_grows 1) (bind (invoke_llm bound msgs) k).
Proof.
  intros Hk w. unfold bind, invoke_llm.
  set (w1 := set_llmCalls _ w).
  assert (llm_grows 1 w w1) as H1.
  { exists [mkLLMCall bound msgs]. split; [reflexivity | cbn; lia]. }
  destruct ((if bound then llmWithTools_invoke else llm_invoke) _ msgs)
    as [response|e]; [|exact H1].
  apply (llm_grows_trans 1 0 w w1 _ H1). apply Hk.
Qed.

(** None, then at most one. *)
Lemma one_llm_after {A B} (m : M A) (k : A → M B) :
  preserves (llm_grows 0) m →
  (∀ x, preserves (llm_grows 1) (k x)) →
  preserves (llm_grows 1) (bind m k).
Proof.
  intros Hm Hk w. unfold bind. pose proof (Hm w) as H0.
  destruct (m w) as [[x|e] w1]; cbn in *.
  - apply (llm_grows_trans 0 1 w w1 _ H0). apply Hk.
  - apply (llm_grows_weaken 0 1); [lia | exact H0].
Qed.

Lemma one_llm_of_none {A} (m : M A) :
  preserves (llm_grows 0) m → preserves (llm_grows 1) m.
Proof. intros Hm w. apply (llm_grows_weaken 0 1); [lia | apply Hm]. Qed.

(** Every node calls the reasoning engine at most once. *)
Lemma nodeFunction_one_llm ticketService n state :
  preserves (llm_grows 1) (nodeFunction ticketService n state).
Proof.
  destruct n; cbn [nodeFunction].
  - unfold createPlanNode. cbn zeta. apply one_llm_bind. intros response. no_llm.
  - unfold createExecuteNode.
    destruct (gs_structuredPlan state) as [plan|];
      [|apply one_llm_of_none; no_llm].
    destruct (steps plan !! currentStepIndex state) as [currentStep|];
      [|apply one_llm_of_none; no_llm].
    cbn zeta. apply one_llm_after; [no_llm|]. intros _.
    apply one_llm_bind. intros response. no_llm.
  - unfold createReviewNode.
    destruct (gs_structuredPlan state) as [plan|];
      [|apply one_llm_of_none; no_llm].
    destruct (bool_decide _); [|apply one_llm_of_none; no_llm].
    cbn zeta. apply one_llm_bind. intros response. no_llm.
  - apply one_llm_of_none. unfold createWaitNode. no_llm.
Qed.

(** *** One superstep *)

(** A superstep runs its node, which calls the reasoning engine at most
    once; then the graph stops there, or goes on from the node the edge
    names. *)
Lemma supersteps_step ticketService fuel threadId parent n state (w : World) :
  ∃ w2,
    ran [n] w w2 ∧ llm_grows 1 w w2
    ∧ ((snd (supersteps ticketService (S fuel) threadId parent n state w) = w2
        ∧ ∀ result,
            fst (supersteps ticketService (S fuel) threadId parent n state w)
            = Ok result →
            routeAfter n result = None)
       ∨ ∃ parent' next state',
           routeAfter n state' = Some next
           ∧ supersteps ticketService (S fuel) threadId parent n state w
             = supersteps ticketService fuel threadId parent' next state' w2).
Proof.
  destruct (supersteps ticketService (S fuel) threadId parent n state w)
    as [r wf] eqn:Hout.
  revert Hout. cbn [supersteps fst snd]. unfold bind at 1.
  pose proof (TraceSpec.runNode_ran ticketService n state w) as Hran.
  assert (llm_grows 1 w (snd (runNode ticketService n state w))) as Hllm.
  { unfold runNode, bind, modify.
    set (w0 := set_nodeRuns _ w).
    apply (llm_grows_trans 0 1 w w0); [by apply llm_grows_same|].
    apply nodeFunction_one_llm. }
  destruct (runNode ticketService n state w) as [[u|e] w1]; cbn [fst snd] in *.
  2:{ intros [= <- <-]. exists w1. split; [exact Hran|]. split; [exact Hllm|].
      left. by split. }
  unfold bind at 1.
  pose proof (TraceSpec.keep_nodes_saveCheckpoint threadId parent "loop"
                (applyUpdate state u) w1) as Hsave.
  pose proof (no_llm_saveCheckpoint threadId parent "loop"
                (applyUpdate state u) w1) as Hsave'.
  destruct (saveCheckpoint threadId parent "loop" (applyUpdate state u) w1)
    as [[parent'|e] w2]; cbn [fst snd] in *.
  2:{ intros [= <- <-]. exists w2.
      split; [unfold ran, same_nodeRuns in *; congruence|].
      split; [apply (llm_grows_trans 1 0 w w1 w2 Hllm Hsave')|]. left. by split. }
  intros Hout. exists w2. split; [unfold ran, same_nodeRuns in *; congruence|].
  split; [apply (llm_grows_trans 1 0 w w1 w2 Hllm Hsave')|].
  destruct (routeAfter n (applyUpdate state u)) as [next|] eqn:Hroute.
  - right. by exists parent', next, (applyUpdate state u).
  - left. injection Hout as <- <-. split; [done|]. by intros result [= <-].
Qed.

(** *** Whole invocations *)

Lemma ran_trans t1 t2 (w1 w2 w3 : World) :
  ran t1 w1 w2 → ran t2 w2 w3 → ran (t1 ++ t2) w1 w3.
Proof. unfold ran. intros H12 H23. by rewrite H23, H12, app_assoc. Qed.

Lemma ran_nil (w w' : World) : nodeRuns w' = nodeRuns w → ran [] w w'.
Proof. unfold ran. intros ->. by rewrite app_nil_r. Qed.

(** The supersteps run at most as many nodes as the limit allows, and call
    the reasoning engine at most once per node. *)
Lemma supersteps_bounded ticketService fuel :
  ∀ threadId parent n state (w : World),
    ∃ trace,
      ran trace w (snd (supersteps ticketService fuel threadId parent n state w))
      ∧ (length trace ≤ fuel)%nat
      ∧ llm_grows (length trace) w
          (snd (supersteps ticketService fuel threadId parent n state w)).
Proof.
  induction fuel as [|fuel IH]; intros threadId parent n state w.
  - exists []. split; [by apply ran_nil|]. split; [done|]. by apply llm_grows_same.
  - destruct (supersteps_step ticketService fuel threadId parent n state w)
      as (w2 & Hran & Hllm & [[Hend _] | (parent' & next & state' & _ & Hgo)]).
    + exists [n]. rewrite Hend. split; [done|]. split; [cbn; lia | done].
    + rewrite Hgo.
      destruct (IH threadId parent' next state' w2) as (trace & Ht & Hlen & Hl).
      exists (n :: trace). split; [apply (ran_trans [n] trace w w2 _ Hran Ht)|].
      split; [cbn; lia|]. apply (llm_grows_trans 1 (length trace) w w2 _ Hllm Hl).
Qed.

(** When the supersteps return, the edge after the last node run led out
    of the graph. *)
Lemma supersteps_ends ticketService fuel :
  ∀ threadId parent n state (w : World) result w',
    supersteps ticketService fuel threadId parent n state w = (Ok result, w') →
    ∃ final, last (nodeRuns w') = Some final ∧ routeAfter final result = None.
Proof.
  induction fuel as [|fuel IH]; intros threadId parent n state w result w' Hrun.
  - discriminate Hrun.
  - destruct (supersteps_step ticketService fuel threadId parent n state w)
      as (w2 & Hran & _ & [[Hend Hroute] | (parent' & next & state' & _ & Hgo)]).
    + rewrite Hrun in Hend, Hroute. cbn in Hend, Hroute. subst w2.
      exists n. split; [|by apply Hroute]. unfold ran in Hran.
      rewrite Hran. apply last_snoc.
    + rewrite Hgo in Hrun. by apply IH in Hrun.
Qed.

Lemma supersteps_from_wait ticketService fuel threadId parent state (w : World) :
  ∃ trace,
    ran trace w (snd (supersteps ticketService fuel threadId parent n_wait state w))
    ∧ (trace = []
       ∨ ∃ rest, trace = n_wait :: rest
                 ∧ Forall (fun n => n = n_execute ∨ n = n_review) rest).
Proof.
  destruct fuel as [|fuel].
  { exists []. split; [by apply ran_nil | by left]. }
  destruct (supersteps_step ticketService fuel threadId parent n_wait state w)
    as (w2 & Hran & _ & [[Hend _] | (parent' & next & state' & Hroute & Hgo)]).
  - exists [n_wait]. rewrite Hend. split; [done|]. right. by exists [].
  - assert (next = n_execute) as ->.
    { cbn [routeAfter] in Hroute. unfold routeAfterWait in Hroute.
      repeat case_bool_decide; congruence. }
    rewrite Hgo.
    destruct (TraceSpec.supersteps_stay ticketService fuel threadId parent'
                n_execute state' w2) as (rest & Hrest & Hall & _); [by left|].
    exists (n_wait :: rest).
    split; [apply (ran_trans [n_wait] rest w w2 _ Hran Hrest)|].
    right. by exists rest.
Qed.

Lemma supersteps_from_planning ticketService fuel threadId parent state (w : World) :
  ∃ trace,
    ran trace w (snd (supersteps ticketService fuel threadId parent n_planning state w))
    ∧ invocation_shape trace.
Proof.
  destruct fuel as [|fuel].
  { exists []. split; [by apply ran_nil|]. exists [], []. split; [reflexivity|]. split; [tauto | by auto]. }
  destruct (supersteps_step ticketService fuel threadId parent n_planning state w)
    as (w2 & Hran & _ & [[Hend _] | (parent' & next & state' & Hroute & Hgo)]).
  - exists [n_planning]. rewrite Hend. split; [done|].
    exists [n_planning], []. split; [reflexivity|]. split; [tauto | by auto].
  - rewrite Hgo.
    assert (next = n_wait ∨ next = n_execute) as [-> | ->].
    { cbn [routeAfter] in Hroute. unfold routeAfterPlan in Hroute.
      repeat case_bool_decide; try discriminate Hroute;
        injection Hroute as <-; auto. }
    + destruct (supersteps_from_wait ticketService fuel threadId parent' state' w2)
        as (trace & Ht & [-> | (rest & -> & Hall)]).
      * exists [n_planning]. split; [apply (ran_trans [n_planning] [] w w2 _ Hran Ht)|].
        exists [n_planning], []. split; [reflexivity|]. split; [tauto | by auto].
      * exists (n_planning :: n_wait :: rest).
        split; [apply (ran_trans [n_planning] (n_wait :: rest) w w2 _ Hran Ht)|].
        exists [n_planning; n_wait], rest. split; [reflexivity|]. split; [tauto | by auto].
    + destruct (TraceSpec.supersteps_stay ticketService fuel threadId parent'
                  n_execute state' w2) as (rest & Hrest & Hall & _); [by left|].
      exists (n_planning :: rest).
      split; [apply (ran_trans [n_planning] rest w w2 _ Hran Hrest)|].
      exists [n_planning], rest. split; [reflexivity|]. split; [tauto | by auto].
Qed.

(** Before its first node, an invocation reads the latest checkpoint and
    saves the input. *)
Lemma invoke_cases ticketService input threadId (w : World) :
  ∃ w1,
    nodeRuns w1 = nodeRuns w ∧ llmCalls w1 = llmCalls w
    ∧ ((∃ e, invoke ticketService input threadId w = (Throw e, w1))
       ∨ ∃ parent state,
           invoke ticketService input threadId w
           = supersteps ticketService recursionLimit threadId parent
                        (routeFromStart state) state w1).
Proof.
  destruct (invoke ticketService input threadId w) as [r wf] eqn:Hinv.
  revert Hinv. unfold invoke. unfold bind at 1.
  destruct (CheckpointStoreSpec.getTuple_reads w (Some threadId) None)
    as (saved & Hget).
  rewrite Hget.
  destruct saved as [tuple|];
    (unfold bind at 1;
     match goal with
     | |- context [saveCheckpoint threadId ?parent0 "input" ?state w] =>
         pose proof (TraceSpec.keep_nodes_saveCheckpoint threadId parent0 "input"
                       state w) as Hn1;
         pose proof (no_llm_saveCheckpoint threadId parent0 "input" state w)
           as (calls & Hl1 & Hlen);
         destruct (saveCheckpoint threadId parent0 "input" state w)
           as [[parent'|e] w1]; cbn [fst snd] in *; intros Hinv;
         (exists w1; split; [exact Hn1|]; split;
          [destruct calls; [by rewrite app_nil_r in Hl1 | cbn in Hlen; lia]|]);
         [right; by exists parent', state | left; exists e; congruence]
     end).
Qed.

(** X20. An invocation of the graph runs the planning node at most once,
    and then first; the wait node at most once, and then before every node
    but the planning node; and after these only the execute and review
    nodes. So no invocation plans twice or waits twice, and once a step
    has been executed it neither plans nor waits. *)
Theorem invoke_trace_shape (ticketService : bool) (input : GraphUpdate)
    (threadId : string) (w : World) :
  ∃ trace,
    nodeRuns (snd (invoke ticketService input threadId w))
    = (nodeRuns w ++ trace)%list
    ∧ invocation_shape trace.
Proof.
  destruct (invoke_cases ticketService input threadId w)
    as (w1 & Hn1 & _ & [[e Hthrow] | (parent & state & Hgo)]).
  { exists []. rewrite Hthrow. cbn. rewrite Hn1, app_nil_r.
    split; [done|]. exists [], []. split; [reflexivity|]. split; [tauto | by auto]. }
  rewrite Hgo. rewrite <- Hn1.
  destruct (routeFromStart state) eqn:Hstart.
  - apply supersteps_from_planning.
  - destruct (TraceSpec.supersteps_stay ticketService recursionLimit threadId parent
                n_execute state w1) as (rest & Hrest & Hall & _); [by left|].
    exists rest. split; [exact Hrest|]. exists [], rest. split; [reflexivity|]. split; [tauto | by auto].
  - unfold routeFromStart in Hstart.
    destruct (gs_structuredPlan state); [|discriminate].
    destruct (_ || _); [discriminate|]. by destruct (_ || _).
  - destruct (supersteps_from_wait ticketService recursionLimit threadId parent
                state w1) as (trace & Ht & [-> | (rest & -> & Hall)]).
    + exists []. split; [exact Ht|]. exists [], []. split; [reflexivity|]. split; [tauto | by auto].
    + exists (n_wait :: rest). split; [exact Ht|]. exists [n_wait], rest. split; [reflexivity|]. split; [tauto | by auto].
Qed.

(** X21. An invocation of the graph runs at most [recursionLimit] nodes,
    and calls the reasoning engine at most once for each node it runs,
    whatever the tools do and whether it returns or throws. *)
Theorem invoke_bounded (ticketService : bool) (input : GraphUpdate)
    (threadId : string) (w : World) :
  let w' := snd (invoke ticketService input threadId w) in
  ∃ trace calls,
    nodeRuns w' = (nodeRuns w ++ trace)%list
    ∧ llmCalls w' = (llmCalls w ++ calls)%list
    ∧ (length calls ≤ length trace ≤ recursionLimit)%nat.
Proof.
  cbn zeta.
  destruct (invoke_cases ticketService input threadId w)
    as (w1 & Hn1 & Hl1 & [[e Hthrow] | (parent & state & Hgo)]).
  { exists [], []. rewrite Hthrow. cbn. rewrite Hn1, Hl1, !app_nil_r.
    split; [done|]. split; [done | lia]. }
  rewrite Hgo.
  destruct (supersteps_bounded ticketService recursionLimit threadId parent
              (routeFromStart state) state w1)
    as (trace & Hran & Hlen & calls & Hcalls & Hclen).
  exists trace, calls. unfold ran in Hran. rewrite Hran, Hcalls, Hn1, Hl1.
  split; [done|]. split; [done | lia].
Qed.

(** X22. When an invocation of the graph returns, the phase of the state it
    returns is not [executing]: it returns after the planning node or the
    review node only in phase [completed], after the wait node in phase
    [completed] or still waiting for input, and never after the execute
    node. *)
Theorem invoke_returns_settled (ticketService : bool) (input : GraphUpdate)
    (threadId : string) (w : World) (result : GraphState) (w' : World) :
  invoke ticketService input threadId w = (Ok result, w') →
  phase result ≠ ph_executing
  ∧ ∃ final,
      last (nodeRuns w') = Some final
      ∧ final ≠ n_execute
      ∧ (final = n_planning ∨ final = n_review → phase result = ph_completed).
Proof.
  intros Hrun.
  destruct (invoke_cases ticketService input threadId w)
    as (w1 & _ & _ & [[e Hthrow] | (parent & state & Hgo)]); [congruence|].
  rewrite Hgo in Hrun. apply supersteps_ends in Hrun as (final & Hlast & Hroute).
  assert (phase result ≠ ph_executing ∧ final ≠ n_execute
          ∧ (final = n_planning ∨ final = n_review → phase result = ph_completed))
    as (Hph & Hne & Hdone).
  { destruct final; cbn [routeAfter] in Hroute;
      unfold routeAfterPlan, routeAfterExecute, routeAfterReview, routeAfterWait
        in Hroute;
      repeat case_bool_decide; try discriminate Hroute;
      (split; [congruence|]); (split; [done|]); intros [?|?]; congruence. }
  split; [exact Hph|]. by exists final.
Qed.

(** *** The planning node on a usable response *)

Lemma buildSteps_ok items :
  Forall (fun item => item ≠ JNull) items →
  ∀ index (w : World),
    ∃ l w',
      buildSteps index items w = (Ok l, w')
      ∧ tickets w' = tickets w
      ∧ clockReads w' = clockReads w
      ∧ llmCalls w' = llmCalls w
      ∧ length l = length items
      ∧ ∀ i s, l !! i = Some s →
               step_index s = (index + i)%nat
               ∧ step_id s = randomUUID (uuidReads w + i)
               ∧ step_status s = step_pending
               ∧ startedAt s = None ∧ completedAt s = None
               ∧ output s = None ∧ step_error s = None
               ∧ retryCount s = 0%Z ∧ maxRetries s = 3%Z
               ∧ ∃ item, items !! i = Some item
                         ∧ Json.get_prop item "title" = Ok (step_title s)
                         ∧ Json.get_prop item "description"
                           = Ok (step_description s).
Proof.
  induction 1 as [|item items Hitem _ IH]; intros index w.
  - exists [], w. by repeat split.
  - cbn [buildSteps]. unfold bind at 1. unfold newUUID at 1. cbn [fst snd].
    set (w0 := set_uuidReads _ w).
    assert (∃ a b, Json.get_prop item "title" = Ok a
                   ∧ Json.get_prop item "description" = Ok b)
      as (a & b & Ha & Hb).
    { destruct item; try done; by eexists _, _. }
    rewrite Ha, Hb.
    destruct (IH (S index) w0) as (l & w' & Hrun & Ht & Hc & Hl & Hlen & Hsteps).
    unfold bind at 1. rewrite Hrun. unfold ret.
    eexists _, w'. split; [reflexivity|]. split; [exact Ht|].
    split; [exact Hc|]. split; [exact Hl|]. split; [cbn; by rewrite Hlen|].
    intros [|i] s; cbn.
    + intros [= <-]. cbn. rewrite !Nat.add_0_r.
      do 9 (split; [done|]). by exists item.
    + intros Hs. destruct (Hsteps i s Hs) as (Hi & Hid & Hrest).
      split; [lia|]. split; [|exact Hrest].
      rewrite Hid. cbn. f_equal. lia.
Qed.

(** X23. When the planning response holds, between its first opening and
    its last closing brace, JSON whose member [steps] is an array without
    [null] elements, and neither its [summary] nor the [title] or
    [description] of an element holds a number, the planning node calls the
    reasoning engine once and returns and stores one and the same plan, one
    that the database gives back as it was written: the summary is that of
    the response; there is one step for each element, in order, numbered
    from 0, with the title and description of the element, each [pending],
    never started, with a fresh id, no retry used and three allowed; the
    plan is not approved. The step index is reset to 0; the node waits for
    approval when the state requires plan approval and moves on to
    execution otherwise. The status of the ticket, its resolution time and
    what is pending on it are as they were. *)
Theorem createPlanNode_stores_pending_plan (state : GraphState) (w : World)
    (t : Ticket) (response : AIMessage) (matched : string) (parsed : json)
    (items : list json) :
  llm_invoke (length (llmCalls w)) (planMessages state) = Ok response →
  tickets w !! ticketId state = Some t →
  Json.jsonMatch (content_or EmptyString response) = Some matched →
  Json.JSON_parse matched = Some parsed →
  Json.get_prop parsed "steps" = Ok (Some (JArr items)) →
  Forall (fun item => item ≠ JNull) items →
  stable_member parsed "summary" = true →
  forallb (fun item => stable_member item "title"
                       && stable_member item "description") items = true →
  ∃ u w' plan t',
    createPlanNode true state w = (Ok u, w')
    ∧ llmCalls w' = (llmCalls w ++ [mkLLMCall false (planMessages state)])%list
    ∧ gs_structuredPlan (applyUpdate state u) = Some plan
    ∧ currentStepIndex (applyUpdate state u) = 0%nat
    ∧ phase (applyUpdate state u)
      = (if planApprovalRequired state then ph_waiting else ph_executing)
    ∧ waitingFor (applyUpdate state u)
      = (if planApprovalRequired state then Some wf_approval else None)
    ∧ tickets w' !! ticketId state = Some t'
    ∧ structuredPlan t' = Some plan
    ∧ lifecycle t' = lifecycle t
    ∧ approvedAt plan = None
    ∧ length (steps plan) = length items
    ∧ (∀ i s, steps plan !! i = Some s →
              step_index s = i
              ∧ step_id s = randomUUID (uuidReads w + i)
              ∧ step_status s = step_pending
              ∧ startedAt s = None ∧ completedAt s = None
              ∧ output s = None ∧ step_error s = None
              ∧ retryCount s = 0%Z ∧ maxRetries s = 3%Z
              ∧ ∃ item, items !! i = Some item
                        ∧ Json.get_prop item "title" = Ok (step_title s)
                        ∧ Json.get_prop item "description"
                          = Ok (step_description s))
    ∧ Json.get_prop parsed "summary" = Ok (summary plan)
    ∧ plan_survives_json plan.
Proof.
  intros Hresp Hticket Hmatch Hparse Hsteps Hitems Hsummary Htexts.
  unfold createPlanNode. cbn zeta. fold (planMessages state).
  unfold bind at 1. rewrite (GraphSpec.invoke_llm_ok false _ w response Hresp).
  rewrite Hmatch, Hparse.
  unfold bind at 1. unfold now at 1. cbn [fst snd]. rewrite Hsteps.
  set (w1 := set_clockReads _ _).
  destruct (buildSteps_ok items Hitems 0%nat w1)
    as (l & w2 & Hbuild & Ht2 & Hc2 & Hl2 & Hlen & Hl).
  unfold bind at 1. rewrite Hbuild.
  assert (∃ summary, Json.get_prop parsed "summary" = Ok summary) as [sm Hsm].
  { destruct parsed; try done; by eexists. }
  rewrite Hsm.
  unfold bind at 1. unfold bind at 1.
  assert (tickets w2 !! ticketId state = Some t) as Hticket2 by (by rewrite Ht2).
  unfold Tickets.setStructuredPlan. unfold bind at 1.
  rewrite (TicketsSpec.get_found _ _ _ Hticket2).
  erewrite TicketOpsSpec.stamped_update by exact Hticket2.
  unfold ret. eexists _, _, _, _. split; [reflexivity|].
  split; [cbn; by rewrite Hl2|].
  do 4 (split; [reflexivity|]).
  split; [cbn; by rewrite lookup_insert_eq|].
  do 3 (split; [reflexivity|]). split; [exact Hlen|].
  split; [intros i s Hs; by destruct (Hl i s Hs) as (Hi & Hrest)|].
  split; [reflexivity|].
  split; cbn [summary steps].
  - unfold stable_member in Hsummary. rewrite Hsm in Hsummary.
    by destruct sm.
  - apply Forall_lookup. intros i s Hs.
    destruct (Hl i s Hs) as (_ & _ & _ & _ & _ & _ & _ & _ & _ & item & Hitem & Htl & Hds).
    assert (stable_member item "title" && stable_member item "description" = true)
      as Hboth.
    { apply (proj1 (forallb_forall _ _) Htexts).
      by apply list_elem_of_In, (list_elem_of_lookup_2 _ i). }
    apply andb_true_iff in Hboth as [Htitle Hdesc].
    unfold stable_member in Htitle, Hdesc. rewrite Htl in Htitle. rewrite Hds in Hdesc.
    split; [by destruct (step_title s) | by destruct (step_description s)].
Qed.

(** *** The execute node without a step to execute *)

Lemma createExecuteNode_no_step ticketService state (w : World) :
  no_current_step state →
  ∃ u,
    createExecuteNode ticketService state w = (Ok u, w)
    ∧ gs_structuredPlan (applyUpdate state u) = gs_structuredPlan state
    ∧ currentStepIndex (applyUpdate state u) = currentStepIndex state
    ∧ phase (applyUpdate state u) = ph_completed
    ∧ error (applyUpdate state u)
      = Some (match gs_structuredPlan state with
              | None => "No structured plan available"
              | Some _ => "Invalid step index: " ++ pretty (currentStepIndex state)
              end).
Proof.
  unfold no_current_step, createExecuteNode. intros Hno.
  destruct (gs_structuredPlan state) as [plan|] eqn:Hplan.
  - rewrite (lookup_ge_None_2 _ _ Hno).
    eexists. split; [reflexivity|]. cbn. by rewrite Hplan.
  - eexists. split; [reflexivity|]. cbn. by rewrite Hplan.
Qed.

Lemma saveCheckpoint_ok threadId parent source state (w : World) :
  threadId ≠ EmptyString →
  is_Some (tickets w !! threadId) →
  ∃ cid w',
    saveCheckpoint threadId parent source state w = (Ok cid, w')
    ∧ tickets w' = tickets w
    ∧ llmCalls w' = llmCalls w
    ∧ toolCalls w' = toolCalls w
    ∧ nodeRuns w' = nodeRuns w.
Proof.
  intros Hs Hticket. unfold saveCheckpoint.
  unfold bind at 1. unfold newUUID at 1. cbn [fst snd].
  unfold bind at 1.
  erewrite CheckpointerSpec.put_ok; [|exact Hs | exact Hticket].
  eexists _, _. split; [reflexivity|]. done.
Qed.

(** X19. The execute node has no way out of the graph. Entered on a state
    without a plan, or with a step index past the last step of the plan,
    it reports the error with phase [completed] and calls neither the
    reasoning engine nor a tool nor the ticket service; the edge after it
    leads back to it, and the state it meets there has no step to execute
    either. So, for a thread whose ticket is stored (the checkpoint after
    each node refers to it), the graph runs the execute node, and only it,
    until the recursion limit is used up, and throws
    [GraphRecursionError]. *)
Theorem execute_without_step_never_ends (ticketService : bool) (fuel : nat)
    (threadId : string) :
  threadId ≠ EmptyString →
  ∀ (parent : option string) (state : GraphState) (w : World),
    is_Some (tickets w !! threadId) →
    no_current_step state →
    ∃ w',
      supersteps ticketService fuel threadId parent n_execute state w
      = (Throw GraphRecursionError, w')
      ∧ nodeRuns w' = (nodeRuns w ++ replicate fuel n_execute)%list
      ∧ llmCalls w' = llmCalls w
      ∧ toolCalls w' = toolCalls w
      ∧ tickets w' = tickets w.
Proof.
  intros Hs. induction fuel as [|fuel IH]; intros parent state w Hticket Hno.
  - exists w. cbn. by rewrite app_nil_r.
  - cbn [supersteps]. unfold bind at 1. unfold runNode at 1.
    unfold bind at 1. unfold modify at 1. cbn [nodeFunction].
    set (w0 := set_nodeRuns _ w).
    destruct (createExecuteNode_no_step ticketService state w0 Hno)
      as (u & Hrun & Hplan & Hidx & Hphase & _).
    rewrite Hrun. unfold bind at 1.
    destruct (saveCheckpoint_ok threadId parent "loop" (applyUpdate state u) w0
                Hs Hticket)
      as (cid & w1 & Hsave & Ht1 & Hl1 & Hc1 & Hn1).
    rewrite Hsave. cbn [routeAfter]. unfold routeAfterExecute. rewrite Hphase.
    cbn [bool_decide decide_rel].
    assert (no_current_step (applyUpdate state u)) as Hno'.
    { unfold no_current_step in *. by rewrite Hplan, Hidx. }
    assert (is_Some (tickets w1 !! threadId)) as Hticket1 by (by rewrite Ht1).
    destruct (IH cid (applyUpdate state u) w1 Hticket1 Hno')
      as (w' & Hloop & Hn & Hl & Hc & Ht).
    exists w'. split; [exact Hloop|]. rewrite Hn, Hl, Hc, Ht, Hn1, Hl1, Hc1, Ht1.
    split; [|done]. cbn. by rewrite <- app_assoc.
Qed.
End Proofs.

Lemma execute_without_step_never_ends_witness :
  let H := Sample.env [] in
  let w := Sample.world (Sample.ticket st_in_progress None) in
  let p := Sample.plan [Sample.step 0 step_completed] (Some 0%nat) in
  ∃ w',
    supersteps true 25 "T-1" None n_execute
               (Sample.state (Some p) 1 ph_executing None None) w
    = (Throw GraphRecursionError, w')
    ∧ llmCalls w' = [].
Proof.
  intros H w p.
  destruct (execute_without_step_never_ends (H := H) true 25 "T-1") with
    (parent := @None string) (state := Sample.state (Some p) 1 ph_executing None None)
    (w := w) as (w' & Hrun & _ & Hl & _).
  - discriminate.
  - by eexists.
  - cbn. lia.
  - exists w'. split; [exact Hrun | exact Hl].
Defined.

Lemma createPlanNode_stores_pending_plan_witness :
  let H := Sample.env [Sample.planResponse] in
  let state := Sample.state None 3 ph_planning None None in
  let w := Sample.world (Sample.ticket st_draft None) in
  ∃ u w' plan,
    createPlanNode true state w = (Ok u, w')
    ∧ gs_structuredPlan (applyUpdate state u) = Some plan
    ∧ (structuredPlan <$> tickets w' !! "T-1") = Some (Some plan)
    ∧ currentStepIndex (applyUpdate state u) = 0%nat
    ∧ length (steps plan) = 1%nat.
Proof.
  intros H state w.
  edestruct (createPlanNode_stores_pending_plan (H := H) state w
               (Sample.ticket st_draft None))
    as (u & w' & plan & t' & Hrun & _ & Hplan & Hidx & _ & _ & Ht' & Hp' & _ & _
        & Hlen & _).
  - vm_compute. reflexivity.
  - reflexivity.
  - vm_compute. reflexivity.
  - vm_compute. reflexivity.
  - vm_compute. reflexivity.
  - repeat constructor; discriminate.
  - vm_compute. reflexivity.
  - vm_compute. reflexivity.
  - exists u, w', plan. split; [exact Hrun|]. split; [exact Hplan|].
    split; [|split; [exact Hidx | exact Hlen]].
    change (ticketId state) with "T-1" in Ht'. rewrite Ht'. cbn. by rewrite Hp'.
Defined.

Lemma invoke_returns_settled_witness :
  let H := Sample.env [Sample.planResponse] in
  let w := Sample.world (Sample.ticket st_draft None) in
  let input := with_ticketId "T-1" (with_planApprovalRequired true emptyUpdate) in
  ∃ result w',
    invoke true input "T-1" w = (Ok result, w')
    ∧ phase result = ph_waiting
    ∧ last (nodeRuns w') = Some n_wait.
Proof.
  intros H w input.
  destruct (invoke true input "T-1" w) as [[result|e] w'] eqn:Hrun;
    [|by vm_compute in Hrun].
  exists result, w'. split; [reflexivity|].
  destruct (invoke_returns_settled (H := H) true input "T-1" w result w' Hrun)
    as (_ & final & Hlast & _).
  vm_compute in Hrun. injection Hrun as <- <-. by vm_compute.
Defined.

(** A run on an approved one-step plan whose review does not certify
    completion: the step is executed, the review sends the graph back to
    the execute node, and the run fails on the recursion limit; no turn is
    counted and the ticket stays in progress. *)
Example review_refusal_exhausts_limit :
  let H := Sample.env ["Did it"; "More work is needed"] in
  let p := Sample.plan [Sample.step 0 step_pending] (Some 0%nat) in
  let w := Sample.world (Sample.ticket st_approved (Some p)) in
  fst (Agent.run "T-1" w) = Ok (Agent.failed_run "T-1" GraphRecursionError)
  ∧ length (nodeRuns (snd (Agent.run "T-1" w))) = 25%nat
  ∧ length (llmCalls (snd (Agent.run "T-1" w))) = 2%nat
  ∧ ((fun t => (status t, currentTurn t)) <$> tickets (snd (Agent.run "T-1" w)) !! "T-1")
    = Some (st_in_progress, 0%Z).
Proof. vm_compute. auto. Qed.
End EngineSpec.

(** ** The agent service *)
Module ServiceSpec.
Import Tickets Agent.

Section Proofs.
Context `{Env}.

Lemma bind_Ok_inv {A B} (m : M A) (k : A → M B) (w w' : World) (b : B) :
  bind m k w = (Ok b, w') → ∃ a w1, m w = (Ok a, w1) ∧ k a w1 = (Ok b, w').
Proof.
  unfold bind. destruct (m w) as [[a|e] w1]; [|discriminate].
  intros Hk. by exists a, w1.
Qed.

(** A transition that returns has stored the status asked for. *)
Lemma transitionStatus_Ok (w w' : World) id target t' :
  transitionStatus id target w = (Ok t', w') →
  tickets w' !! id = Some t' ∧ status t' = target.
Proof.
  destruct (tickets w !! id) as [t|] eqn:Hl.
  2:{ unfold transitionStatus, bind. by rewrite (TicketsSpec.get_missing _ _ Hl). }
  destruct (status_includes (VALID_TRANSITIONS (status t)) target) eqn:Hin.
  - rewrite (TicketOpsSpec.transitionStatus_allowed _ _ _ _ Hl Hin).
    intros [= <- <-]. cbn. rewrite lookup_insert_eq.
    split; [done|]. by destruct (is_resolved target).
  - by rewrite (TicketOpsSpec.transitionStatus_refused _ _ _ _ Hl Hin).
Qed.

(** *** What stops a run before it starts *)

(** X26. [run] on a ticket that has used up its turns throws
    [MaxTurnsExceededError], and when the work tree can be neither found
    nor created it throws the error of the work tree; in both cases
    nothing is written and the reasoning engine is not called. Lowering
    the turn limit of a ticket to the turns it has used, with [update],
    stops every further run. *)
Theorem run_guards (w : World) (id : string) (t : Ticket) :
  tickets w !! id = Some t →
  ((maxTurns t ≤ currentTurn t)%Z →
     run id w = (Throw (MaxTurnsExceededError (maxTurns t)), w))
  ∧ (∀ e, (currentTurn t < maxTurns t)%Z → ensureWorktree id = Throw e →
          run id w = (Throw e, w))
  ∧ (∀ limit, (limit ≤ currentTurn t)%Z →
       ∃ t' w',
         update id (mkUpdateTicketInput None None None (Some limit)) w = (Ok t', w')
         ∧ run id w' = (Throw (MaxTurnsExceededError limit), w')).
Proof.
  intros Hl. split; [|split].
  - intros Hover. unfold run. unfold bind at 1.
    rewrite (TicketsSpec.get_found _ _ _ Hl).
    by rewrite bool_decide_eq_true_2.
  - intros e Hunder Htree. unfold run. unfold bind at 1.
    rewrite (TicketsSpec.get_found _ _ _ Hl).
    rewrite bool_decide_eq_false_2 by lia. by rewrite Htree.
  - intros limit Hlimit.
    unfold update. unfold bind at 1. rewrite (TicketsSpec.get_found _ _ _ Hl).
    cbn beta. erewrite TicketOpsSpec.stamped_update by exact Hl.
    eexists _, _. split; [reflexivity|].
    unfold run. unfold bind at 1. unfold get at 1. cbn [tickets set_tickets].
    rewrite lookup_insert_eq. cbn.
    by rewrite bool_decide_eq_true_2.
Qed.

(** *** What stops a resumption *)

(** X27. [resume] on a ticket that has used up its turns throws
    [MaxTurnsExceededError]. With a saved state to resume from, an approval
    input needs a pending approval on the ticket and a non-empty answer
    needs a pending question: otherwise [NoPendingApprovalError] or
    [NoPendingQuestionError] is thrown. In each of these cases nothing is
    written, no turn is counted and the graph is not invoked. *)
Theorem resume_guards (w : World) (id : string) (t : Ticket)
    (input : option HumanInput) :
  tickets w !! id = Some t →
  ((maxTurns t ≤ currentTurn t)%Z →
     resume id input w = (Throw (MaxTurnsExceededError (maxTurns t)), w))
  ∧ ((currentTurn t < maxTurns t)%Z →
     ∀ saved, Graph.getState id w = (Ok (Some saved), w) →
       (∀ i, input = Some i → hi_type i = hi_approval →
             pendingApproval t = None →
             resume id input w = (Throw (NoPendingApprovalError id), w))
       ∧ (∀ i a, input = Some i → hi_type i = hi_answer →
                 answer i = Some a → a ≠ EmptyString →
                 pendingQuestion t = None →
                 resume id input w = (Throw (NoPendingQuestionError id), w))).
Proof.
  intros Hl. split.
  - intros Hover. unfold resume. unfold bind at 1.
    rewrite (TicketsSpec.get_found _ _ _ Hl).
    by rewrite bool_decide_eq_true_2.
  - intros Hunder saved Hstate. split.
    + intros i -> Hty Hnone. unfold resume. unfold bind at 1.
      rewrite (TicketsSpec.get_found _ _ _ Hl).
      rewrite bool_decide_eq_false_2 by lia.
      unfold bind at 1. rewrite Hstate. rewrite Hty.
      unfold bind at 1.
      assert (grantApproval id w = (Throw (NoPendingApprovalError id), w)
              ∧ denyApproval id w = (Throw (NoPendingApprovalError id), w))
        as [Hgrant Hdeny].
      { unfold grantApproval, denyApproval, bind.
        by rewrite (TicketsSpec.get_found _ _ _ Hl), Hnone. }
      destruct (default false (approved i)); unfold bind at 1;
        by rewrite ?Hgrant, ?Hdeny.
    + intros i a -> Hty Ha Hne Hnone. unfold resume. unfold bind at 1.
      rewrite (TicketsSpec.get_found _ _ _ Hl).
      rewrite bool_decide_eq_false_2 by lia.
      unfold bind at 1. rewrite Hstate. rewrite Hty, Ha.
      rewrite (proj2 (String.eqb_neq a EmptyString) Hne). cbn [negb].
      unfold bind at 1. unfold bind at 1.
      unfold answerQuestion, bind.
      by rewrite (TicketsSpec.get_found _ _ _ Hl), Hnone.
Qed.

(** *** Cancelling *)

(** X28. [cancel] deletes every checkpoint of the ticket. A stored ticket
    whose status may move to [cancelled] gets that status and the time of
    the call as resolution time; a ticket that is completed, failed or
    cancelled already stays as it is, and so does the store when the ticket
    does not exist. Other tickets are untouched. [cancel] returns normally
    when the ticket is stored or no audit service is set; with an audit
    service and no such ticket it throws, the checkpoints deleted: the
    audit entry it writes last, outside the [try], refers to a ticket that
    is not stored, and the insert violates the foreign key of the audit
    log. *)
Theorem cancel_spec (auditService : bool) (w : World) (id : string) :
  ∃ r w',
    cancel auditService id w = (r, w')
    ∧ (if auditService && bool_decide (tickets w !! id = None)
       then ∃ e, r = Throw e else r = Ok tt)
    ∧ (∀ r, r ∈ agent_states w' ↔ r ∈ agent_states w ∧ row_ticket_id r ≠ id)
    ∧ (∀ cid, Checkpointer.getTuple (Checkpointer.mkConfig (Some id) cid) w'
              = (Ok None, w'))
    ∧ (∀ id', id' ≠ id → tickets w' !! id' = tickets w !! id')
    ∧ match tickets w !! id with
      | None => tickets w' = tickets w
      | Some t =>
          if bool_decide (status t ∈ [st_completed; st_failed; st_cancelled])
          then tickets w' = tickets w
          else ∃ t', tickets w' !! id = Some t'
                     ∧ status t' = st_cancelled
                     ∧ resolvedAt t' = Some (clock (S (clockReads w)))
      end.
Proof.
  unfold cancel. unfold bind at 1. unfold Checkpointer.deleteThread, modify.
  set (w0 := set_agent_states _ w).
  assert (∀ r, r ∈ agent_states w0 ↔ r ∈ agent_states w ∧ row_ticket_id r ≠ id)
    as Hrows.
  { intros r. cbn. rewrite list_elem_of_filter. tauto. }
  assert (∀ w' : World, agent_states w' = agent_states w0 →
            ∀ cid, Checkpointer.getTuple (Checkpointer.mkConfig (Some id) cid) w'
                   = (Ok None, w')) as Hnone.
  { intros w' Hsame cid. apply CheckpointStoreSpec.getTuple_none.
    rewrite Hsame. intros r Hr. by apply Hrows in Hr as [_ Hne]. }
  (* the transition inside the [try] *)
  assert (∃ w1,
            try_catch
              (let* _ := Tickets.transitionStatus id st_cancelled in ret tt)
              (fun _ => ret tt) w0 = (Ok tt, w1)
            ∧ agent_states w1 = agent_states w0
            ∧ (tickets w1 !! id = None ↔ tickets w !! id = None)
            ∧ (∀ id', id' ≠ id → tickets w1 !! id' = tickets w !! id')
            ∧ match tickets w !! id with
              | None => tickets w1 = tickets w
              | Some t =>
                  if bool_decide (status t ∈ [st_completed; st_failed; st_cancelled])
                  then tickets w1 = tickets w
                  else ∃ t', tickets w1 !! id = Some t'
                             ∧ status t' = st_cancelled
                             ∧ resolvedAt t' = Some (clock (S (clockReads w)))
              end)
    as (w1 & Htry & Hrows1 & Hsame & Hothers & Hcase).
  { unfold try_catch, bind.
    destruct (tickets w !! id) as [t|] eqn:Hl.
    - assert (tickets w0 !! id = Some t) as Hl0 by exact Hl.
      destruct (status_includes (VALID_TRANSITIONS (status t)) st_cancelled) eqn:Hin.
      + rewrite (TicketOpsSpec.transitionStatus_allowed _ _ _ _ Hl0 Hin).
        cbn [is_resolved]. eexists. split; [reflexivity|].
        split; [reflexivity|].
        split; [cbn; rewrite lookup_insert_eq; by split|].
        split; [intros id' Hne; cbn; by rewrite lookup_insert_ne|].
        rewrite bool_decide_eq_false_2.
        * eexists. cbn. rewrite lookup_insert_eq. by split.
        * intros Hst. destruct (status t); try discriminate Hin;
            repeat (apply elem_of_cons in Hst as [Hst | Hst]; [discriminate Hst|]);
            by apply elem_of_nil in Hst.
      + rewrite (TicketOpsSpec.transitionStatus_refused _ _ _ _ Hl0 Hin).
        eexists. split; [reflexivity|]. split; [reflexivity|].
        split; [cbn; rewrite Hl; by split|]. split; [done|].
        rewrite bool_decide_eq_true_2; [done|].
        destruct (status t); try discriminate Hin;
          [by left | by right; left | by right; right; left].
    - assert (tickets w0 !! id = None) as Hl0 by exact Hl.
      unfold transitionStatus, bind. rewrite (TicketsSpec.get_missing _ _ Hl0).
      eexists. split; [reflexivity|]. done. }
  unfold bind at 1. rewrite Htry.
  destruct (TicketOpsSpec.audit_outcome auditService id w1)
    as (r & w' & Hrun & Hr & Ht & Hrows').
  exists r, w'. split; [exact Hrun|]. split.
  { destruct auditService; [|exact Hr]. cbn [andb] in *.
    destruct (tickets w !! id) as [t|] eqn:Hl.
    - rewrite bool_decide_eq_false_2 by done.
      rewrite bool_decide_eq_false_2 in Hr; [exact Hr|].
      intros Hn. by apply Hsame in Hn.
    - rewrite bool_decide_eq_true_2 by done.
      rewrite bool_decide_eq_true_2 in Hr; [exact Hr|]. by apply Hsame. }
  split; [intros r0; rewrite Hrows', Hrows1; apply Hrows|].
  split; [apply Hnone; by rewrite Hrows', Hrows1|].
  split; [intros id' Hne; rewrite Ht; by apply Hothers|].
  rewrite Ht. exact Hcase.
Qed.

(** *** The record a run returns *)

(** X29. Once the ticket is found, has turns left and has a work tree,
    [run] does not throw: it returns a record for the ticket. A record of
    success carries no error and phase [completed], and then the ticket is
    stored as [completed]. A record with an error reports failure in phase
    [completed], waiting for nothing. A record without error in phase
    [waiting] leaves the ticket stored as [pending_approval] or
    [awaiting_input]. *)
Theorem run_returns_record (w : World) (id : string) (t : Ticket) :
  tickets w !! id = Some t →
  (currentTurn t < maxTurns t)%Z →
  ensureWorktree id = Ok tt →
  ∃ res w',
    run id w = (Ok res, w')
    ∧ r_ticketId res = id
    ∧ (success res = true ↔ r_phase res = ph_completed ∧ r_error res = None)
    ∧ (success res = true → (status <$> tickets w' !! id) = Some st_completed)
    ∧ (is_Some (r_error res) →
         r_phase res = ph_completed ∧ r_waitingFor res = None)
    ∧ (r_error res = None → r_phase res = ph_waiting →
         (status <$> tickets w' !! id) = Some st_pending_approval
         ∨ (status <$> tickets w' !! id) = Some st_awaiting_input).
Proof.
  intros Hl Hunder Htree. unfold run. unfold bind at 1.
  rewrite (TicketsSpec.get_found _ _ _ Hl).
  rewrite bool_decide_eq_false_2 by lia. rewrite Htree.
  unfold bind at 1.
  match goal with
  | |- context [(if bool_decide (status t = st_approved) then ?a else ?b) w] =>
      assert (∃ w1, (if bool_decide (status t = st_approved) then a else b) w
                    = (Ok tt, w1)) as [w1 ->]
  end.
  { case_bool_decide as Hst; [|by eexists].
    unfold bind.
    rewrite (TicketOpsSpec.transitionStatus_allowed _ _ _ _ Hl)
      by (by rewrite Hst).
    by eexists. }
  unfold try_catch.
  match goal with
  | |- context [let (r, w') := ?body w1 in _] =>
      destruct (body w1) as [[res|e] w2] eqn:Hbody
  end.
  2:{ eexists _, _. split; [reflexivity|]. cbn.
      split; [done|]. split; [by split; [|intros [_ ?]]|].
      split; [done|]. split; [done|]. done. }
  exists res, w2. split; [reflexivity|].
  apply bind_Ok_inv in Hbody as (result & w3 & _ & Hbody).
  apply bind_Ok_inv in Hbody as (t3 & w4 & _ & Hbody).
  apply bind_Ok_inv in Hbody as ([] & w5 & Hstatus & Hret).
  injection Hret as <- <-. cbn.
  split; [done|]. split.
  { split; [intros Hs; by apply bool_decide_eq_true in Hs
           | intros [Hph _]; by apply bool_decide_eq_true]. }
  split.
  { intros Hs. apply bool_decide_eq_true in Hs. revert Hstatus.
    rewrite bool_decide_eq_true_2 by done.
    intros (t5 & w6 & Htr & [= <-])%bind_Ok_inv.
    apply transitionStatus_Ok in Htr as [Ht5 Hs5]. rewrite Ht5. cbn.
    by rewrite Hs5. }
  split; [by intros [? ?]|].
  intros _ Hph. revert Hstatus. rewrite Hph.
  rewrite bool_decide_eq_false_2 by done. rewrite bool_decide_eq_true_2 by done.
  destruct (waitingFor result) as [[]|], (gs_structuredPlan result) as [plan|];
    try case_bool_decide;
    intros (t5 & w6 & Htr & [= <-])%bind_Ok_inv;
    apply transitionStatus_Ok in Htr as [Ht5 Hs5]; rewrite Ht5; cbn;
    rewrite Hs5; auto.
Qed.
End Proofs.

Lemma run_guards_witness :
  let H := Sample.env [] in
  let t := set_currentTurn 50 (Sample.ticket st_in_progress None) in
  let w := Sample.world t in
  run "T-1" w = (Throw (MaxTurnsExceededError 50), w).
Proof.
  intros H t w.
  destruct (run_guards (H := H) w "T-1" t (lookup_singleton_eq _ _)) as [Hover _].
  apply Hover. cbn. lia.
Defined.

Lemma resume_guards_witness :
  let H := Sample.env [] in
  let t := Sample.ticket st_pending_approval None in
  let cp := mkCheckpoint "cp-1" (Sample.state None 0 ph_waiting (Some wf_approval) None) in
  let row := mkCheckpointRow "T-1" "cp-1" None cp (Some "loop") None 0%nat None in
  let w := mkWorld {[ "T-1" := t ]} [row] 0 0 [] [] [] in
  resume "T-1" (Some (mkHumanInput hi_approval (Some true) None)) w
  = (Throw (NoPendingApprovalError "T-1"), w).
Proof.
  intros H t cp row w.
  destruct (resume_guards (H := H) w "T-1" t
              (Some (mkHumanInput hi_approval (Some true) None))
              (lookup_singleton_eq _ _)) as [_ Hstate].
  destruct (Hstate ltac:(cbn; lia) (channel_values cp) eq_refl) as [Happroval _].
  by apply (Happroval (mkHumanInput hi_approval (Some true) None)).
Defined.

Lemma run_returns_record_witness :
  let H := Sample.env [Sample.planResponse] in
  let w := Sample.world (Sample.ticket st_draft None) in
  ∃ res w', run "T-1" w = (Ok res, w')
            ∧ (r_error res = None → r_phase res = ph_waiting →
               (status <$> tickets w' !! "T-1") = Some st_pending_approval
               ∨ (status <$> tickets w' !! "T-1") = Some st_awaiting_input).
Proof.
  intros H w.
  destruct (run_returns_record (H := H) w "T-1" (Sample.ticket st_draft None)
              (lookup_singleton_eq _ _) ltac:(cbn; lia) eq_refl)
    as (res & w' & Hrun & _ & _ & _ & _ & Hwait).
  exists res, w'. split; [exact Hrun | exact Hwait].
Defined.
(** [cancel] computed: on a stored ticket it returns, with an audit service
    or without; on an id that is not stored it throws when an audit service
    is set, and returns when none is. *)
Example cancel_outcomes :
  let H := Sample.env [] in
  let w := Sample.world (Sample.ticket st_in_progress None) in
  fst (cancel true "T-1" w) = Ok tt
  ∧ (status <$> tickets (snd (cancel true "T-1" w)) !! "T-1") = Some st_cancelled
  ∧ fst (cancel true "T-9" w) = Throw (Error "FOREIGN KEY constraint failed")
  ∧ fst (cancel false "T-9" w) = Ok tt.
Proof. vm_compute. auto. Qed.
End ServiceSpec.
